(** * monitor-imap-webhook: the IMAP monitoring engine, embedded and verified

    A shallow embedding of the Go packages [config] (the layers of [Load]),
    [imapclient] (connection lifecycle, command serialization, drain
    counter, new-message handling, the long-poll session), [webhook]
    (payload normalisation, headers, delivery with retries), [parser] (text
    helpers, body extraction, attachments) and of the consumer loop of
    [cmd/monitor], followed by the properties proved about them.

    Conventions.
    - Go's [error] is [option string]: [None] is [nil], [Some s] an error
      whose [Error()] text is [s]; [fmt.Errorf("p: %w", e)] is the text
      ["p: " ++ s].
    - [uint32] and [int]/[int64]/[time.Duration] are [Z] with the wrap-around
      written out ([wrapU32], [wrapInt]); durations and instants are
      nanoseconds.
    - The methods of [*Client] run in a small state monad over [World]: the
      fields of the Go struct plus what the method does to the outside (wire
      commands, log lines, sleeps, events pushed on the channel, the clock).
    - Everything the outside decides (server replies, which [select] case
      fires, how long a timer really takes, what the consumer goroutine does
      meanwhile) is an explicit environment argument. *)

From Stdlib Require Import ZArith List Lia Bool Sorted.
From stdpp Require Import base option list gmap strings pretty.

Open Scope Z_scope.

(** ** Machine integers and durations *)

Definition wrapU32 (z : Z) : Z := z mod 2 ^ 32.
Definition maxInt : Z := 2 ^ 63 - 1.
Definition minInt : Z := - 2 ^ 63.
Definition wrapInt (z : Z) : Z := (z + 2 ^ 63) mod 2 ^ 64 - 2 ^ 63.

Definition Millisecond : Z := 1000000.
Definition Second : Z := 1000 * Millisecond.

Definition error : Type := option string.

(** ** Package config *)

Module config.

(** [type Config struct] *)
Record Config := mkConfig {
  IMAPHost : string;
  IMAPPort : Z;
  Username : string;
  Password : string;
  Mailbox : string;
  UseTLS : bool;
  StartTLS : bool;
  InsecureSkipVerify : bool;
  CheckInterval : Z;
  DrainTimeout : Z;
  WebhookURL : string;
  WebhookHeader : string;
  FetchBodySize : Z;
  RetryMax : Z;
  RetryBaseBackoff : Z;
  HTMLToTextMode : string;
  IncludeRawHTML : bool;
  EnableBlocks : bool;
  SkipInlineImages : bool;
  Debug : bool
}.

(** *** Load *)

(** [type fileConfig struct]: one pointer per key, [None] for a key the file
    does not have. *)
Record fileConfig := mkFileConfig {
  fcIMAPHost : option string;
  fcIMAPPort : option Z;
  fcUsername : option string;
  fcPassword : option string;
  fcMailbox : option string;
  fcUseTLS : option bool;
  fcStartTLS : option bool;
  fcInsecureSkipVerify : option bool;
  fcCheckInterval : option Z;
  fcDrainTimeout : option Z;
  fcWebhookURL : option string;
  fcWebhookHeader : option string;
  fcFetchBodySize : option Z;
  fcRetryMax : option Z;
  fcRetryBaseBackoff : option Z;
  fcHTMLToTextMode : option string;
  fcIncludeRawHTML : option bool;
  fcEnableBlocks : option bool;
  fcSkipInlineImages : option bool;
  fcDebug : option bool
}.

(** [func parseBool(v string) bool] *)
Definition parseBool (v : string) : bool :=
  String.eqb v "1" || String.eqb v "true" || String.eqb v "TRUE" || String.eqb v "yes".

(** The flag values [Load] registers: [stringFlag], [intFlag], [boolFlag] and
    [durationFlag] with their [val] and [set], and the plain string variable
    of [--config]. *)
Inductive FlagValue :=
| stringFlag (val : string) (set : bool)
| intFlag (val : Z) (set : bool)
| boolFlag (val : bool) (set : bool)
| durationFlag (val : Z) (set : bool)
| stringVar (val : string).

(** What [Load] finds outside: the environment variables, the path the
    pre-parse of the command line leaves in [configPath], the file system and
    the YAML decoder, and the [(name, value)] pairs [flag.Parse] hands to the
    flags in command-line order ([None] when it rejects the command line
    before that). *)
Record LoadEnv := mkLoadEnv {
  LookupEnv : string -> option string;
  configPath : string;
  ReadFile : string -> string + string;          (* the error text, or the data *)
  Unmarshal : string -> string + fileConfig;     (* the error text, or the keys *)
  flagArgs : option (list (string * string))
}.

(** How [Load] ends: with a configuration, with an error, or inside
    [flag.Parse], which exits the process on a bad command line. *)
Inductive LoadResult :=
| Loaded (cfg : Config)
| LoadError (msg : string)
| Exited.

Section Load.

(** [fmt.Sscanf(v, "%d", &n)] and [time.ParseDuration(v)]: the value, or
    [None] for an error. *)
Variable Sscanf_d : string -> option Z.
Variable ParseDuration : string -> option Z.

(** The [Set] methods; [None] when [Set] returns an error. *)
Definition Set_ (v : string) (f : FlagValue) : option FlagValue :=
  match f with
  | stringFlag _ _ => Some (stringFlag v true)
  | intFlag _ _ =>
      match Sscanf_d v with
      | Some tmp => Some (intFlag tmp true)
      | None => None
      end
  | boolFlag _ _ =>
      Some (boolFlag
              (if String.eqb v "1" || String.eqb v "true" || String.eqb v "TRUE"
                  || String.eqb v "yes"
               then true else false)
              true)
  | durationFlag _ _ =>
      match ParseDuration v with
      | Some dur => Some (durationFlag dur true)
      | None => None
      end
  | stringVar _ => Some (stringVar v)
  end.

(** [flag.Parse()] on the flags registered: each pair is looked up by name
    and handed to [Set]; an unknown name or a failing [Set] exits. *)
Fixpoint flag_Parse (args : list (string * string)) (flags : gmap string FlagValue)
  : option (gmap string FlagValue) :=
  match args with
  | [] => Some flags
  | (name, v) :: rest =>
      match flags !! name with
      | None => None
      | Some f =>
          match Set_ v f with
          | None => None
          | Some f' => flag_Parse rest (<[name := f']> flags)
          end
      end
  end.

(** Step 1: the built-in defaults. *)
Definition defaults : Config :=
  mkConfig "" 993 "" "" "INBOX" true false false (30 * Second) (3 * Second)
    "" "" (200 * 1024) 5 (1 * Second) "simple" false false false false.

Definition envString (env : LoadEnv) (key : string) (old : string) : string :=
  match LookupEnv env key with Some v => v | None => old end.

Definition envInt (env : LoadEnv) (key : string) (old : Z) : Z :=
  match LookupEnv env key with
  | Some v => let n := default 0 (Sscanf_d v) in if 0 <? n then n else old
  | None => old
  end.

Definition envBool (env : LoadEnv) (key : string) (old : bool) : bool :=
  match LookupEnv env key with Some v => parseBool v | None => old end.

Definition envDuration (env : LoadEnv) (key : string) (old : Z) : Z :=
  match LookupEnv env key with
  | Some v => match ParseDuration v with Some d => d | None => old end
  | None => old
  end.

(** Step 2: the environment variables that are there. *)
Definition applyEnv (env : LoadEnv) (cfg : Config) : Config :=
  mkConfig
    (envString env "IMAP_HOST" (IMAPHost cfg))
    (envInt env "IMAP_PORT" (IMAPPort cfg))
    (envString env "IMAP_USERNAME" (Username cfg))
    (envString env "IMAP_PASSWORD" (Password cfg))
    (envString env "IMAP_MAILBOX" (Mailbox cfg))
    (envBool env "IMAP_TLS" (UseTLS cfg))
    (envBool env "IMAP_STARTTLS" (StartTLS cfg))
    (envBool env "IMAP_INSECURE_SKIP_VERIFY" (InsecureSkipVerify cfg))
    (envDuration env "IMAP_INTERVAL" (CheckInterval cfg))
    (envDuration env "DRAIN_TIMEOUT" (DrainTimeout cfg))
    (envString env "WEBHOOK_URL" (WebhookURL cfg))
    (envString env "WEBHOOK_HEADER" (WebhookHeader cfg))
    (envInt env "FETCH_BODY_BYTES" (FetchBodySize cfg))
    (envInt env "RETRY_MAX" (RetryMax cfg))
    (envDuration env "RETRY_BACKOFF" (RetryBaseBackoff cfg))
    (envString env "HTML2TEXT_MODE" (HTMLToTextMode cfg))
    (envBool env "RAW_HTML" (IncludeRawHTML cfg))
    (envBool env "ENABLE_BLOCKS" (EnableBlocks cfg))
    (envBool env "SKIP_INLINE_IMAGES" (SkipInlineImages cfg))
    (envBool env "DEBUG" (Debug cfg)).

(** The assignments of [mergeFile], one per key that is there. *)
Definition mergeKeys (fc : fileConfig) (base : Config) : Config :=
  mkConfig
    (default (IMAPHost base) (fcIMAPHost fc))
    (default (IMAPPort base) (fcIMAPPort fc))
    (default (Username base) (fcUsername fc))
    (default (Password base) (fcPassword fc))
    (default (Mailbox base) (fcMailbox fc))
    (default (UseTLS base) (fcUseTLS fc))
    (default (StartTLS base) (fcStartTLS fc))
    (default (InsecureSkipVerify base) (fcInsecureSkipVerify fc))
    (default (CheckInterval base) (fcCheckInterval fc))
    (default (DrainTimeout base) (fcDrainTimeout fc))
    (default (WebhookURL base) (fcWebhookURL fc))
    (default (WebhookHeader base) (fcWebhookHeader fc))
    (default (FetchBodySize base) (fcFetchBodySize fc))
    (default (RetryMax base) (fcRetryMax fc))
    (default (RetryBaseBackoff base) (fcRetryBaseBackoff fc))
    (default (HTMLToTextMode base) (fcHTMLToTextMode fc))
    (default (IncludeRawHTML base) (fcIncludeRawHTML fc))
    (default (EnableBlocks base) (fcEnableBlocks fc))
    (default (SkipInlineImages base) (fcSkipInlineImages fc))
    (default (Debug base) (fcDebug fc)).

(** [func mergeFile(path string, base *Config) error] *)
Definition mergeFile (env : LoadEnv) (path : string) (base : Config) : string + Config :=
  match ReadFile env path with
  | inl err => inl err
  | inr data =>
      if String.eqb data "" then inl "配置文件为空"
      else
        match Unmarshal env data with
        | inl err => inl err
        | inr fc => inr (mergeKeys fc base)
        end
  end.

(** Step 5: the flags as registered, each starting from the value the
    configuration has so far. *)
Definition registered (cfg : Config) (path : string) : gmap string FlagValue :=
  list_to_map
    [("imap-host", stringFlag (IMAPHost cfg) false);
     ("imap-port", intFlag (IMAPPort cfg) false);
     ("username", stringFlag (Username cfg) false);
     ("password", stringFlag (Password cfg) false);
     ("mailbox", stringFlag (Mailbox cfg) false);
     ("tls", boolFlag (UseTLS cfg) false);
     ("starttls", boolFlag (StartTLS cfg) false);
     ("insecure-skip-verify", boolFlag (InsecureSkipVerify cfg) false);
     ("interval", durationFlag (CheckInterval cfg) false);
     ("drain-timeout", durationFlag (DrainTimeout cfg) false);
     ("webhook", stringFlag (WebhookURL cfg) false);
     ("webhook-header", stringFlag (WebhookHeader cfg) false);
     ("fetch-body-bytes", intFlag (FetchBodySize cfg) false);
     ("retry-max", intFlag (RetryMax cfg) false);
     ("retry-backoff", durationFlag (RetryBaseBackoff cfg) false);
     ("html2text", stringFlag (HTMLToTextMode cfg) false);
     ("raw-html", boolFlag (IncludeRawHTML cfg) false);
     ("enable-blocks", boolFlag (EnableBlocks cfg) false);
     ("skip-inline-images", boolFlag (SkipInlineImages cfg) false);
     ("debug", boolFlag (Debug cfg) false);
     ("config", stringVar path)].

Definition flagString (flags : gmap string FlagValue) (name : string) (old : string)
  : string :=
  match flags !! name with Some (stringFlag val true) => val | _ => old end.

Definition flagInt (flags : gmap string FlagValue) (name : string) (old : Z) : Z :=
  match flags !! name with Some (intFlag val true) => val | _ => old end.

Definition flagBool (flags : gmap string FlagValue) (name : string) (old : bool) : bool :=
  match flags !! name with Some (boolFlag val true) => val | _ => old end.

Definition flagDuration (flags : gmap string FlagValue) (name : string) (old : Z) : Z :=
  match flags !! name with Some (durationFlag val true) => val | _ => old end.

(** Step 6: the flags that were given. *)
Definition applyFlags (flags : gmap string FlagValue) (cfg : Config) : Config :=
  mkConfig
    (flagString flags "imap-host" (IMAPHost cfg))
    (flagInt flags "imap-port" (IMAPPort cfg))
    (flagString flags "username" (Username cfg))
    (flagString flags "password" (Password cfg))
    (flagString flags "mailbox" (Mailbox cfg))
    (flagBool flags "tls" (UseTLS cfg))
    (flagBool flags "starttls" (StartTLS cfg))
    (flagBool flags "insecure-skip-verify" (InsecureSkipVerify cfg))
    (flagDuration flags "interval" (CheckInterval cfg))
    (flagDuration flags "drain-timeout" (DrainTimeout cfg))
    (flagString flags "webhook" (WebhookURL cfg))
    (flagString flags "webhook-header" (WebhookHeader cfg))
    (flagInt flags "fetch-body-bytes" (FetchBodySize cfg))
    (flagInt flags "retry-max" (RetryMax cfg))
    (flagDuration flags "retry-backoff" (RetryBaseBackoff cfg))
    (flagString flags "html2text" (HTMLToTextMode cfg))
    (flagBool flags "raw-html" (IncludeRawHTML cfg))
    (flagBool flags "enable-blocks" (EnableBlocks cfg))
    (flagBool flags "skip-inline-images" (SkipInlineImages cfg))
    (flagBool flags "debug" (Debug cfg)).

Definition missingRequired : string := "缺少必需配置: imap-host/username/password/webhook".
Definition tlsConflict : string := "参数冲突: 不能同时启用 tls 与 starttls".

(** Step 7: the checks. *)
Definition validate (cfg : Config) : LoadResult :=
  if String.eqb (IMAPHost cfg) "" || String.eqb (Username cfg) ""
     || String.eqb (Password cfg) "" || String.eqb (WebhookURL cfg) ""
  then LoadError missingRequired
  else if UseTLS cfg && StartTLS cfg then LoadError tlsConflict
  else if negb (String.eqb (HTMLToTextMode cfg) "simple")
          && negb (String.eqb (HTMLToTextMode cfg) "preserve-line")
          && negb (String.eqb (HTMLToTextMode cfg) "none")
  then LoadError ("html2text 取值非法: " +:+ HTMLToTextMode cfg)
  else Loaded cfg.

(** [func Load()], which returns the configuration or an error. *)
Definition Load (env : LoadEnv) : LoadResult :=
  let cfg := applyEnv env defaults in
  match (if String.eqb (configPath env) "" then inr cfg
         else mergeFile env (configPath env) cfg) with
  | inl err => LoadError ("读取配置文件失败: " +:+ err)
  | inr cfg =>
      match flagArgs env with
      | None => Exited
      | Some args =>
          match flag_Parse args (registered cfg (configPath env)) with
          | None => Exited
          | Some flags => validate (applyFlags flags cfg)
          end
      end
  end.

End Load.

(** *** Vocabulary of the statements about [Load] *)

(** The value of the last occurrence of the flag [name]. *)
Definition lastValue (name : string) (args : list (string * string)) : option string :=
  snd <$> last (List.filter (λ a, String.eqb a.1 name) args).

(** The keys of the file [Load] merged, if it merged one. *)
Definition fileKeys (env : LoadEnv) : option fileConfig :=
  if String.eqb (configPath env) "" then None
  else match ReadFile env (configPath env) with
       | inr data => match Unmarshal env data with inr fc => Some fc | inl _ => None end
       | inl _ => None
       end.

(** The settings by type: the name of the flag, the environment variable,
    the field and the key of the file. *)
Definition stringSettings
  : list (string * string * (Config -> string) * (fileConfig -> option string)) :=
  [("imap-host", "IMAP_HOST", IMAPHost, fcIMAPHost);
   ("username", "IMAP_USERNAME", Username, fcUsername);
   ("password", "IMAP_PASSWORD", Password, fcPassword);
   ("mailbox", "IMAP_MAILBOX", Mailbox, fcMailbox);
   ("webhook", "WEBHOOK_URL", WebhookURL, fcWebhookURL);
   ("webhook-header", "WEBHOOK_HEADER", WebhookHeader, fcWebhookHeader);
   ("html2text", "HTML2TEXT_MODE", HTMLToTextMode, fcHTMLToTextMode)].

Definition intSettings
  : list (string * string * (Config -> Z) * (fileConfig -> option Z)) :=
  [("imap-port", "IMAP_PORT", IMAPPort, fcIMAPPort);
   ("fetch-body-bytes", "FETCH_BODY_BYTES", FetchBodySize, fcFetchBodySize);
   ("retry-max", "RETRY_MAX", RetryMax, fcRetryMax)].

Definition boolSettings
  : list (string * string * (Config -> bool) * (fileConfig -> option bool)) :=
  [("tls", "IMAP_TLS", UseTLS, fcUseTLS);
   ("starttls", "IMAP_STARTTLS", StartTLS, fcStartTLS);
   ("insecure-skip-verify", "IMAP_INSECURE_SKIP_VERIFY", InsecureSkipVerify,
    fcInsecureSkipVerify);
   ("raw-html", "RAW_HTML", IncludeRawHTML, fcIncludeRawHTML);
   ("enable-blocks", "ENABLE_BLOCKS", EnableBlocks, fcEnableBlocks);
   ("skip-inline-images", "SKIP_INLINE_IMAGES", SkipInlineImages, fcSkipInlineImages);
   ("debug", "DEBUG", Debug, fcDebug)].

Definition durationSettings
  : list (string * string * (Config -> Z) * (fileConfig -> option Z)) :=
  [("interval", "IMAP_INTERVAL", CheckInterval, fcCheckInterval);
   ("drain-timeout", "DRAIN_TIMEOUT", DrainTimeout, fcDrainTimeout);
   ("retry-backoff", "RETRY_BACKOFF", RetryBaseBackoff, fcRetryBaseBackoff)].

(** The value of a setting by layers: the flag if given, else the key of the
    file, else the environment variable, else the default. *)
Definition layered {A : Type} (flag file environment : option A) (dflt : A) : A :=
  match flag, file, environment with
  | Some v, _, _ => v
  | None, Some v, _ => v
  | None, None, Some v => v
  | None, None, None => dflt
  end.

(** An environment number counts only when it scans and is positive. *)
Definition positiveOnly (n : option Z) : option Z :=
  match n with
  | Some n => if 0 <? n then Some n else None
  | None => None
  end.

(** Which of the flag types a value is. *)
Definition kind (f : FlagValue) : nat :=
  match f with
  | stringFlag _ _ => 0
  | intFlag _ _ => 1
  | boolFlag _ _ => 2
  | durationFlag _ _ => 3
  | stringVar _ => 4
  end%nat.

(** *** Example command line *)

(** A scanner that knows the numbers of the examples. *)
Definition scanSmall (v : string) : option Z :=
  if String.eqb v "-1" then Some (-1)
  else if String.eqb v "0" then Some 0
  else if String.eqb v "993" then Some 993
  else None.

(** A duration parser that knows the durations of the examples. *)
Definition parseSeconds (v : string) : option Z :=
  if String.eqb v "5s" then Some (5 * Second)
  else if String.eqb v "0s" then Some 0
  else None.

(** Everything on the command line, no file, an empty environment: STARTTLS
    instead of TLS, and no retries. *)
Definition commandLineOnly : LoadEnv :=
  mkLoadEnv (λ _, None) "" (λ _, inl "no such file") (λ _, inl "not read")
    (Some [("imap-host", "imap.example.com"); ("username", "user@example.com");
           ("password", "app-password"); ("webhook", "http://127.0.0.1:8080/mail");
           ("tls", "0"); ("starttls", "1"); ("retry-max", "-1")]).

(** What [Load] makes of it. *)
Definition commandLineConfig : Config :=
  mkConfig "imap.example.com" 993 "user@example.com" "app-password" "INBOX"
    false true false (30 * Second) (3 * Second)
    "http://127.0.0.1:8080/mail" "" (200 * 1024) (-1) (1 * Second) "simple"
    false false false false.

End config.

(** ** UTF-8 decoding, as [range] over a Go string and the regexp engine do it *)

Module utf8.

Definition RuneError : Z := 0xFFFD.

Definition between (lo hi b : Z) : bool := (lo <=? b) && (b <=? hi).
Definition cont (b : Z) : bool := between 0x80 0xBF b.
Definition low6 (b : Z) : Z := Z.land b 0x3F.

(** [utf8.DecodeRune]: the first rune of [p] and its width in bytes; an
    invalid or truncated encoding is [RuneError] of width 1. *)
Definition DecodeRune (p : list Z) : Z * nat :=
  match p with
  | [] => (RuneError, 0%nat)
  | b0 :: t =>
      if b0 <? 0x80 then (b0, 1%nat)
      else if between 0xC2 0xDF b0 then
        match t with
        | b1 :: _ =>
            if cont b1
            then (Z.lor (Z.shiftl (Z.land b0 0x1F) 6) (low6 b1), 2%nat)
            else (RuneError, 1%nat)
        | _ => (RuneError, 1%nat)
        end
      else if between 0xE0 0xEF b0 then
        let lo := if b0 =? 0xE0 then 0xA0 else 0x80 in
        let hi := if b0 =? 0xED then 0x9F else 0xBF in
        match t with
        | b1 :: b2 :: _ =>
            if between lo hi b1 && cont b2
            then (Z.lor (Z.shiftl (Z.land b0 0x0F) 12)
                        (Z.lor (Z.shiftl (low6 b1) 6) (low6 b2)), 3%nat)
            else (RuneError, 1%nat)
        | _ => (RuneError, 1%nat)
        end
      else if between 0xF0 0xF4 b0 then
        let lo := if b0 =? 0xF0 then 0x90 else 0x80 in
        let hi := if b0 =? 0xF4 then 0x8F else 0xBF in
        match t with
        | b1 :: b2 :: b3 :: _ =>
            if between lo hi b1 && cont b2 && cont b3
            then (Z.lor (Z.shiftl (Z.land b0 0x07) 18)
                        (Z.lor (Z.shiftl (low6 b1) 12)
                               (Z.lor (Z.shiftl (low6 b2) 6) (low6 b3))), 4%nat)
            else (RuneError, 1%nat)
        | _ => (RuneError, 1%nat)
        end
      else (RuneError, 1%nat)
  end.

Fixpoint decode (fuel : nat) (p : list Z) : list Z :=
  match fuel, p with
  | S fuel', _ :: _ =>
      let '(r, n) := DecodeRune p in r :: decode fuel' (drop n p)
  | _, _ => []
  end.

Definition bytes (s : string) : list Z :=
  map (λ a, Z.of_N (Ascii.N_of_ascii a)) (String.list_ascii_of_string s).

(** The runes of a Go string, in order. *)
Definition runes (s : string) : list Z :=
  let p := bytes s in decode (length p) p.

End utf8.

(** ** Package imapclient *)

Module imapclient.

Import config.

(** [type Event struct{ UID uint32 }] *)
Record Event := mkEvent { UID : Z }.

(** [type OpStat struct] *)
Record OpStat := mkOpStat {
  Count : Z;
  Errors : Z;
  LastDuration : Z;
  TotalDuration : Z;
  LastError : string
}.

(** The zero value [OpStat{}]. *)
Definition zeroOpStat : OpStat := mkOpStat 0 0 0 0 "".

(** A live [*client.Client] of the IMAP library: an opaque handle. *)
Definition Conn : Type := nat.

(** [type Client struct]; the three mutexes guard single field accesses and
    have no state of their own in a sequential run. *)
Record Client := mkClient {
  cfg : Config;
  c : option Conn;
  closed : bool;
  opStats : gmap string OpStat;
  activeFetches : Z
}.

Definition set_c (v : option Conn) (cl : Client) : Client :=
  mkClient (cfg cl) v (closed cl) (opStats cl) (activeFetches cl).
Definition set_closed (v : bool) (cl : Client) : Client :=
  mkClient (cfg cl) (c cl) v (opStats cl) (activeFetches cl).
Definition set_opStats (v : gmap string OpStat) (cl : Client) : Client :=
  mkClient (cfg cl) (c cl) (closed cl) v (activeFetches cl).
Definition set_activeFetches (v : Z) (cl : Client) : Client :=
  mkClient (cfg cl) (c cl) (closed cl) (opStats cl) v.

(** [func New(cfg *config.Config) *Client] *)
Definition New (cf : Config) : Client := mkClient cf None false ∅ 0.

(** [func (cl *Client) BeginProcess()]: [cl.activeFetches++] on a Go [int]. *)
Definition BeginProcess (cl : Client) : Client :=
  set_activeFetches (wrapInt (activeFetches cl + 1)) cl.

(** [func (cl *Client) EndProcess()]: decrement only when positive. *)
Definition EndProcess (cl : Client) : Client :=
  if 0 <? activeFetches cl
  then set_activeFetches (wrapInt (activeFetches cl - 1)) cl
  else cl.

(** A call on the drain counter, by the engine ([CallBegin]) or by the
    consumer ([CallEnd]); a list of calls is one interleaving, in the order
    the counter's mutex serialises them. *)
Inductive Call := CallBegin | CallEnd.

Definition do_call (k : Call) : Client -> Client :=
  match k with CallBegin => BeginProcess | CallEnd => EndProcess end.

Definition run_calls (tr : list Call) (cl : Client) : Client :=
  fold_left (fun s k => do_call k s) tr cl.

Definition is_begin (k : Call) : bool := match k with CallBegin => true | CallEnd => false end.
Definition is_end (k : Call) : bool := match k with CallBegin => false | CallEnd => true end.

Definition begins (tr : list Call) : nat := length (List.filter is_begin tr).
Definition ends (tr : list Call) : nat := length (List.filter is_end tr).

(** Every [CallEnd] answers an earlier [CallBegin]: no prefix of the
    interleaving has more [CallEnd]s than [CallBegin]s. Checked left to right
    with the number of [CallBegin]s still open. *)
Fixpoint paired_from (open : nat) (tr : list Call) : bool :=
  match tr with
  | [] => true
  | CallBegin :: tr' => paired_from (S open) tr'
  | CallEnd :: tr' => match open with O => false | S o => paired_from o tr' end
  end.

Definition paired (tr : list Call) : bool := paired_from 0 tr.

(** *** The outside world of a [*Client] *)

(** Commands put on the wire through the IMAP library. *)
Inductive WireOp :=
| OpDialTLS (host : string) (port : Z)
| OpDial (host : string) (port : Z)
| OpStartTLS (h : Conn)
| OpLogin (h : Conn) (user pass : string)
| OpSelect (h : Conn) (mailbox : string)
| OpLogout (h : Conn)
| OpFetchUid (h : Conn) (lo hi : Z).

(** [cl.log.Printf(format, args...)]: the format and its arguments. *)
Inductive Arg := AStr (s : string) | AInt (z : Z) | AErr (e : error) | ADur (d : Z).
Record LogLine := Printf { format : string; args : list Arg }.

Record World := mkWorld {
  client : Client;
  now : Z;                 (* the clock, in nanoseconds *)
  wire : list WireOp;      (* commands sent, oldest first *)
  logs : list LogLine;     (* lines logged, oldest first *)
  slept : list Z;          (* [time.Sleep] calls, oldest first *)
  emitted : list Event     (* events pushed on the channel, oldest first *)
}.

Definition M (A : Type) : Type := World -> A * World.

#[global] Instance M_ret : MRet M := λ A a w, (a, w).
#[global] Instance M_bind : MBind M :=
  λ A B k m w, let '(a, w') := m w in k a w'.

Definition getClient : M Client := λ w, (client w, w).
Definition modifyClient (f : Client -> Client) : M unit :=
  λ w, (tt, mkWorld (f (client w)) (now w) (wire w) (logs w) (slept w) (emitted w)).
Definition timeNow : M Z := λ w, (now w, w).
Definition elapse (d : Z) : M unit :=
  λ w, (tt, mkWorld (client w) (now w + d) (wire w) (logs w) (slept w) (emitted w)).
Definition send (op : WireOp) : M unit :=
  λ w, (tt, mkWorld (client w) (now w) (wire w ++ [op]) (logs w) (slept w) (emitted w)).
Definition logPrintf (f : string) (a : list Arg) : M unit :=
  λ w, (tt, mkWorld (client w) (now w) (wire w) (logs w ++ [Printf f a]) (slept w) (emitted w)).
Definition timeSleep (d : Z) : M unit :=
  λ w, (tt, mkWorld (client w) (now w + d) (wire w) (logs w) (slept w ++ [d]) (emitted w)).
Definition push (e : Event) : M unit :=
  λ w, (tt, mkWorld (client w) (now w) (wire w) (logs w) (slept w) (emitted w ++ [e])).

(** [if cl.cfg.Debug { cl.log.Printf(...) }] *)
Definition debugf (f : string) (a : list Arg) : M unit :=
  cl ← getClient;
  if Debug (cfg cl) then logPrintf f a else mret tt.

(** A world around a client: clock at [t], nothing done yet. *)
Definition world_of (cl : Client) (t : Z) : World := mkWorld cl t [] [] [] [].

(** *** Connect *)

(** What the server answers to each step of one connection attempt. *)
Record ConnectEnv := mkConnectEnv {
  dial_result : string + Conn;   (* the dial error, or the new connection *)
  starttls_result : error;
  login_result : error;
  select_result : error
}.

(** [fmt.Sprintf("%s:%d", cl.cfg.IMAPHost, cl.cfg.IMAPPort)] *)
Definition addr_of (cf : Config) : string :=
  IMAPHost cf +:+ ":" +:+ pretty (IMAPPort cf).

(** The tail of [Connect] once a connection [h] is up: login, then select. *)
Definition Connect_login (env : ConnectEnv) (h : Conn) : M error :=
  cl ← getClient;
  debugf "dial ok %s" [AStr (addr_of (cfg cl))];;
  send (OpLogin h (Username (cfg cl)) (Password (cfg cl)));;
  match login_result env with
  | Some e => send (OpLogout h);; mret (Some ("login: " +:+ e))
  | None =>
      debugf "login ok user=%s" [AStr (Username (cfg cl))];;
      send (OpSelect h (Mailbox (cfg cl)));;
      match select_result env with
      | Some e => send (OpLogout h);; mret (Some ("select mailbox: " +:+ e))
      | None => modifyClient (set_c (Some h));; mret None
      end
  end.

(** [func (cl *Client) Connect(ctx context.Context) error] *)
Definition Connect (env : ConnectEnv) : M error :=
  cl ← getClient;
  if closed cl then mret (Some "client closed")
  else if c cl is Some _ then mret None
  else if UseTLS (cfg cl) then
    send (OpDialTLS (IMAPHost (cfg cl)) (IMAPPort (cfg cl)));;
    match dial_result env with
    | inl e => mret (Some ("dial: " +:+ e))
    | inr h => Connect_login env h
    end
  else
    send (OpDial (IMAPHost (cfg cl)) (IMAPPort (cfg cl)));;
    match dial_result env with
    | inl e => mret (Some ("dial: " +:+ e))
    | inr h =>
        if StartTLS (cfg cl) then
          debugf "starting TLS upgrade" [];;
          send (OpStartTLS h);;
          match starttls_result env with
          | Some e => send (OpLogout h);; mret (Some ("starttls: " +:+ e))
          | None => Connect_login env h
          end
        else Connect_login env h
    end.

(** [func (cl *Client) Close() error]; [logout_result] is what the server
    answers to the logout. *)
Definition Close (logout_result : error) : M error :=
  modifyClient (set_closed true);;
  cl ← getClient;
  match c cl with
  | Some h => send (OpLogout h);; mret logout_result
  | None => mret None
  end.

(** [func (cl *Client) reset(reason string, err error)] *)
Definition reset (reason : string) (err : error) : M unit :=
  cl ← getClient;
  match c cl with
  | Some h => send (OpLogout h);; modifyClient (set_c None)
  | None => mret tt
  end;;
  logPrintf "reset connection: %s: %v" [AStr reason; AErr err].

(** *** IdleLoop: the connecting phase *)

(** One turn of the outer [for] of [IdleLoop]: either [ctx.Err()] is non-nil
    at the top of the loop, or [Connect] is attempted against [env]. *)
Inductive LoopTurn :=
| CtxErr (e : string)
| Attempt (env : ConnectEnv).

(** How the phase ends: [IdleLoop] returns [ctx.Err()], or [Connect]
    succeeded (the loop sets [backoff = time.Second] and goes on to
    [status()]), or the turns given ran out while still retrying. *)
Inductive ConnectingExit :=
| ReturnedCtxErr (e : string)
| Connected (backoff : Z)
| Retrying (backoff : Z).

(** Lines 157-169 of [IdleLoop], for as long as [Connect] fails. *)
Fixpoint IdleLoop_connecting (turns : list LoopTurn) (backoff : Z) : M ConnectingExit :=
  match turns with
  | [] => mret (Retrying backoff)
  | CtxErr e :: _ => mret (ReturnedCtxErr e)
  | Attempt env :: rest =>
      err ← Connect env;
      match err with
      | Some _ =>
          logPrintf "connect error: %v" [AErr err];;
          timeSleep backoff;;
          IdleLoop_connecting rest
            (if backoff <? 30 * Second then wrapInt (backoff * 2) else backoff)
      | None => mret (Connected Second)
      end
  end.

(** [IdleLoop] enters the loop with [backoff := time.Second]. *)
Definition IdleLoop_connect (turns : list LoopTurn) : M ConnectingExit :=
  IdleLoop_connecting turns Second.

(** *** drain *)

(** What happens around the engine while it drains, per loop iteration [i]:
    how many [EndProcess] calls the consumer goroutine completes before the
    counter is read, whether [ctx.Done()] fires during the wait (and after
    how long), and how long [time.After(100ms)] really takes to fire. *)
Record DrainEnv := mkDrainEnv {
  consumer_ends : nat -> nat;
  ctx_done : nat -> option Z;
  timer_elapsed : nat -> Z
}.

Inductive DrainExit := Skipped | Drained | TimedOut | Cancelled.

Definition pollInterval : Z := 100 * Millisecond.

(** The [for] loop of [drain]; [None] when [fuel] iterations did not reach a
    [return]. *)
Fixpoint drain_loop (fuel : nat) (env : DrainEnv) (i : nat) (deadline : Z)
  : M (option DrainExit) :=
  match fuel with
  | O => mret None
  | S fuel' =>
      modifyClient (Nat.iter (consumer_ends env i) EndProcess);;
      cl ← getClient;
      let n := activeFetches cl in
      if n =? 0 then mret (Some Drained)
      else
        t ← timeNow;
        if deadline <? t then
          debugf "drain timeout active=%d" [AInt n];;
          mret (Some TimedOut)
        else
          match ctx_done env i with
          | Some d => elapse d;; mret (Some Cancelled)
          | None => elapse (timer_elapsed env i);; drain_loop fuel' env (S i) deadline
          end
  end.

(** [func (cl *Client) drain(ctx context.Context)] *)
Definition drain (fuel : nat) (env : DrainEnv) : M (option DrainExit) :=
  cl ← getClient;
  if DrainTimeout (cfg cl) <=? 0 then mret (Some Skipped)
  else
    t ← timeNow;
    drain_loop fuel env 0 (t + DrainTimeout (cfg cl)).

(** Iterations that always suffice for a drain timeout [T]. *)
Definition drain_fuel (T : Z) : nat := Z.to_nat (T / pollInterval) + 2.

(** *** Exec and the operation statistics *)

(** [func (cl *Client) updateStats(op string, d time.Duration, err error)] *)
Definition updateStats (op : string) (d : Z) (err : error) (cl : Client) : Client :=
  let st := default zeroOpStat (opStats cl !! op) in
  let st' :=
    mkOpStat (wrapInt (Count st + 1))
             (match err with Some _ => wrapInt (Errors st + 1) | None => Errors st end)
             d
             (wrapInt (TotalDuration st + d))
             (match err with Some e => e | None => "" end) in
  set_opStats (<[op := st']> (opStats cl)) cl.

(** [func (cl *Client) Stats() map[string]OpStat]: a copy of the map. *)
Definition Stats (cl : Client) : gmap string OpStat := opStats cl.

(** Which case of the [select] in [Exec] fires: [fn] returned [e], or the
    context (the caller's deadline, the default 15 s timeout, or a
    cancellation) was done first, with [ctx.Err()] text [cause]. *)
Inductive Race :=
| FnReturned (e : error)
| CtxDone (cause : string).

Record ExecEnv := mkExecEnv {
  race : Race;
  took : Z           (* clock time between [time.Now()] and [time.Since(start)] *)
}.

(** The [err] the [select] of [Exec] leaves: the wrapped [ctx.Err()] on a
    timeout or cancellation, otherwise what [fn] returned. *)
Definition raceError (op : string) (r : Race) : error :=
  match r with
  | CtxDone cause => Some ("op " +:+ op +:+ " timeout or canceled: " +:+ cause)
  | FnReturned e => e
  end.

(** [func (cl *Client) Exec(ctx, op, fn) error]; [fn c] is the command the
    callback puts on the wire when it is started. *)
Definition Exec (env : ExecEnv) (op : string) (fn : Conn -> WireOp) : M error :=
  start ← timeNow;
  cl ← getClient;
  match c cl with
  | None => mret (Some "no connection")
  | Some h =>
      send (fn h);;
      let err := raceError op (race env) in
      elapse (took env);;
      t ← timeNow;
      let dur := t - start in
      modifyClient (updateStats op dur err);;
      match err with
      | Some _ => debugf "op=%s dur=%s err=%v" [AStr op; ADur dur; AErr err]
      | None => debugf "op=%s dur=%s ok" [AStr op; ADur dur]
      end;;
      mret err
  end.

(** *** handleNewMessages *)

(** [imap.Message], the fields a UID fetch fills. *)
Record Message := mkMessage { SeqNum : Z; Uid : Z }.

(** The outside of one call: whether [ctx.Done()] is ready at the first
    [select], what the long-poll goroutine sends on [done] once [stop] is
    closed, how the serialized fetch goes, which messages the library
    delivered on [ch] before closing it, and for the i-th message whether the
    send on [events] proceeds ([true]) or [ctx.Done()] wins ([false]). *)
Record HandleEnv := mkHandleEnv {
  ctx_done_on_entry : bool;
  idle_done : error;
  fetch_env : ExecEnv;
  fetch_msgs : list Message;
  send_proceeds : nat -> bool
}.

(** [for msg := range ch { ... }] *)
Fixpoint emit_all (sel : nat -> bool) (i : nat) (msgs : list Message) : M unit :=
  match msgs with
  | [] => mret tt
  | msg :: rest =>
      debugf "emit uid=%d" [AInt (Uid msg)];;
      modifyClient BeginProcess;;
      (if sel i then push (mkEvent (Uid msg)) else modifyClient EndProcess);;
      emit_all sel (S i) rest
  end.

(** From [// build sequence] to the end of [handleNewMessages]. *)
Definition fetch_and_emit (env : HandleEnv) (newTotal baseline : Z) : M (bool * Z) :=
  err ← Exec (fetch_env env) "fetch-uids"
           (λ h, OpFetchUid h (wrapU32 (baseline + 1)) newTotal);
  match err with
  | Some _ => logPrintf "fetch uids error: %v" [AErr err]
  | None => emit_all (send_proceeds env) 0 (fetch_msgs env)
  end;;
  debugf "baseline updated=%d" [AInt newTotal];;
  mret (true, newTotal).

(** [func (cl *Client) handleNewMessages(ctx, newTotal, baseline, stop, done,
    events) bool]. [idling] is [stop != nil && done != nil]; the result pairs
    the returned bool with the value left in [*baseline]. *)
Definition handleNewMessages (env : HandleEnv) (newTotal baseline : Z) (idling : bool)
  : M (bool * Z) :=
  if newTotal <=? baseline then mret (false, baseline)
  else
    let newCount := wrapU32 (newTotal - baseline) in
    debugf "handleNewMessages newTotal=%d baseline=%d newCount=%d"
           [AInt newTotal; AInt baseline; AInt newCount];;
    if idling then
      if ctx_done_on_entry env then mret (false, baseline)
      else
        match idle_done env with
        | Some _ =>
            reset "idle exit before fetch" (idle_done env);;
            timeSleep (2 * Second);;
            mret (false, baseline)
        | None => fetch_and_emit env newTotal baseline
        end
    else fetch_and_emit env newTotal baseline.

(** *** Vocabulary of the statements *)

(** The phases of a connection attempt. *)
Inductive Phase := PhDial | PhStartTLS | PhLogin | PhSelect.

(** The text that tags the error of a phase. *)
Definition phase_tag (p : Phase) : string :=
  match p with
  | PhDial => "dial"
  | PhStartTLS => "starttls"
  | PhLogin => "login"
  | PhSelect => "select mailbox"
  end.

(** The phases an attempt goes through, in order: the explicit upgrade only
    on a plain connection with STARTTLS configured. *)
Definition plan (cf : Config) : list Phase :=
  PhDial :: (if negb (UseTLS cf) && StartTLS cf then [PhStartTLS] else [])
  ++ [PhLogin; PhSelect].

(** The server's answer to a phase. *)
Definition answer (env : ConnectEnv) (p : Phase) : error :=
  match p with
  | PhDial => match dial_result env with inl e => Some e | inr _ => None end
  | PhStartTLS => starttls_result env
  | PhLogin => login_result env
  | PhSelect => select_result env
  end.

(** The connection a successful dial returns. *)
Definition dialed (env : ConnectEnv) : Conn :=
  match dial_result env with inl _ => 0%nat | inr h => h end.

(** The command of a phase on connection [h]. *)
Definition command (cf : Config) (h : Conn) (p : Phase) : WireOp :=
  match p with
  | PhDial => if UseTLS cf then OpDialTLS (IMAPHost cf) (IMAPPort cf)
              else OpDial (IMAPHost cf) (IMAPPort cf)
  | PhStartTLS => OpStartTLS h
  | PhLogin => OpLogin h (Username cf) (Password cf)
  | PhSelect => OpSelect h (Mailbox cf)
  end.

(** Tearing down what a failed phase leaves: a logout, unless the dial itself
    failed and there is no connection. *)
Definition teardown (h : Conn) (p : Phase) : list WireOp :=
  match p with PhDial => [] | _ => [OpLogout h] end.

(** The sleep before the retry that follows the [k]-th consecutive failure
    (counting from 0): 1 s doubled [k] times, at most 32 s. *)
Definition retryDelay (k : nat) : Z := Z.min (2 ^ Z.of_nat k) 32 * Second.

(** The error of the serialized UID fetch of [handleNewMessages]: no session,
    or what the [select] of [Exec] leaves. *)
Definition fetchError (env : HandleEnv) (cl : Client) : error :=
  match c cl with
  | None => Some "no connection"
  | Some _ => raceError "fetch-uids" (race (fetch_env env))
  end.

(** The identifiers of a list of events. *)
Definition uids (evs : list Event) : list Z := map UID evs.

(** The lines a [debugf] adds to the log. *)
Definition debugLines (cf : Config) (f : string) (a : list Arg) : list LogLine :=
  if Debug cf then [Printf f a] else [].

(** *** Example worlds and environments *)

(** A configuration as in the README: implicit TLS on port 993, the default
    3 s drain timeout and 30 s poll interval. *)
Definition exampleConfig : Config :=
  mkConfig "imap.example.com" 993 "user@example.com" "app-password" "INBOX"
    true false false (30 * Second) (3 * Second)
    "http://127.0.0.1:8080/mail" "" 204800 5 Second "simple"
    false false false false.

(** The same with another drain timeout. *)
Definition configDraining (T : Z) : Config :=
  mkConfig "imap.example.com" 993 "user@example.com" "app-password" "INBOX"
    true false false (30 * Second) T
    "http://127.0.0.1:8080/mail" "" 204800 5 Second "simple"
    false false false false.

(** A server that accepts everything. *)
Definition acceptsAll : ConnectEnv := mkConnectEnv (inr 7%nat) None None None.

(** A server that accepts the dial and rejects the login. *)
Definition rejectsLogin : ConnectEnv :=
  mkConnectEnv (inr 7%nat) None (Some "authentication failed") None.

(** A server that cannot be reached. *)
Definition unreachable : ConnectEnv :=
  mkConnectEnv (inl "connection refused") None None None.

(** A consumer that never finishes and a context that is never cancelled,
    with timers that fire exactly on time. *)
Definition stuckConsumer : DrainEnv :=
  mkDrainEnv (λ _, 0%nat) (λ _, None) (λ _, pollInterval).

(** One event in flight, the drain phase switched off. *)
Definition noDrainBusy : World := world_of (BeginProcess (New (configDraining 0))) 0.

(** One event in flight, a 250 ms drain timeout. *)
Definition busy250 : World :=
  world_of (BeginProcess (New (configDraining (250 * Millisecond)))) 0.

(** A world with the live session [7]. *)
Definition liveWorld : World := world_of (set_c (Some 7%nat) (New exampleConfig)) 0.

(** A body fetch, as the parsing collaborator issues it. *)
Definition fetchBody (h : Conn) : WireOp := OpFetchUid h 1234 1234.

(** An operation that runs into the 15 s default timeout. *)
Definition timesOut : ExecEnv :=
  mkExecEnv (CtxDone "context deadline exceeded") (15 * Second).

(** The mailbox grew from 42 to 43 messages and the server answers the UID
    fetch of 43:43 with UID 1234. *)
Definition grows42to43 : HandleEnv :=
  mkHandleEnv false None (mkExecEnv (FnReturned None) (20 * Millisecond))
    [mkMessage 43 1234] (λ _, true).

(** The same growth, but the UID fetch fails on the wire. *)
Definition fetchFails : HandleEnv :=
  mkHandleEnv false None (mkExecEnv (FnReturned (Some "short write")) (20 * Millisecond))
    [] (λ _, true).

(** *** IdleLoop: one session, from [status()] to the reconnect

    The main goroutine of [IdleLoop] between a successful [Connect] and the
    moment it leaves the session. The long-poll and keepalive goroutines are
    the outside: what they send on [done] is an environment value, their own
    log lines and wire traffic are not recorded. *)

(** [func (cl *Client) status()]: the re-select on the live connection;
    [None] when [cl.c] is nil and the call dereferences it. *)
Definition status (answer : string + Z) : M (option (string + Z)) :=
  cl ← getClient;
  match c cl with
  | None => mret None
  | Some h => send (OpSelect h (Mailbox (cfg cl)));; mret (Some answer)
  end.

(** [func tickerC(t *time.Ticker) <-chan time.Time]: the ticker exists only
    for a positive [CheckInterval]; a nil channel is never ready. *)
Definition tickerC (cf : Config) : bool := 0 <? CheckInterval cf.

(** A value received on [updates]. *)
Inductive Update :=
| MailboxUpdate (messages : option Z)   (* [None]: the [Mailbox] field is nil *)
| MessageUpdate (seqnum : option Z)     (* [None]: the [Message] field is nil *)
| OtherUpdate.

(** The case of the [select] that fires. *)
Inductive SelectCase :=
| CaseCtxDone (ctxerr : string)
| CaseIdleDone (err : error)
| CaseUpdate (upd : Update)
| CaseTick.

(** What the branch taken meets: the value received on [done] after
    [close(stop)], the answer to [status()], and the outside of
    [handleNewMessages] and of [drain]. *)
Record BranchEnv := mkBranchEnv {
  stopped_with : error;
  status_answer : string + Z;
  handle_env : HandleEnv;
  drain_env : DrainEnv
}.

(** Where the loop goes after one pass through the [select]. [idle_dead]
    says that [stop] is already closed and [done] already drained, which is
    how [handleNewMessages] leaves them when the long-poll ended in error. *)
Inductive Next :=
| StaySelecting (baseline : Z) (idle_dead : bool)
| GotoIdleStart (baseline : Z)
| GotoReconnect
| Returned (ctxerr : string)
| Panicked (what : string)
| NeverReady
| DrainOutOfFuel.

(** [close(stop)] on a closed channel. *)
Definition closeOfClosed : string := "close of closed channel".
(** The dereference of a nil [cl.c]. *)
Definition nilDereference : string := "invalid memory address or nil pointer dereference".

(** [cl.drain(ctx)] with the fuel that always suffices, then [k]. *)
Definition drain_then (env : DrainEnv) (k : M Next) : M Next :=
  cl ← getClient;
  r ← drain (drain_fuel (DrainTimeout (cfg cl))) env;
  match r with
  | Some _ => k
  | None => mret DrainOutOfFuel
  end.

(** The tail shared by the poll tick and the message update, once the
    long-poll is stopped: [status()], then the growth check. [tag] is the
    reason given to [reset]; [announce] the debug line of the poll branch. *)
Definition requery (be : BranchEnv) (baseline : Z) (tag : string) (announce : bool)
  : M Next :=
  st ← status (status_answer be);
  match st with
  | None => mret (Panicked nilDereference)
  | Some (inl e) =>
      reset tag (Some e);;
      timeSleep (2 * Second);;
      mret GotoReconnect
  | Some (inr n) =>
      if baseline <? n then
        (if announce
         then debugf "poll detected new messages=%d baseline=%d" [AInt n; AInt baseline]
         else mret tt);;
        handleNewMessages (handle_env be) n baseline false ≫= λ r : bool * Z,
        if r.1 then drain_then (drain_env be) (mret (GotoIdleStart r.2))
        else mret (GotoIdleStart r.2)
      else mret (GotoIdleStart baseline)
  end.

(** [close(stop); if err := <-done; err != nil { reset; sleep; goto RECONNECT }]
    and then [k]. *)
Definition stop_idle (be : BranchEnv) (idle_dead : bool) (tag : string) (k : M Next)
  : M Next :=
  if idle_dead then mret (Panicked closeOfClosed)
  else
    match stopped_with be with
    | Some _ =>
        reset tag (stopped_with be);;
        timeSleep (2 * Second);;
        mret GotoReconnect
    | None => k
    end.

(** One pass through the [select] of the inner [for]. *)
Definition select_pass (sc : SelectCase) (be : BranchEnv) (baseline : Z)
    (idle_dead : bool) : M Next :=
  match sc with
  | CaseCtxDone ctxerr =>
      if idle_dead then mret (Panicked closeOfClosed) else mret (Returned ctxerr)
  | CaseIdleDone err =>
      if idle_dead then mret NeverReady
      else
        match err with
        | Some _ =>
            debugf "idle end with error: %v" [AErr err];;
            reset "idle error" err;;
            timeSleep (2 * Second);;
            mret GotoReconnect
        | None =>
            debugf "idle end normal restart" [];;
            mret (GotoIdleStart baseline)
        end
  | CaseUpdate (MailboxUpdate (Some n)) =>
      if baseline <? n then
        debugf "MailboxUpdate messages=%d baseline=%d" [AInt n; AInt baseline];;
        if idle_dead && negb (ctx_done_on_entry (handle_env be)) then
          debugf "handleNewMessages newTotal=%d baseline=%d newCount=%d"
                 [AInt n; AInt baseline; AInt (wrapU32 (n - baseline))];;
          mret (Panicked closeOfClosed)
        else
          handleNewMessages (handle_env be) n baseline true ≫= λ r : bool * Z,
          if r.1 then drain_then (drain_env be) (mret (GotoIdleStart r.2))
          else
            mret (StaySelecting r.2
                    (idle_dead || negb (ctx_done_on_entry (handle_env be))))
      else mret (StaySelecting baseline idle_dead)
  | CaseUpdate (MessageUpdate (Some seqnum)) =>
      debugf "MessageUpdate seq=%d baseline=%d" [AInt seqnum; AInt baseline];;
      stop_idle be idle_dead "idle exit after message update"
        (requery be baseline "status after message update" false)
  | CaseUpdate _ => mret (StaySelecting baseline idle_dead)
  | CaseTick =>
      cl ← getClient;
      if tickerC (cfg cl) then
        debugf "poll tick baseline=%d" [AInt baseline];;
        stop_idle be idle_dead "idle exit on poll" (requery be baseline "status poll" true)
      else mret NeverReady
  end.

(** Where the main goroutine stands inside a session. *)
Inductive Loc :=
| AtIdleStart (baseline : Z)
| AtSelect (baseline : Z) (idle_dead : bool).

Definition baseline_at (l : Loc) : Z :=
  match l with AtIdleStart b => b | AtSelect b _ => b end.

(** What the outside supplies each time the loop consults it: [ctx.Err()] at
    the label [IDLE_START], or the case of the [select] that fires with what
    its branch meets. *)
Inductive Turn :=
| TurnIdleStart (ctx_err : option string)
| TurnSelect (sc : SelectCase) (be : BranchEnv).

(** How a run over the turns given ends. *)
Inductive SessionEnd :=
| Pending (l : Loc)              (* the turns ran out, the loop is still here *)
| Reconnect                      (* after the sleep at the label [RECONNECT] *)
| Continue                       (* [continue] of the outer loop, no sleep *)
| Return (ctxerr : string)
| Panic (what : string)
| Blocked                        (* the case named can never fire *)
| Mismatch                       (* a turn of the wrong kind *)
| OutOfFuel.

(** From the label [IDLE_START] or the [select] onwards. *)
Fixpoint idle_run (turns : list Turn) (l : Loc) : M SessionEnd :=
  match turns, l with
  | [], _ => mret (Pending l)
  | TurnIdleStart (Some e) :: _, AtIdleStart _ => mret (Return e)
  | TurnIdleStart None :: rest, AtIdleStart b =>
      debugf "enter IDLE baseline=%d" [AInt b];;
      idle_run rest (AtSelect b false)
  | TurnSelect sc be :: rest, AtSelect b dead =>
      nxt ← select_pass sc be b dead;
      match nxt with
      | StaySelecting b' dead' => idle_run rest (AtSelect b' dead')
      | GotoIdleStart b' => idle_run rest (AtIdleStart b')
      | GotoReconnect => timeSleep (2 * Second);; mret Reconnect
      | Returned e => mret (Return e)
      | Panicked what => mret (Panic what)
      | NeverReady => mret Blocked
      | DrainOutOfFuel => mret OutOfFuel
      end
  | _, _ => mret Mismatch
  end.

(** The session: [status()] right after [Connect], then the long-poll. *)
Definition IdleLoop_session (first_status : string + Z) (turns : list Turn)
  : M SessionEnd :=
  st ← status first_status;
  match st with
  | None => mret (Panic nilDereference)
  | Some (inl e) => reset "status err" (Some e);; mret Continue
  | Some (inr n) =>
      debugf "mailbox selected messages=%d" [AInt n];;
      idle_run turns (AtIdleStart n)
  end.

(** *** Vocabulary of the statements about the session *)

(** The events [emit_all] pushes: the messages whose send proceeds, in order. *)
Fixpoint delivered (sel : nat -> bool) (i : nat) (msgs : list Message) : list Event :=
  match msgs with
  | [] => []
  | msg :: rest =>
      (if sel i then [mkEvent (Uid msg)] else []) ++ delivered sel (S i) rest
  end.

(** The loop goes on with a baseline that is not below [b]. *)
Definition not_lower (b : Z) (nxt : Next) : Prop :=
  match nxt with
  | StaySelecting b' _ | GotoIdleStart b' => b <= b'
  | _ => True
  end.

Definition not_reconnect (nxt : Next) : Prop := nxt ≠ GotoReconnect.

(** A pass does not lower the baseline, and goes to the reconnect only with
    the session reset and a 2 s sleep just done. *)
Definition pass_ok (b : Z) (r : Next * World) : Prop :=
  not_lower b r.1
  ∧ (r.1 = GotoReconnect ->
     c (client r.2) = None ∧ ∃ pre, slept r.2 = pre ++ [2 * Second]).

(** ** Sequences of operations *)

(** A sequence of serialized operations, in the order [cmdMu] admits them. *)
Fixpoint Exec_all (calls : list (ExecEnv * string * (Conn -> WireOp))) : M (list error) :=
  match calls with
  | [] => mret []
  | (env, op, fn) :: rest =>
      e ← Exec env op fn;
      es ← Exec_all rest;
      mret (e :: es)
  end.

(** The calls of a sequence made under the name [op], and those that failed. *)
Definition calls_of (op : string) (calls : list (ExecEnv * string * (Conn -> WireOp)))
  : list (ExecEnv * string * (Conn -> WireOp)) :=
  List.filter (λ k, String.eqb k.1.2 op) calls.

Definition failed (k : ExecEnv * string * (Conn -> WireOp)) : bool :=
  match raceError k.1.2 (race k.1.1) with Some _ => true | None => false end.

Definition failures_of (op : string) (calls : list (ExecEnv * string * (Conn -> WireOp)))
  : list (ExecEnv * string * (Conn -> WireOp)) :=
  List.filter failed (calls_of op calls).

(** What an entry of the statistics counts; an absent entry counts as zero. *)
Definition count_in (o : option OpStat) : Z := from_option Count 0 o.
Definition errors_in (o : option OpStat) : Z := from_option Errors 0 o.

(** *** Example sessions *)

(** The mailbox grew to 43, but the long-poll reports an error when stopped. *)
Definition idleBreaks : HandleEnv :=
  mkHandleEnv false (Some "EOF") (mkExecEnv (FnReturned None) (20 * Millisecond))
    [mkMessage 43 1234] (λ _, true).

(** A consumer that finishes one event before each reading of the counter. *)
Definition promptConsumer : DrainEnv :=
  mkDrainEnv (λ _, 1%nat) (λ _, None) (λ _, pollInterval).

Definition growthBranch : BranchEnv :=
  mkBranchEnv None (inr 43) grows42to43 promptConsumer.

Definition brokenBranch : BranchEnv :=
  mkBranchEnv None (inr 43) idleBreaks promptConsumer.

(** The long-poll starts, the server announces message 43, the event is
    pushed and consumed, and the long-poll starts again. *)
Definition growthSession : list Turn :=
  [TurnIdleStart None;
   TurnSelect (CaseUpdate (MailboxUpdate (Some 43))) growthBranch;
   TurnIdleStart None].

(** The long-poll starts and ends with an error. *)
Definition lostConnection : list Turn :=
  [TurnIdleStart None; TurnSelect (CaseIdleDone (Some "EOF")) growthBranch].

(** Two body fetches, the first timing out, and one range fetch. *)
Definition threeCalls : list (ExecEnv * string * (Conn -> WireOp)) :=
  [(timesOut, "fetch", fetchBody);
   (mkExecEnv (FnReturned None) (20 * Millisecond), "fetch", fetchBody);
   (mkExecEnv (FnReturned None) (20 * Millisecond), "fetch-uids",
    λ h, OpFetchUid h 43 43)].

End imapclient.

(** ** Package webhook *)

Module webhook.
Import config.

(** A value of Go's [any] inside a block: scalars as they are, anything
    nested as its JSON text. *)
Inductive Any :=
| AnyString (s : string)
| AnyNumber (z : Z)
| AnyBool (b : bool)
| AnyJSON (text : string).

(** [map[string]any], one structured block. *)
Definition Block : Type := list (string * Any).

(** [type Payload struct] *)
Record Payload := mkPayload {
  UID : Z;
  Subject : string;
  From : string;
  Date : string;
  Body : string;
  BodyLines : list string;
  Preview : string;
  WordCount : Z;
  Mailbox : string;
  Timestamp : Z;
  RawHTML : string;
  Blocks : list Block;
  HasAttachments : bool;
  Attachments : list string;
  AttachmentCount : Z
}.

(** The zero value [Payload{}]. *)
Definition zeroPayload : Payload :=
  mkPayload 0 "" "" "" "" [] "" 0 "" 0 "" [] false [] 0.

Definition newline : Ascii.ascii := Ascii.ascii_of_nat 10.
Definition space : Ascii.ascii := Ascii.ascii_of_nat 32.

(** [strings.Split(s, "\n")] *)
Fixpoint splitLines (s : string) : list string :=
  match s with
  | EmptyString => [EmptyString]
  | String ch rest =>
      if Ascii.eqb ch newline then EmptyString :: splitLines rest
      else match splitLines rest with
           | hd :: tl => String ch hd :: tl
           | [] => [String ch EmptyString]
           end
  end.

(** [strings.ReplaceAll(s, "\n", " ")] *)
Fixpoint newlinesToSpaces (s : string) : string :=
  match s with
  | EmptyString => EmptyString
  | String ch rest =>
      String (if Ascii.eqb ch newline then space else ch) (newlinesToSpaces rest)
  end.

(** [strings.Contains(s, sub)] *)
Fixpoint Contains (s sub : string) : bool :=
  String.prefix sub s ||
  match s with
  | EmptyString => false
  | String _ rest => Contains rest sub
  end.

(** [len(s)], in bytes. *)
Definition len (s : string) : Z := Z.of_nat (String.length s).

(** [s[:n]] for [0 <= n <= len(s)]. *)
Definition take_bytes (n : Z) (s : string) : string :=
  String.substring 0 (Z.to_nat n) s.

Definition isASCIIWord (r : Z) : bool :=
  (r <? 128) &&
  (utf8.between 97 122 r || utf8.between 65 90 r || utf8.between 48 57 r || (r =? 95)).

Definition isCJK (r : Z) : bool := utf8.between 0x4E00 0x9FFF r.

(** The loop of [mixedWordCount] over the runes of the string; [current] is
    the content of the builder, [count] the words counted so far. *)
Fixpoint countWords (rs : list Z) (current : list Z) (count : Z) : Z :=
  let flushed := match current with [] => count | _ => wrapInt (count + 1) end in
  match rs with
  | [] => flushed
  | r :: rest =>
      if isASCIIWord r then countWords rest (current ++ [r]) count
      else if isCJK r then countWords rest [] (wrapInt (flushed + 1))
      else countWords rest [] flushed
  end.

(** [func mixedWordCount(s string) int] *)
Definition mixedWordCount (s : string) : Z := countWords (utf8.runes s) [] 0.

Section BuildPayload.

(** [strings.TrimSpace] and [strings.ToLower] of the Go standard library
    (Unicode white space and case tables). *)
Variable TrimSpace : string -> string.
Variable ToLower : string -> string.

(** A line the preview skips: probably style or template noise. *)
Definition noise (ln : string) : bool :=
  let low := ToLower ln in
  String.prefix "@media" low || String.prefix "table " low ||
  Contains low "font-family" || Contains low "{".

(** The first loop of [BuildPayload]: the first trimmed, non-empty line that
    is not noise, or [""]. *)
Fixpoint firstSemantic (lines : list string) : string :=
  match lines with
  | [] => ""
  | ln :: rest =>
      let ln := TrimSpace ln in
      if String.eqb ln "" then firstSemantic rest
      else if noise ln then firstSemantic rest
      else ln
  end.

(** The second loop: the trimmed lines that are not empty. *)
Fixpoint cleanLines (lines : list string) : list string :=
  match lines with
  | [] => []
  | ln :: rest =>
      let ln := TrimSpace ln in
      if String.eqb ln "" then cleanLines rest else ln :: cleanLines rest
  end.

(** The preview source when no line qualifies. *)
Definition fallbackPreview (out : Payload) : string :=
  let trimmedBody := TrimSpace (newlinesToSpaces (Body out)) in
  if String.eqb trimmedBody "" && HasAttachments out
     && (0 <? Z.of_nat (length (Attachments out))) then
    let maxList := take 5 (Attachments out) in
    let listed := "Attachments: " +:+ String.concat ", " maxList in
    if (length maxList <? length (Attachments out))%nat
    then listed +:+ " (+" +:+
         pretty (Z.of_nat (length (Attachments out)) - Z.of_nat (length maxList)) +:+
         " more)"
    else listed
  else trimmedBody.

(** [func BuildPayload(msg *Payload, bodyLimit int) Payload]; [unixNow] is
    [time.Now().Unix()]. *)
Definition BuildPayload (unixNow : Z) (msg : option Payload) (bodyLimit : Z) : Payload :=
  match msg with
  | None => zeroPayload
  | Some out =>
      let first := firstSemantic (splitLines (Body out)) in
      let semanticFirst :=
        if String.eqb first "" then fallbackPreview out else first in
      let previewLimit := 140 in
      let preview :=
        if previewLimit <? len semanticFirst
        then take_bytes previewLimit semanticFirst +:+ "..."
        else semanticFirst in
      let body :=
        if (0 <? bodyLimit) && (bodyLimit <? len (Body out))
        then take_bytes bodyLimit (Body out) +:+ "...<truncated>"
        else Body out in
      mkPayload (UID out) (Subject out) (From out) (Date out)
        body
        (cleanLines (splitLines body))
        preview
        (if String.eqb body "" then WordCount out else mixedWordCount body)
        (Mailbox out)
        (if Timestamp out =? 0 then unixNow else Timestamp out)
        (RawHTML out) (Blocks out) (HasAttachments out) (Attachments out)
        (AttachmentCount out)
  end.

End BuildPayload.

(** *** SendWithRetry *)

(** What [s.hc.Do(req)] gives on one attempt: a response with its status
    code ([err == nil]), or an error, with or without a response whose body
    is there to close. *)
Inductive Response :=
| Answered (status : Z)
| TransportError (with_body : bool).

(** [err == nil && resp.StatusCode >= 200 && resp.StatusCode < 300] *)
Definition accepted (r : Response) : bool :=
  match r with
  | Answered status => (200 <=? status) && (status <? 300)
  | TransportError _ => false
  end.

(** [resp != nil && resp.Body != nil] *)
Definition has_body (r : Response) : bool :=
  match r with
  | Answered _ => true
  | TransportError with_body => with_body
  end.

(** [http.Header]: the values of each key, in the order added. *)
Abbreviation Header := (gmap string (list string)).

(** What [SendWithRetry] does to the outside, in order. *)
Inductive SendEffect :=
| EffPost (url : string) (headers : Header) (p : Payload)
    (* [s.hc.Do(req)]: the marshalled payload, posted as application/json
       with the values of [headers] added *)
| EffCloseBody                            (* [resp.Body.Close()] *)
| EffSleep (d : Z).

Definition failedAfterRetries : string := "webhook send failed after retries".

Definition semicolon : Ascii.ascii := Ascii.ascii_of_nat 59.
Definition equals_sign : Ascii.ascii := Ascii.ascii_of_nat 61.

(** [strings.Split(s, sep)] for a separator of one byte. *)
Fixpoint splitOn (sep : Ascii.ascii) (s : string) : list string :=
  match s with
  | EmptyString => [EmptyString]
  | String ch rest =>
      if Ascii.eqb ch sep then EmptyString :: splitOn sep rest
      else match splitOn sep rest with
           | hd :: tl => String ch hd :: tl
           | [] => [String ch EmptyString]
           end
  end.

(** [strings.SplitN(s, sep, 2)] for a separator of one byte: [None] when
    there is one piece only, else the text before and after the first
    separator. *)
Fixpoint cutAt (sep : Ascii.ascii) (s : string) : option (string * string) :=
  match s with
  | EmptyString => None
  | String ch rest =>
      if Ascii.eqb ch sep then Some (EmptyString, rest)
      else match cutAt sep rest with
           | Some (before, after) => Some (String ch before, after)
           | None => None
           end
  end.

Section Sender.

(** [strings.TrimSpace] and [textproto.CanonicalMIMEHeaderKey] of the Go
    standard library. *)
Variable TrimSpace : string -> string.
Variable CanonicalMIMEHeaderKey : string -> string.

(** [func (h Header) Add(key, value string)] *)
Definition Header_Add (key value : string) (h : Header) : Header :=
  let key := CanonicalMIMEHeaderKey key in
  <[key := default [] (h !! key) ++ [value]]> h.

(** The loop of [parseHeaders] over the pairs. *)
Fixpoint addPairs (pairs : list string) (h : Header) : Header :=
  match pairs with
  | [] => h
  | p :: rest =>
      let p := TrimSpace p in
      if String.eqb p "" then addPairs rest h
      else
        match cutAt equals_sign p with
        | None => addPairs rest h
        | Some (k, v) => addPairs rest (Header_Add (TrimSpace k) (TrimSpace v) h)
        end
  end.

(** [func (s *Sender) parseHeaders(raw string) http.Header] *)
Definition parseHeaders (raw : string) : Header :=
  if String.eqb raw "" then ∅ else addPairs (splitOn semicolon raw) ∅.

(** [for attempt := 0; attempt <= s.cfg.RetryMax; attempt++]; [respond] is
    the outcome of the request of each attempt. [None] when [fuel]
    iterations did not leave the loop. *)
Fixpoint sendLoop (fuel : nat) (cf : Config) (respond : Z -> Response) (headers : Header)
    (p : Payload) (attempt backoff : Z) : option error * list SendEffect :=
  match fuel with
  | O => (None, [])
  | S fuel' =>
      if attempt <=? RetryMax cf then
        let post := EffPost (WebhookURL cf) headers p in
        if accepted (respond attempt) then (Some None, [post])
        else
          let close := if has_body (respond attempt) then [EffCloseBody] else [] in
          if attempt =? RetryMax cf
          then (Some (Some failedAfterRetries), post :: close)
          else
            let '(r, effs) :=
              sendLoop fuel' cf respond headers p (wrapInt (attempt + 1))
                (wrapInt (backoff * 2)) in
            (r, post :: close ++ EffSleep backoff :: effs)
      else (Some (Some failedAfterRetries), [])
  end.

(** [func (s *Sender) SendWithRetry(p Payload) error], with the iterations
    the loop can need. *)
Definition SendWithRetry (cf : Config) (respond : Z -> Response) (p : Payload)
  : option error * list SendEffect :=
  sendLoop (S (Z.to_nat (RetryMax cf + 1))) cf respond (parseHeaders (WebhookHeader cf)) p
    0 (RetryBaseBackoff cf).

End Sender.

(** *** Vocabulary of the statements about the delivery *)

Definition is_post (e : SendEffect) : bool :=
  match e with EffPost _ _ _ => true | _ => false end.

(** How many requests were made. *)
Definition posts (effs : list SendEffect) : nat := length (List.filter is_post effs).

(** The sleeps, in order. *)
Definition sleeps (effs : list SendEffect) : list Z :=
  flat_map (λ e, match e with EffSleep d => [d] | _ => [] end) effs.

(** The bytes of a string. *)
Definition chars (s : string) : list Ascii.ascii := String.list_ascii_of_string s.

(** The value [v] under the key [key] comes from the pair [seg]: trimmed, it
    is cut at its first '=' into the key and the value, both trimmed again. *)
Definition from_pair (TrimSpace CanonicalMIMEHeaderKey : string -> string)
    (seg key v : string) : Prop :=
  ∃ k val, cutAt equals_sign (TrimSpace seg) = Some (k, val)
           ∧ key = CanonicalMIMEHeaderKey (TrimSpace k)
           ∧ v = TrimSpace val.

(** The backoff after [i] doublings of [base]. *)
Definition backoffAt (base : Z) (i : nat) : Z := Nat.iter i (λ b, wrapInt (b * 2)) base.

(** *** Example deliveries *)

(** A receiver that is down for two requests and then accepts. *)
Definition flakyReceiver (attempt : Z) : Response :=
  if attempt <? 2 then Answered 503 else Answered 200.

(** A receiver that cannot be reached. *)
Definition deadReceiver (attempt : Z) : Response := TransportError false.

(** A payload as the consumer builds it. *)
Definition samplePayload : Payload :=
  mkPayload 1234 "Invoice" "billing@example.com" "Mon, 28 Sep 2025 12:00:00 +0800"
    "hello brave new world" [] "" 0 "INBOX" 1727500000 "" [] false [] 0.

(** The configuration of the examples, with five retries from 1 s. *)
Definition senderConfig : Config :=
  mkConfig "imap.example.com" 993 "user@example.com" "app-password" "INBOX"
    true false false (30 * Second) (3 * Second)
    "http://127.0.0.1:8080/mail" "X-Token=abc123;X-Env=prod" 204800 5 Second "simple"
    false false false false.

End webhook.

(** ** Package parser: the message handed over by the parsing collaborator *)

Module parser.

(** [type Message struct] *)
Record Message := mkMessage {
  UID : Z;
  Subject : string;
  From : string;
  Date : string;
  Body : string;
  RawHTML : string;
  Blocks : list webhook.Block;
  HasAttachments : bool;
  AttachmentNames : list string
}.

Import config.

(** *** The text helpers *)

Definition lt_sign : Ascii.ascii := Ascii.ascii_of_nat 60.
Definition gt_sign : Ascii.ascii := Ascii.ascii_of_nat 62.

(** The loop of [htmlStripTags] (and of [htmlToText]) from a position on,
    [inTag] as the loop has it there. *)
Fixpoint stripFrom (inTag : bool) (s : string) : string :=
  match s with
  | EmptyString => EmptyString
  | String ch rest =>
      if Ascii.eqb ch lt_sign then stripFrom true rest
      else if Ascii.eqb ch gt_sign then stripFrom false rest
      else if negb inTag then String ch (stripFrom inTag rest)
      else stripFrom inTag rest
  end.

(** [func htmlStripTags(s string) string] *)
Definition htmlStripTags (s : string) : string := stripFrom false s.

(** [func limitText(s string) string] *)
Definition limitText (s : string) : string :=
  if 20000 <? webhook.len s
  then webhook.take_bytes 20000 s +:+ "...<truncated>"
  else s.

(** *** extractBody *)

(** One part as the multipart reader yields it: its [Content-Type] and
    [Content-Transfer-Encoding] headers and what [io.ReadAll] reads. *)
Record Part := mkPart {
  part_ct : string;
  part_cte : string;
  part_data : string
}.

(** The message as [extractBody] meets it: what [mime.ParseMediaType] makes
    of the [Content-Type] header (an error, or the media type), the
    [Content-Transfer-Encoding] header, the bytes of the body, and for a
    multipart body the parts [NextPart] yields before it reports [io.EOF]
    ([None]) or an error. *)
Record Mail := mkMail {
  mediaType : option string;
  mail_cte : string;
  mail_data : string;
  mail_parts : list Part;
  parts_error : error
}.

Section extractBody.

(** [decodeTransferIfNeeded], [removeStyleTags] and [htmlToText] of this
    package, which rest on the base64 and quoted-printable decoders and on
    regular expressions. *)
Variable decodeTransferIfNeeded : string -> string -> string.
Variable removeStyleTags : string -> string.
Variable htmlToText : string -> string -> string.

(** The loop over the parts, with [plain] and [html] as found so far; the
    error of [NextPart], or [(plain, html)] when the loop is left. *)
Fixpoint readParts (mode : string) (parts : list Part) (last : error)
    (plain html : string) : string + (string * string) :=
  match parts with
  | [] =>
      match last with
      | Some err => inl err
      | None => inr (plain, html)
      end
  | p :: rest =>
      let plain :=
        if String.prefix "text/plain" (part_ct p) && String.eqb plain ""
        then decodeTransferIfNeeded (part_data p) (part_cte p)
        else plain in
      let html :=
        if String.prefix "text/html" (part_ct p) && String.eqb html ""
        then htmlToText (removeStyleTags (decodeTransferIfNeeded (part_data p) (part_cte p)))
               mode
        else html in
      if negb (String.eqb plain "") && negb (String.eqb html "")
      then inr (plain, html)
      else readParts mode rest last plain html
  end.

(** [func extractBody(m *mail.Message, cfg *config.Config) (string, string, error)]:
    the text, the second result [parseRaw] takes as the raw HTML, and the
    error. *)
Definition extractBody (m : Mail) (cfg : Config) : string * string * error :=
  match mediaType m with
  | None =>
      (limitText (decodeTransferIfNeeded (mail_data m) (mail_cte m)), "", None)
  | Some mt =>
      if String.prefix "multipart/" mt then
        match readParts (HTMLToTextMode cfg) (mail_parts m) (parts_error m) "" "" with
        | inl err => ("", "", Some err)
        | inr (plain, html) =>
            if negb (String.eqb plain "") then (limitText plain, html, None)
            else if negb (String.eqb html "") then (limitText html, html, None)
            else ("", html, None)
        end
      else
        let b := decodeTransferIfNeeded (mail_data m) (mail_cte m) in
        if String.prefix "text/html" mt then
          (limitText (htmlToText (removeStyleTags b) (HTMLToTextMode cfg)), b, None)
        else (limitText b, "", None)
  end.

End extractBody.

(** *** The attachments of parseRaw *)

(** [imap.BodyStructure], as far as the walk reads it. *)
#[local] Unset Elimination Schemes.
Inductive BodyStructure :=
| mkBodyStructure (Parts : list BodyStructure) (Disposition MIMEType : string)
    (Params DispositionParams : gmap string string).
#[local] Set Elimination Schemes.

Definition Parts (bs : BodyStructure) : list BodyStructure :=
  match bs with mkBodyStructure parts _ _ _ _ => parts end.
Definition Disposition (bs : BodyStructure) : string :=
  match bs with mkBodyStructure _ d _ _ _ => d end.
Definition MIMEType (bs : BodyStructure) : string :=
  match bs with mkBodyStructure _ _ m _ _ => m end.
Definition Params (bs : BodyStructure) : gmap string string :=
  match bs with mkBodyStructure _ _ _ p _ => p end.
Definition DispositionParams (bs : BodyStructure) : gmap string string :=
  match bs with mkBodyStructure _ _ _ _ dp => dp end.

Section attachments.

(** [strings.ToLower], [strings.EqualFold], [strings.TrimSpace] of the Go
    standard library, and [decodeHeader] of this package, which rests on
    [mime.WordDecoder]. *)
Variable ToLower : string -> string.
Variable EqualFold : string -> string -> bool.
Variable TrimSpace : string -> string.
Variable decodeHeader : string -> string.

(** [func firstNonEmpty(vals ...string) string] *)
Fixpoint firstNonEmpty (vals : list string) : string :=
  match vals with
  | [] => ""
  | v :: rest => if negb (String.eqb (TrimSpace v) "") then v else firstNonEmpty rest
  end.

(** [seen] and [ordered] of [parseRaw]. *)
Definition Walk : Type := gset string * list string.

(** The body of [walk] for a leaf part. *)
Definition leaf (cfg : Config) (bs : BodyStructure) (st : Walk) : Walk :=
  let disp := ToLower (Disposition bs) in
  if String.eqb disp "attachment" || String.eqb disp "inline" then
    if SkipInlineImages cfg && String.eqb disp "inline" && EqualFold (MIMEType bs) "image"
    then st
    else
      let filename :=
        firstNonEmpty [default "" (Params bs !! "name");
                       default "" (Params bs !! "filename");
                       default "" (DispositionParams bs !! "filename");
                       default "" (DispositionParams bs !! "name")] in
      if String.eqb filename "" then st
      else
        let decodedName := decodeHeader filename in
        let candidate := TrimSpace decodedName in
        let candidate := if String.eqb candidate "" then filename else candidate in
        if decide (candidate ∈ st.1) then st
        else ({[candidate]} ∪ st.1, st.2 ++ [candidate])
  else st.

(** [walk = func(bs *imap.BodyStructure)] *)
Fixpoint walk (cfg : Config) (bs : BodyStructure) (st : Walk) : Walk :=
  match bs with
  | mkBodyStructure [] _ _ _ _ => leaf cfg bs st
  | mkBodyStructure parts _ _ _ _ => fold_left (λ st p, walk cfg p st) parts st
  end.

(** What [parseRaw] puts into [HasAttachments] and [AttachmentNames]. *)
Definition attachments (cfg : Config) (structure : option BodyStructure)
  : bool * list string :=
  match structure with
  | None => (false, [])
  | Some bs =>
      let ordered := (walk cfg bs (∅, [])).2 in
      if (0 <? Z.of_nat (length ordered)) then (true, ordered) else (false, [])
  end.

End attachments.

(** *** Vocabulary of the statements about the parser *)

(** The bytes of a string. *)
Definition chars (s : string) : list Ascii.ascii := String.list_ascii_of_string s.

(** The walk keeps [seen] and [ordered] in step. *)
Definition in_step (st : Walk) : Prop :=
  NoDup st.2 ∧ Forall (λ name, name ≠ "") st.2 ∧ ∀ name, name ∈ st.1 ↔ name ∈ st.2.

(** *** Example messages *)

(** A multipart message with an HTML part only. *)
Definition htmlOnlyMail : Mail :=
  mkMail (Some "multipart/alternative") "" ""
    [mkPart "text/html; charset=utf-8" "" "<p>Hello <b>World</b></p>"] None.

(** A plain message. *)
Definition plainMail : Mail :=
  mkMail (Some "text/plain") "" "Please find the invoice attached." [] None.

End parser.

(** ** Command monitor: the consumer goroutine of [main] *)

Module monitor.
Import config.

(** The alternatives of
    [regexp.MustCompile(`(?i)(short write|timeout|temporarily|reset|closed)`)]. *)
Definition transientWords : list string :=
  ["short write"; "timeout"; "temporarily"; "reset"; "closed"].

(** The runes a literal rune of a [(?i)] pattern accepts: its orbit under
    [unicode.SimpleFold]. For an ASCII letter that is the letter in both
    cases, plus U+017F (long s) for s and U+212A (Kelvin sign) for k; any
    other ASCII rune only accepts itself. *)
Definition foldOrbit (p : Z) : list Z :=
  if utf8.between 97 122 p then
    p :: (p - 32) :: (if p =? 115 then [0x17F] else if p =? 107 then [0x212A] else [])
  else if utf8.between 65 90 p then
    p :: (p + 32) :: (if p =? 83 then [0x17F] else if p =? 75 then [0x212A] else [])
  else [p].

Definition matchRune (p r : Z) : bool := existsb (Z.eqb r) (foldOrbit p).

(** The literal [pat] matches a prefix of [text]. *)
Fixpoint matchesAt (pat text : list Z) : bool :=
  match pat, text with
  | [], _ => true
  | p :: pat', r :: text' => matchRune p r && matchesAt pat' text'
  | _ :: _, [] => false
  end.

(** An unanchored match: some alternative matches at some position. *)
Fixpoint matchAnywhere (pats : list (list Z)) (text : list Z) : bool :=
  existsb (λ pat, matchesAt pat text) pats ||
  match text with
  | [] => false
  | _ :: text' => matchAnywhere pats text'
  end.

(** [transientRe.MatchString(s)] *)
Definition transientRe_MatchString (s : string) : bool :=
  matchAnywhere (map utf8.runes transientWords) (utf8.runes s).

(** [text] contains [word] up to case: a window of [text] whose runes are
    case variants of the runes of [word], one for one. *)
Definition contains_fold (word text : list Z) : Prop :=
  ∃ pre w post, text = pre ++ w ++ post ∧ Forall2 (λ p r, r ∈ foldOrbit p) word w.

(** The result of one [parser.FetchAndParse] call. *)
Inductive FetchResult :=
| Parsed (m : parser.Message)
| Failed (e : string).

(** What the consumer goroutine does, in order. *)
Inductive Effect :=
| EffFetchAndParse (uid : Z)
| EffLog (format : string) (args : list imapclient.Arg)
| EffSleep (d : Z)
| EffSendWithRetry (p : webhook.Payload)
| EffEndProcess
| EffNilDereference.

(** The outside of one event: the result of the i-th fetch attempt, of the
    delivery, and the wall clock in Unix seconds. *)
Record ConsumerEnv := mkConsumerEnv {
  fetch_result : nat -> FetchResult;
  send_result : error;
  unixNow : Z
}.

Definition maxFetchRetry : Z := 2.

(** [func truncate(s string, n int) string] *)
Definition truncate (s : string) (n : Z) : string :=
  if webhook.len s <=? n then s else webhook.take_bytes n s +:+ "...".

(** The retry loop [for attempt := 0; attempt <= maxFetchRetry; attempt++],
    with [turns] iterations left; the result is [(msg, perr)] when the loop
    is left, with the effects in order. *)
Fixpoint fetchLoop (debug : bool) (uid : Z) (fetch : nat -> FetchResult)
    (turns attempt : nat) (last : option parser.Message * error)
  : (option parser.Message * error) * list Effect :=
  match turns with
  | O => (last, [])
  | S turns' =>
      match fetch attempt with
      | Parsed m => ((Some m, None), [EffFetchAndParse uid])
      | Failed e =>
          if negb (transientRe_MatchString e)
          then ((None, Some e), [EffFetchAndParse uid])
          else
            let '(r, effs) :=
              fetchLoop debug uid fetch turns' (S attempt) (None, Some e) in
            (r, EffFetchAndParse uid ::
                (if debug
                 then [EffLog "fetch transient error uid=%d attempt=%d err=%v"
                         [imapclient.AInt uid; imapclient.AInt (Z.of_nat attempt);
                          imapclient.AErr (Some e)]]
                 else []) ++
                EffSleep (150 * Millisecond) :: effs)
      end
  end.

(** The fetch attempts of one event. *)
Definition fetchWithRetry (debug : bool) (uid : Z) (fetch : nat -> FetchResult)
  : (option parser.Message * error) * list Effect :=
  fetchLoop debug uid fetch (Z.to_nat (maxFetchRetry + 1)) 0 (None, None).

Definition is_fetch (e : Effect) : bool :=
  match e with EffFetchAndParse _ => true | _ => false end.

(** How many times [parser.FetchAndParse] was called. *)
Definition attempts (effs : list Effect) : nat := length (List.filter is_fetch effs).

Section Consumer.

Variable TrimSpace : string -> string.
Variable ToLower : string -> string.

(** The payload [main] assembles from a parsed message. *)
Definition basePayload (cf : Config) (unix : Z) (msg : parser.Message) : webhook.Payload :=
  webhook.mkPayload (parser.UID msg) (parser.Subject msg) (parser.From msg)
    (parser.Date msg) (parser.Body msg) [] "" 0 (Mailbox cf) unix
    (if IncludeRawHTML cf && negb (String.eqb (parser.RawHTML msg) "")
     then parser.RawHTML msg else "")
    (if EnableBlocks cf && (0 <? Z.of_nat (length (parser.Blocks msg)))
     then parser.Blocks msg else [])
    (parser.HasAttachments msg)
    (if parser.HasAttachments msg then parser.AttachmentNames msg else [])
    0.

(** The body of [for ev := range events] for one event. *)
Definition handleEvent (cf : Config) (env : ConsumerEnv) (ev : imapclient.Event)
    (cl : imapclient.Client) : imapclient.Client * list Effect :=
  let uid := imapclient.UID ev in
  let '((msg, perr), effs) := fetchWithRetry (Debug cf) uid (fetch_result env) in
  match perr, msg with
  | Some _, _ =>
      (imapclient.EndProcess cl,
       effs ++ [EffLog "解析邮件失败 UID=%d: %v" [imapclient.AInt uid; imapclient.AErr perr];
                EffEndProcess])
  | None, None => (cl, effs ++ [EffNilDereference])
  | None, Some m =>
      let payload :=
        webhook.BuildPayload TrimSpace ToLower (unixNow env)
          (Some (basePayload cf (unixNow env) m)) (FetchBodySize cf) in
      (imapclient.EndProcess cl,
       effs ++
       [EffSendWithRetry payload;
        match send_result env with
        | Some _ =>
            EffLog "Webhook 发送失败 UID=%d: %v"
              [imapclient.AInt uid; imapclient.AErr (send_result env)]
        | None =>
            EffLog "Webhook 已发送 UID=%d 主题=%s"
              [imapclient.AInt uid; imapclient.AStr (truncate (parser.Subject m) 60)]
        end;
        EffEndProcess])
  end.

End Consumer.

(** *** Vocabulary of the statements *)

(** A fetch attempt that failed with a transient error. *)
Definition transient (r : FetchResult) : bool :=
  match r with
  | Failed e => transientRe_MatchString e
  | Parsed _ => false
  end.

(** The [(msg, perr)] a fetch attempt leaves. *)
Definition outcome (r : FetchResult) : option parser.Message * error :=
  match r with
  | Parsed m => (Some m, None)
  | Failed e => (None, Some e)
  end.

(** A connection reset on the first attempt, then the message is gone. *)
Definition resetThenGone : ConsumerEnv :=
  mkConsumerEnv
    (λ i, match i with
          | O => Failed "read tcp 10.0.0.2:993: connection reset by peer"
          | _ => Failed "message not found"
          end)
    None 1727500000.

(** Every attempt runs into the command timeout. *)
Definition alwaysTimesOut : ConsumerEnv :=
  mkConsumerEnv (λ _, Failed "op fetch timeout or canceled: context deadline exceeded")
    None 1727500000.

(** *** The consumer over the real [Exec] *)

(** [parser.FetchAndParse(cl.Exec, cfg, uid)] as the consumer sees it: the
    error of [Exec] (its own, or the one the callback returned), else the
    message [parsed] the callback stored before it returned nil. *)
Definition FetchAndParse (env : imapclient.ExecEnv) (parsed : parser.Message) (uid : Z)
  : imapclient.M FetchResult :=
  imapclient.Exec env "fetch" (λ h, imapclient.OpFetchUid h uid uid) ≫= λ e : error,
  mret (match e with Some s => Failed s | None => Parsed parsed end).

(** *** More vocabulary *)

(** The [time.Sleep] calls of the consumer, in order. *)
Definition slept_for (effs : list Effect) : list Z :=
  flat_map (λ e, match e with EffSleep d => [d] | _ => [] end) effs.

(** The payloads handed to [SendWithRetry], in order. *)
Definition deliveries (effs : list Effect) : list webhook.Payload :=
  flat_map (λ e, match e with EffSendWithRetry p => [p] | _ => [] end) effs.

(** How many times [cl.EndProcess()] was called. *)
Definition releases (effs : list Effect) : nat :=
  length (List.filter (λ e, match e with EffEndProcess => true | _ => false end) effs).

(** An effect of the fetch loop: a fetch, a log line or a sleep. *)
Definition fetching (e : Effect) : bool :=
  match e with
  | EffFetchAndParse _ | EffLog _ _ | EffSleep _ => true
  | _ => false
  end.

(** *** Examples over the real [Exec] *)

Definition plainMessage : parser.Message :=
  parser.mkMessage 1234 "Invoice" "billing@example.com"
    "Mon, 28 Sep 2025 12:00:00 +0800" "Please find the invoice attached." "" [] false [].

(** The event is consumed while the engine has no session. *)
Definition duringReconnect : ConsumerEnv :=
  mkConsumerEnv
    (λ _, (FetchAndParse imapclient.timesOut plainMessage 1234
             (imapclient.world_of (imapclient.New imapclient.exampleConfig) 0)).1)
    None 1727500000.

(** Every fetch of the event runs into the 15 s timeout of [Exec]. *)
Definition serverHangs : ConsumerEnv :=
  mkConsumerEnv
    (λ _, (FetchAndParse imapclient.timesOut plainMessage 1234 imapclient.liveWorld).1)
    None 1727500000.

(** The fetch succeeds at once. *)
Definition arrives : ConsumerEnv :=
  mkConsumerEnv (λ _, Parsed plainMessage) None 1727500000.

End monitor.

(** * Properties *)

(** ** Machine integers *)

Lemma wrapInt_id (z : Z) : minInt <= z <= maxInt -> wrapInt z = z.
Proof.
  unfold wrapInt, minInt, maxInt. intros Hz.
  rewrite Z.mod_small; lia.
Qed.

Lemma wrapU32_id (z : Z) : 0 <= z < 2 ^ 32 -> wrapU32 z = z.
Proof. intros Hz. unfold wrapU32. rewrite Z.mod_small; lia. Qed.

Module imapclient_proofs.
Import config imapclient.

(** Unfold the monadic primitives, then split on every test met. *)
Ltac run_M :=
  unfold debugf, getClient, modifyClient, timeNow, elapse, send, logPrintf,
    timeSleep, push;
  unfold mbind, mret, M_bind, M_ret; cbn beta iota zeta;
  cbn [fst snd client now wire logs slept emitted].

Ltac simp_M :=
  cbn beta iota zeta; cbn [fst snd client now wire logs slept emitted].

Ltac split_M :=
  repeat (cbn [fst snd client now wire logs slept emitted];
          case_match; simplify_eq/=).

Ltac case_eqb0 :=
  match goal with |- context [Z.eqb ?a 0] => destruct (Z.eqb_spec a 0) end.

Ltac case_debug :=
  match goal with |- context [Debug ?cf] => destruct (Debug cf) end.

Ltac split_plan :=
  repeat match goal with
  | H : _ :: _ = ?pre ++ _ :: _ |- _ => destruct pre; simplify_eq/=
  | H : [] = ?pre ++ _ :: _ |- _ => destruct pre; simplify_eq/=
  end.

Ltac split_Forall :=
  repeat match goal with
  | H : Forall _ (_ :: _) |- _ => apply Forall_cons in H; destruct H as [? H]
  end.

(** ** The drain counter *)

Lemma activeFetches_BeginProcess (cl : Client) :
  0 <= activeFetches cl < maxInt ->
  activeFetches (BeginProcess cl) = activeFetches cl + 1.
Proof.
  intros H. unfold BeginProcess. simpl.
  apply wrapInt_id. unfold minInt, maxInt in *. lia.
Qed.

Lemma activeFetches_EndProcess (cl : Client) :
  0 <= activeFetches cl <= maxInt ->
  activeFetches (EndProcess cl) = Z.max 0 (activeFetches cl - 1).
Proof.
  intros H. unfold EndProcess.
  destruct (Z.ltb_spec 0 (activeFetches cl)) as [Hpos | Hzero]; simpl.
  - rewrite wrapInt_id; unfold minInt, maxInt in *; lia.
  - lia.
Qed.

(** One call moves the counter by at most one and keeps it non-negative. *)
Lemma do_call_bounds (k : Call) (cl : Client) (hi : Z) :
  0 <= activeFetches cl <= hi -> hi < maxInt ->
  0 <= activeFetches (do_call k cl) <= hi + 1.
Proof.
  intros Hcl Hhi. destruct k; cbn [do_call].
  - rewrite activeFetches_BeginProcess; lia.
  - rewrite activeFetches_EndProcess; lia.
Qed.

Lemma run_calls_bounds (tr : list Call) : ∀ (cl : Client) (hi : Z),
  0 <= activeFetches cl <= hi -> hi + Z.of_nat (length tr) <= maxInt ->
  0 <= activeFetches (run_calls tr cl) <= hi + Z.of_nat (length tr).
Proof.
  induction tr as [| k tr IH]; intros cl hi Hcl Hhi.
  - simpl. lia.
  - change (run_calls (k :: tr) cl) with (run_calls tr (do_call k cl)).
    rewrite length_cons, Nat2Z.inj_succ in *.
    pose proof (do_call_bounds k cl hi Hcl ltac:(lia)) as Hstep.
    specialize (IH (do_call k cl) (hi + 1) Hstep ltac:(lia)). lia.
Qed.

(** With every [CallEnd] answering an earlier [CallBegin], the counter is
    exactly the number of [CallBegin]s still open. *)
Lemma run_calls_paired (tr : list Call) : ∀ (cl : Client) (open : nat),
  activeFetches cl = Z.of_nat open ->
  Z.of_nat open + Z.of_nat (length tr) <= maxInt ->
  paired_from open tr = true ->
  activeFetches (run_calls tr cl)
  = Z.of_nat open + Z.of_nat (begins tr) - Z.of_nat (ends tr).
Proof.
  induction tr as [| k tr IH]; intros cl open Hcl Hlen Hp.
  - unfold begins, ends. simpl. lia.
  - rewrite length_cons, Nat2Z.inj_succ in Hlen. destruct k; simpl in Hp.
    + change (run_calls (CallBegin :: tr) cl) with (run_calls tr (BeginProcess cl)).
      rewrite (IH (BeginProcess cl) (S open)); try assumption; try lia.
      * unfold begins, ends. simpl. lia.
      * rewrite activeFetches_BeginProcess; lia.
    + destruct open as [| o]; [discriminate |].
      change (run_calls (CallEnd :: tr) cl) with (run_calls tr (EndProcess cl)).
      rewrite (IH (EndProcess cl) o); try assumption; try lia.
      * unfold begins, ends. simpl. lia.
      * rewrite activeFetches_EndProcess; lia.
Qed.

(** C4 (as amended). The counter starts at 0; [BeginProcess] raises it by
    one; [EndProcess] lowers it by one, but not below zero. So it is never
    negative, whatever the calls and their order (within the range of a Go
    [int]); in particular more [EndProcess] than [BeginProcess] calls leave
    it at or above zero, and [EndProcess] on a zero counter leaves it zero.
    With every [EndProcess] answering an earlier [BeginProcess] the counter
    is the number of [BeginProcess] calls not yet answered, so after N
    [BeginProcess] and N such [EndProcess] calls it is 0 again. *)
Theorem activeFetches_floor_and_balance (cf : Config) (tr : list Call) :
  Z.of_nat (length tr) <= maxInt ->
  activeFetches (New cf) = 0 ∧
  (∀ cl, 0 <= activeFetches cl < maxInt ->
     activeFetches (BeginProcess cl) = activeFetches cl + 1) ∧
  (∀ cl, 0 < activeFetches cl <= maxInt ->
     activeFetches (EndProcess cl) = activeFetches cl - 1) ∧
  (∀ cl, activeFetches cl <= 0 -> EndProcess cl = cl) ∧
  (∀ cl, run_calls (CallBegin :: tr) cl = run_calls tr (BeginProcess cl)
         ∧ run_calls (CallEnd :: tr) cl = run_calls tr (EndProcess cl)) ∧
  0 <= activeFetches (run_calls tr (New cf)) ∧
  activeFetches (EndProcess (New cf)) = 0 ∧
  (paired tr = true ->
   activeFetches (run_calls tr (New cf)) = Z.of_nat (begins tr) - Z.of_nat (ends tr)) ∧
  (paired tr = true -> begins tr = ends tr ->
   activeFetches (run_calls tr (New cf)) = 0).
Proof.
  intros Hlen. split; [reflexivity |].
  split; [intros cl Hcl; apply activeFetches_BeginProcess; exact Hcl |].
  split.
  { intros cl Hcl. rewrite activeFetches_EndProcess by lia. lia. }
  split.
  { intros cl Hcl. unfold EndProcess.
    destruct (Z.ltb_spec 0 (activeFetches cl)); [lia | reflexivity]. }
  split; [intros cl; split; reflexivity |].
  split; [apply (run_calls_bounds tr (New cf) 0); simpl; lia |].
  split; [reflexivity |].
  split.
  - intros Hp.
    rewrite (run_calls_paired tr (New cf) 0); simpl; try assumption; lia.
  - intros Hp Hbal.
    rewrite (run_calls_paired tr (New cf) 0); simpl; try assumption; lia.
Qed.

Lemma activeFetches_floor_and_balance_witness :
  let tr := [CallBegin; CallBegin; CallEnd; CallBegin; CallEnd; CallEnd] in
  let tr' := [CallEnd; CallEnd; CallBegin; CallEnd; CallEnd] in
  activeFetches (run_calls tr (New exampleConfig)) = 0
  ∧ 0 <= activeFetches (run_calls tr' (New exampleConfig))
  ∧ activeFetches (BeginProcess (New exampleConfig)) = 1
  ∧ activeFetches (EndProcess (BeginProcess (New exampleConfig))) = 0.
Proof.
  split; [| split; [| split]].
  - apply (activeFetches_floor_and_balance exampleConfig
             [CallBegin; CallBegin; CallEnd; CallBegin; CallEnd; CallEnd]).
    + vm_compute. discriminate.
    + reflexivity.
    + reflexivity.
  - apply (activeFetches_floor_and_balance exampleConfig
             [CallEnd; CallEnd; CallBegin; CallEnd; CallEnd]).
    vm_compute. discriminate.
  - destruct (activeFetches_floor_and_balance exampleConfig [])
      as (_ & Hbegin & _); [vm_compute; discriminate |].
    rewrite Hbegin; [reflexivity | vm_compute; split; [discriminate | reflexivity]].
  - destruct (activeFetches_floor_and_balance exampleConfig [])
      as (_ & _ & Hend & _); [vm_compute; discriminate |].
    rewrite Hend; [reflexivity | vm_compute; split; [reflexivity | discriminate]].
Defined.

(** C4 as stated fails: one [EndProcess] followed by one [BeginProcess] is an
    interleaving of one call of each, and leaves the counter at 1. *)
Lemma activeFetches_unpaired_counterexample :
  begins [CallEnd; CallBegin] = ends [CallEnd; CallBegin]
  ∧ activeFetches (run_calls [CallEnd; CallBegin] (New exampleConfig)) = 1
  ∧ activeFetches (run_calls [CallEnd; CallBegin] (New exampleConfig)) ≠ 0.
Proof. vm_compute. repeat split; congruence. Qed.

(** ** Connect *)

Lemma Connect_failure_keeps_client (env : ConnectEnv) (w : World) (e : string) :
  (Connect env w).1 = Some e -> client (Connect env w).2 = client w.
Proof.
  unfold Connect, Connect_login. run_M.
  split_M; try reflexivity; try discriminate.
Qed.

Lemma Connect_never_sleeps (env : ConnectEnv) (w : World) :
  slept (Connect env w).2 = slept w.
Proof. unfold Connect, Connect_login. run_M. split_M; reflexivity. Qed.

(** C6. With the engine open and no session, [Connect] sends the commands of
    the phases in the order dial, upgrade (when configured), login, select.
    If every phase succeeds it returns nil with the session set; if a phase
    fails after the earlier ones succeeded, exactly the commands up to that
    phase were sent, followed by a logout of the partial connection (none
    exists when the dial failed), the session is still absent, and the error
    is the phase's tag followed by the cause. *)
Theorem Connect_phases_in_order (env : ConnectEnv) (w : World) :
  closed (client w) = false -> c (client w) = None ->
  let cf := cfg (client w) in
  let h := dialed env in
  (Forall (λ p, answer env p = None) (plan cf) ->
     (Connect env w).1 = None
     ∧ c (client (Connect env w).2) = Some h
     ∧ wire (Connect env w).2 = wire w ++ map (command cf h) (plan cf))
  ∧ (∀ pre p post e,
       plan cf = pre ++ p :: post ->
       Forall (λ q, answer env q = None) pre ->
       answer env p = Some e ->
       (Connect env w).1 = Some (phase_tag p +:+ ": " +:+ e)
       ∧ c (client (Connect env w).2) = None
       ∧ wire (Connect env w).2
         = wire w ++ map (command cf h) (pre ++ [p]) ++ teardown h p).
Proof.
  intros Hclosed Hc cf h. subst cf h. unfold plan, dialed. split.
  - intros Hall. unfold Connect, Connect_login. run_M. rewrite Hclosed, Hc.
    destruct (UseTLS (cfg (client w))) eqn:Htls,
             (StartTLS (cfg (client w))) eqn:Hst;
      cbn in Hall |- *; rewrite ?Htls; split_Forall; cbn in *;
      split_M; rewrite <- ?app_assoc; done.
  - intros pre p post e Hplan Hpre Hp.
    unfold Connect, Connect_login. run_M. rewrite Hclosed, Hc.
    destruct (UseTLS (cfg (client w))) eqn:Htls,
             (StartTLS (cfg (client w))) eqn:Hst;
      cbn in Hplan |- *; split_plan; rewrite ?Htls; split_Forall; cbn in *;
      split_M; rewrite <- ?app_assoc; done.
Qed.

Lemma Connect_phases_in_order_witness :
  let w := world_of (New exampleConfig) 0 in
  ((Connect acceptsAll w).1 = None
   ∧ c (client (Connect acceptsAll w).2) = Some 7%nat
   ∧ wire (Connect acceptsAll w).2
     = [OpDialTLS "imap.example.com" 993;
        OpLogin 7%nat "user@example.com" "app-password";
        OpSelect 7%nat "INBOX"])
  ∧ ((Connect rejectsLogin w).1 = Some "login: authentication failed"
     ∧ c (client (Connect rejectsLogin w).2) = None
     ∧ wire (Connect rejectsLogin w).2
       = [OpDialTLS "imap.example.com" 993;
          OpLogin 7%nat "user@example.com" "app-password";
          OpLogout 7%nat]).
Proof.
  intros w. split.
  - apply (Connect_phases_in_order acceptsAll w); try reflexivity.
    repeat constructor.
  - apply (proj2 (Connect_phases_in_order rejectsLogin w eq_refl eq_refl)
             [PhDial] PhLogin [PhSelect] "authentication failed");
      try reflexivity.
    repeat constructor.
Defined.

(** ** The reconnect backoff *)

Lemma retryDelay_next (k : nat) :
  (if retryDelay k <? 30 * Second then wrapInt (retryDelay k * 2) else retryDelay k)
  = retryDelay (S k).
Proof.
  destruct (le_lt_dec 5 k) as [Hbig | Hsmall].
  - assert (32 <= 2 ^ Z.of_nat k) as H1.
    { change 32 with (2 ^ 5). apply Z.pow_le_mono_r; lia. }
    assert (32 <= 2 ^ Z.of_nat (S k)) as H2.
    { change 32 with (2 ^ 5). apply Z.pow_le_mono_r; lia. }
    unfold retryDelay. rewrite !Z.min_r by assumption. reflexivity.
  - do 5 (destruct k as [| k]; [vm_compute; reflexivity |]). lia.
Qed.

Lemma IdleLoop_connecting_failures (envs : list ConnectEnv) : ∀ (w : World) (k : nat),
  Forall (λ env, ∀ w', client w' = client w -> (Connect env w').1 ≠ None) envs ->
  ∃ w', IdleLoop_connecting (map Attempt envs) (retryDelay k) w
        = (Retrying (retryDelay (k + length envs)), w')
      ∧ client w' = client w
      ∧ slept w' = slept w ++ map retryDelay (seq k (length envs)).
Proof.
  induction envs as [| env envs IH]; intros w k Hfail.
  - exists w. cbn. rewrite Nat.add_0_r, app_nil_r. done.
  - apply Forall_cons in Hfail as [Hhd Htl].
    cbn [map IdleLoop_connecting]. unfold mbind at 1, M_bind at 1.
    specialize (Hhd w eq_refl).
    pose proof (Connect_failure_keeps_client env w) as Hkeep.
    pose proof (Connect_never_sleeps env w) as Hnosleep.
    destruct (Connect env w) as [err w1]. cbn [fst snd] in *.
    destruct err as [e |]; [| done].
    specialize (Hkeep e eq_refl).
    rewrite retryDelay_next. run_M.
    edestruct (IH (mkWorld (client w1) (now w1 + retryDelay k) (wire w1)
                     (logs w1 ++ [Printf "connect error: %v" [AErr (Some e)]])
                     (slept w1 ++ [retryDelay k]) (emitted w1)) (S k))
      as (w' & Hrun & Hcl & Hsl).
    { eapply Forall_impl; [exact Htl |]. cbn. intros env' H w'' Hw''.
      apply H. congruence. }
    exists w'. rewrite Hrun. cbn [client slept] in *.
    split; [do 3 f_equal; cbn [length]; lia |]. split; [congruence |].
    rewrite Hsl, Hnosleep, <- app_assoc. reflexivity.
Qed.

(** C3 (as amended). In a run of consecutive [Connect] failures the sleep
    before each retry starts at 1 s and doubles after every failed attempt for
    as long as it is below 30 s, so it settles at 32 s: the failed attempts
    1 to 6 sleep 1, 2, 4, 8, 16 and 32 s, and every later one 32 s. *)
Theorem reconnect_backoff_doubles_to_32 (envs : list ConnectEnv) (w : World) :
  Forall (λ env, ∀ w', client w' = client w -> (Connect env w').1 ≠ None) envs ->
  ∃ w', IdleLoop_connect (map Attempt envs) w
        = (Retrying (retryDelay (length envs)), w')
      ∧ slept w' = slept w ++ map retryDelay (seq 0 (length envs))
      ∧ map retryDelay (seq 0 6)
        = [1 * Second; 2 * Second; 4 * Second; 8 * Second; 16 * Second; 32 * Second]
      ∧ ∀ k, (5 <= k)%nat -> retryDelay k = 32 * Second.
Proof.
  intros Hfail.
  destruct (IdleLoop_connecting_failures envs w 0 Hfail) as (w' & Hrun & _ & Hsl).
  exists w'. unfold IdleLoop_connect.
  change Second with (retryDelay 0) at 1. rewrite Hrun.
  split; [reflexivity |]. split; [exact Hsl |]. split; [reflexivity |].
  intros k Hk. unfold retryDelay. rewrite Z.min_r; [reflexivity |].
  change 32 with (2 ^ 5). apply Z.pow_le_mono_r; lia.
Qed.

Lemma reconnect_backoff_doubles_to_32_witness :
  ∃ w', IdleLoop_connect (map Attempt (repeat unreachable 7))
          (world_of (New exampleConfig) 0)
        = (Retrying (32 * Second), w')
      ∧ slept w' = [1 * Second; 2 * Second; 4 * Second; 8 * Second;
                    16 * Second; 32 * Second; 32 * Second].
Proof.
  destruct (reconnect_backoff_doubles_to_32 (repeat unreachable 7)
              (world_of (New exampleConfig) 0)) as (w' & Hrun & Hsl & _).
  - repeat constructor; intros w' Hw'; unfold Connect; run_M;
      rewrite Hw'; cbn; discriminate.
  - exists w'. split; [exact Hrun | exact Hsl].
Defined.

(** C3 as stated fails: the sixth consecutive failure sleeps 32 s, not 30 s. *)
Lemma reconnect_backoff_sixth_sleep_is_32 :
  let run := IdleLoop_connect (map Attempt (repeat unreachable 6))
               (world_of (New exampleConfig) 0) in
  slept run.2 = [1 * Second; 2 * Second; 4 * Second; 8 * Second;
                 16 * Second; 32 * Second]
  ∧ slept run.2 !! 5%nat ≠ Some (30 * Second).
Proof. vm_compute. split; [reflexivity | discriminate]. Qed.

(** ** drain *)

(** C9. With a zero or negative drain timeout [drain] returns at once,
    whatever the counter: it does not read the counter, does not wait, and
    leaves the world as it was. *)
Theorem drain_skipped_without_timeout (fuel : nat) (env : DrainEnv) (w : World) :
  DrainTimeout (cfg (client w)) <= 0 ->
  drain fuel env w = (Some Skipped, w).
Proof.
  intros HT. unfold drain. run_M.
  destruct (Z.leb_spec (DrainTimeout (cfg (client w))) 0); [reflexivity | lia].
Qed.

Lemma drain_skipped_without_timeout_witness :
  activeFetches (client noDrainBusy) = 1
  ∧ drain 0 stuckConsumer noDrainBusy = (Some Skipped, noDrainBusy).
Proof.
  split; [reflexivity |].
  apply (drain_skipped_without_timeout 0 stuckConsumer noDrainBusy).
  vm_compute. discriminate.
Defined.

(** The loop returns within [f + 1] iterations once fewer than [f] polling
    intervals are left before the deadline, and no later than [L] after it,
    [L] bounding how long a wait can take. *)
Lemma drain_loop_returns (env : DrainEnv) (deadline L : Z) :
  (∀ j, pollInterval <= timer_elapsed env j <= L) ->
  (∀ j d, ctx_done env j = Some d -> 0 <= d <= L) ->
  ∀ (f i : nat) (w : World),
    deadline - now w < Z.of_nat f * pollInterval ->
    now w <= deadline + L ->
    ∃ r w', drain_loop (S f) env i deadline w = (Some r, w')
          ∧ now w <= now w' <= deadline + L.
Proof.
  intros Htimer Hctx. assert (0 < pollInterval) as HP by (vm_compute; reflexivity).
  induction f as [| f IH]; intros i w Hleft Hnow.
  - cbn [drain_loop]. run_M.
    case_eqb0; simp_M; [eexists _, _; split; [reflexivity |]; simp_M; lia |].
    destruct (Z.ltb_spec deadline (now w)); [| lia]. simp_M.
    case_debug; simp_M; eexists _, _; (split; [reflexivity |]); simp_M; lia.
  - remember (S f) as f'. cbn [drain_loop]. run_M.
    case_eqb0; simp_M; [eexists _, _; split; [reflexivity |]; simp_M; lia |].
    destruct (Z.ltb_spec deadline (now w)); simp_M.
    { case_debug; simp_M; eexists _, _; (split; [reflexivity |]); simp_M; lia. }
    destruct (ctx_done env i) as [d |] eqn:Hd; simp_M.
    { specialize (Hctx i d Hd). eexists _, _; split; [reflexivity |]. simp_M. lia. }
    specialize (Htimer i).
    match goal with |- context [drain_loop f' env (S i) deadline ?w1] =>
      destruct (IH (S i) w1) as (r & w' & Hrun & Hbound); cbn [now];
        [nia | lia | exists r, w'; split; [exact Hrun | cbn [now] in Hbound; lia]]
    end.
Qed.

(** C7 (as amended). [drain] always returns, even if the counter never
    reaches zero: with a timeout [T] it reads the counter at most
    [T / 100ms + 2] times, and it returns no later than [T] plus one wait of
    the polling timer after it was called ([L] bounds a wait; 100 ms with
    exact timers). *)
Theorem drain_returns_within_timeout_plus_wait (env : DrainEnv) (w : World) (L : Z) :
  (∀ j, pollInterval <= timer_elapsed env j <= L) ->
  (∀ j d, ctx_done env j = Some d -> 0 <= d <= L) ->
  let T := DrainTimeout (cfg (client w)) in
  ∃ r w', drain (drain_fuel T) env w = (Some r, w')
        ∧ now w <= now w' <= now w + Z.max 0 T + L.
Proof.
  intros Htimer Hctx T. subst T.
  assert (0 < pollInterval) as HP by (vm_compute; reflexivity).
  assert (pollInterval <= L) as HL by (specialize (Htimer 0%nat); lia).
  unfold drain. run_M.
  destruct (Z.leb_spec (DrainTimeout (cfg (client w))) 0) as [Hskip | Hpos].
  - exists Skipped, w. split; [reflexivity | lia].
  - set (T := DrainTimeout (cfg (client w))) in *.
    unfold drain_fuel. replace (Z.to_nat (T / pollInterval) + 2)%nat
      with (S (S (Z.to_nat (T / pollInterval)))) by lia.
    pose proof (Z.div_pos T pollInterval ltac:(lia) HP) as Hq.
    pose proof (Z.mod_pos_bound T pollInterval HP) as Hr.
    pose proof (Z.div_mod T pollInterval ltac:(lia)) as Hdm.
    destruct (drain_loop_returns env (now w + T) L Htimer Hctx
                (S (Z.to_nat (T / pollInterval))) 0 w) as (r & w' & Hrun & Hb).
    + rewrite Nat2Z.inj_succ, Z2Nat.id by assumption. nia.
    + lia.
    + exists r, w'. split; [exact Hrun | lia].
Qed.

Lemma drain_returns_within_timeout_plus_wait_witness :
  ∃ r w', drain (drain_fuel (250 * Millisecond)) stuckConsumer busy250 = (Some r, w')
        ∧ 0 <= now w' <= 0 + Z.max 0 (250 * Millisecond) + pollInterval.
Proof.
  apply (drain_returns_within_timeout_plus_wait stuckConsumer busy250 pollInterval).
  - intros j. cbn. lia.
  - intros j d Hd. discriminate Hd.
Defined.

(** C7 as stated fails: with a 250 ms timeout and a consumer that never
    finishes, [drain] looks at the clock at 0, 100 and 200 ms, waits once
    more, and only returns at 300 ms, after the timeout has elapsed. *)
Lemma drain_overshoots_timeout :
  let run := drain (drain_fuel (250 * Millisecond)) stuckConsumer busy250 in
  run.1 = Some TimedOut
  ∧ now run.2 - now busy250 = 300 * Millisecond
  ∧ ¬ (now run.2 - now busy250 <= DrainTimeout (cfg (client busy250))).
Proof. vm_compute. repeat split; congruence. Qed.

(** ** Exec *)

Lemma Exec_live (env : ExecEnv) (op : string) (fn : Conn -> WireOp) (w : World)
    (h : Conn) :
  c (client w) = Some h ->
  ∃ lines,
    Exec env op fn w
    = (raceError op (race env),
       mkWorld (updateStats op (took env) (raceError op (race env)) (client w))
         (now w + took env) (wire w ++ [fn h]) (logs w ++ lines) (slept w)
         (emitted w)).
Proof.
  intros Hc. unfold Exec. run_M. rewrite Hc. simp_M.
  replace (now w + took env - now w) with (took env) by lia.
  destruct (raceError op (race env)) as [e |]; simp_M;
    (destruct (Debug (cfg (client w))) eqn:Hd;
     unfold updateStats, set_opStats; cbn [cfg]; rewrite Hd; simp_M;
     [eexists [_] | exists []]; rewrite ?app_nil_r; reflexivity).
Qed.

Lemma Exec_no_session (env : ExecEnv) (op : string) (fn : Conn -> WireOp) (w : World) :
  c (client w) = None -> Exec env op fn w = (Some "no connection", w).
Proof. intros Hc. unfold Exec. run_M. rewrite Hc. reflexivity. Qed.

(** The statistics do not depend on when the call started, only on how long
    it took. *)
Lemma Exec_stats_ignore_start (env : ExecEnv) (op : string) (fn : Conn -> WireOp)
    (w1 w2 : World) :
  client w1 = client w2 ->
  client (Exec env op fn w1).2 = client (Exec env op fn w2).2.
Proof.
  intros Hcl. destruct (c (client w1)) as [h |] eqn:Hc.
  - destruct (Exec_live env op fn w1 h Hc) as [l1 ->].
    rewrite Hcl in Hc. destruct (Exec_live env op fn w2 h Hc) as [l2 ->].
    cbn. congruence.
  - rewrite (Exec_no_session env op fn w1 Hc).
    rewrite Hcl in Hc. rewrite (Exec_no_session env op fn w2 Hc). exact Hcl.
Qed.

(** C5 (as amended). A call to [Exec] that finds a live session returns what
    the race between the operation and the context leaves (success, the
    operation's error, or the timeout error) and, whichever it is, records
    the call under the operation's name: one more call, its duration as last
    duration and added to the total, one more error and its text when it
    failed (the text cleared when it succeeded); other operations' entries
    are untouched. A call that finds no session returns the no-connection
    error and records nothing. *)
Theorem Exec_records_live_calls (env : ExecEnv) (op : string) (fn : Conn -> WireOp)
    (w : World) :
  let st := default zeroOpStat (Stats (client w) !! op) in
  let res := Exec env op fn w in
  (∀ h, c (client w) = Some h ->
     res.1 = raceError op (race env)
     ∧ Stats (client res.2) !! op
       = Some (mkOpStat (wrapInt (Count st + 1))
                 (if res.1 is Some _ then wrapInt (Errors st + 1) else Errors st)
                 (took env)
                 (wrapInt (TotalDuration st + took env))
                 (default "" res.1))
     ∧ ∀ op', op' ≠ op -> Stats (client res.2) !! op' = Stats (client w) !! op')
  ∧ (c (client w) = None -> res = (Some "no connection", w)).
Proof.
  intros st res. subst st res. split.
  - intros h Hc. destruct (Exec_live env op fn w h Hc) as [lines ->].
    unfold Stats, updateStats. cbn. split; [reflexivity |]. split.
    + rewrite lookup_insert_eq. destruct (raceError op (race env)); reflexivity.
    + intros op' Hne. rewrite lookup_insert_ne by congruence. reflexivity.
  - apply Exec_no_session.
Qed.

Lemma Exec_records_live_calls_witness :
  ((Exec timesOut "fetch" fetchBody liveWorld).1
   = Some "op fetch timeout or canceled: context deadline exceeded"
   ∧ Stats (client (Exec timesOut "fetch" fetchBody liveWorld).2) !! "fetch"
     = Some (mkOpStat 1 1 (15 * Second) (15 * Second)
               "op fetch timeout or canceled: context deadline exceeded"))
  ∧ Exec timesOut "fetch" fetchBody (world_of (New exampleConfig) 0)
    = (Some "no connection", world_of (New exampleConfig) 0).
Proof.
  split.
  - destruct (proj1 (Exec_records_live_calls timesOut "fetch" fetchBody liveWorld)
                7%nat eq_refl) as (Hres & Hstat & _).
    split; [exact Hres |]. vm_compute in Hstat. vm_compute. exact Hstat.
  - apply (proj2 (Exec_records_live_calls timesOut "fetch" fetchBody
                    (world_of (New exampleConfig) 0))).
    reflexivity.
Defined.

(** C5 as stated fails: a call made while no session is live returns the
    no-connection error without recording anything under the operation's
    name; and what a live call records is the same whenever it started (the
    start time itself is not kept). *)
Lemma Exec_without_session_records_nothing :
  let res := Exec timesOut "fetch" fetchBody (world_of (New exampleConfig) 0) in
  res.1 = Some "no connection"
  ∧ Stats (client res.2) !! "fetch" = None
  ∧ Stats (client (Exec timesOut "fetch" fetchBody liveWorld).2)
    = Stats (client (Exec timesOut "fetch" fetchBody
                       (world_of (set_c (Some 7%nat) (New exampleConfig))
                          (3600 * Second))).2).
Proof. vm_compute. repeat split; reflexivity. Qed.

(** ** handleNewMessages *)

(** [fetchError] is what the UID fetch returns through [Exec]. *)
Lemma Exec_returns_fetchError (env : HandleEnv) (fn : Conn -> WireOp) (w : World) :
  (Exec (fetch_env env) "fetch-uids" fn w).1 = fetchError env (client w).
Proof.
  unfold fetchError. destruct (c (client w)) as [h |] eqn:Hc.
  - destruct (Exec_live (fetch_env env) "fetch-uids" fn w h Hc) as [lines ->].
    reflexivity.
  - rewrite (Exec_no_session _ _ _ w Hc). reflexivity.
Qed.

Lemma set_activeFetches_same (cl : Client) :
  set_activeFetches (activeFetches cl) cl = cl.
Proof. destruct cl; reflexivity. Qed.

Lemma debugf_eq (f : string) (a : list Arg) (w : World) :
  debugf f a w
  = (tt, mkWorld (client w) (now w) (wire w)
           (logs w ++ debugLines (cfg (client w)) f a) (slept w) (emitted w)).
Proof.
  unfold debugf, debugLines. run_M.
  destruct (Debug (cfg (client w))); destruct w; cbn; rewrite ?app_nil_r; reflexivity.
Qed.

(** With no cancellation, every fetched message raises the counter and is
    pushed, in order. *)
Lemma emit_all_pushes (sel : nat -> bool) (msgs : list Message) : ∀ (i : nat) (w : World),
  (∀ j, sel j = true) ->
  0 <= activeFetches (client w) ->
  activeFetches (client w) + Z.of_nat (length msgs) <= maxInt ->
  ∃ lines,
    emit_all sel i msgs w
    = (tt, mkWorld
             (set_activeFetches (activeFetches (client w) + Z.of_nat (length msgs))
                (client w))
             (now w) (wire w) (logs w ++ lines) (slept w)
             (emitted w ++ map (λ m, mkEvent (Uid m)) msgs)).
Proof.
  induction msgs as [| m msgs IH]; intros i w Hsel Hlo Hhi.
  - exists []. cbn. rewrite Z.add_0_r, set_activeFetches_same, !app_nil_r.
    destruct w; reflexivity.
  - rewrite length_cons, Nat2Z.inj_succ in Hhi.
    assert (activeFetches (BeginProcess (client w)) = activeFetches (client w) + 1)
      as Hbegin by (apply activeFetches_BeginProcess; lia).
    cbn [emit_all]. unfold mbind, M_bind. rewrite debugf_eq, Hsel.
    unfold modifyClient, push. simp_M.
    match goal with |- context [emit_all sel (S i) msgs ?w1] =>
      pose proof (IH (S i) w1 Hsel) as IH'
    end.
    cbn [client now wire logs slept emitted] in IH'. rewrite Hbegin in IH'.
    destruct IH' as [lines ->]; [lia | lia |].
    exists (debugLines (cfg (client w)) "emit uid=%d" [AInt (Uid m)] ++ lines).
    rewrite length_cons, Nat2Z.inj_succ. cbn [map].
    rewrite <- !app_assoc. cbn [app].
    do 2 f_equal. unfold set_activeFetches, BeginProcess.
    cbn [cfg c closed opStats activeFetches]. f_equal. lia.
Qed.

(** The guard and the exit from long-poll passed, what is left is the fetch. *)
Lemma handleNewMessages_reaches_fetch (env : HandleEnv) (n b : Z) (idling : bool)
    (w : World) :
  b < n ->
  (idling = true -> ctx_done_on_entry env = false ∧ idle_done env = None) ->
  ∃ lines,
    handleNewMessages env n b idling w
    = fetch_and_emit env n b
        (mkWorld (client w) (now w) (wire w) (logs w ++ lines) (slept w) (emitted w)).
Proof.
  intros Hlt Hidle. unfold handleNewMessages.
  destruct (Z.leb_spec n b); [lia |].
  unfold mbind, M_bind. rewrite debugf_eq.
  exists (debugLines (cfg (client w))
            "handleNewMessages newTotal=%d baseline=%d newCount=%d"
            [AInt n; AInt b; AInt (wrapU32 (n - b))]).
  destruct idling; [| reflexivity].
  destruct (Hidle eq_refl) as [-> ->]. reflexivity.
Qed.

Lemma fetch_and_emit_failure (env : HandleEnv) (n b : Z) (w : World) (e : string) :
  fetchError env (client w) = Some e ->
  ∃ w',
    fetch_and_emit env n b w = ((true, n), w')
    ∧ Printf "fetch uids error: %v" [AErr (Some e)] ∈ logs w'
    ∧ emitted w' = emitted w
    ∧ slept w' = slept w
    ∧ c (client w') = c (client w)
    ∧ activeFetches (client w') = activeFetches (client w)
    ∧ wire w' = wire w ++ match c (client w) with
                         | Some h => [OpFetchUid h (wrapU32 (b + 1)) n]
                         | None => []
                         end.
Proof.
  unfold fetchError, fetch_and_emit. intros Herr.
  destruct (c (client w)) as [h |] eqn:Hc.
  - unfold mbind, M_bind.
    destruct (Exec_live (fetch_env env) "fetch-uids"
                (λ h, OpFetchUid h (wrapU32 (b + 1)) n) w h Hc) as [lines ->].
    rewrite Herr. unfold logPrintf. simp_M. rewrite debugf_eq. simp_M.
    eexists. split; [reflexivity |]. simp_M.
    repeat split; try done.
    rewrite !elem_of_app, !list_elem_of_singleton. auto.
  - unfold mbind, M_bind. rewrite (Exec_no_session _ _ _ w Hc). simplify_eq.
    unfold logPrintf. simp_M. rewrite debugf_eq. simp_M.
    eexists. split; [reflexivity |]. simp_M.
    repeat split; try done; [| by rewrite app_nil_r].
    rewrite !elem_of_app, !list_elem_of_singleton. auto.
Qed.

Lemma fetch_and_emit_success (env : HandleEnv) (n b : Z) (w : World) :
  fetchError env (client w) = None ->
  (∀ i, send_proceeds env i = true) ->
  0 <= activeFetches (client w) ->
  activeFetches (client w) + Z.of_nat (length (fetch_msgs env)) <= maxInt ->
  ∃ w' h,
    fetch_and_emit env n b w = ((true, n), w')
    ∧ emitted w' = emitted w ++ map (λ m, mkEvent (Uid m)) (fetch_msgs env)
    ∧ activeFetches (client w')
      = activeFetches (client w) + Z.of_nat (length (fetch_msgs env))
    ∧ c (client w) = Some h
    ∧ c (client w') = Some h
    ∧ wire w' = wire w ++ [OpFetchUid h (wrapU32 (b + 1)) n]
    ∧ slept w' = slept w.
Proof.
  unfold fetchError, fetch_and_emit. intros Herr Hsel Hlo Hhi.
  destruct (c (client w)) as [h |] eqn:Hc; [| discriminate].
  unfold mbind, M_bind.
  destruct (Exec_live (fetch_env env) "fetch-uids"
              (λ h, OpFetchUid h (wrapU32 (b + 1)) n) w h Hc) as [lines ->].
  rewrite Herr.
  match goal with |- context [emit_all _ 0 _ ?w1] =>
    pose proof (emit_all_pushes (send_proceeds env) (fetch_msgs env) 0 w1 Hsel) as Hemit
  end.
  cbn [client now wire logs slept emitted] in Hemit.
  destruct Hemit as [lines' ->]; [exact Hlo | exact Hhi |].
  rewrite debugf_eq. simp_M.
  eexists _, h. split; [reflexivity |]. simp_M.
  split; [reflexivity |]. split; [reflexivity |]. split; [reflexivity |].
  split; [| split; reflexivity].
  unfold updateStats, set_opStats, set_activeFetches. cbn [c]. exact Hc.
Qed.

(** C1 (as amended). In a growth-detection cycle with baseline [b] and
    observed count [n > b] in which the long-poll is left cleanly and the
    fetch succeeds, the engine asks the server for exactly the range
    [b+1 .. n], on the session it has, and for nothing else. When the server
    answers that request with the messages [b+1 .. n] in order, with
    ascending UIDs, and no cancellation interrupts the pushes, the engine
    pushes exactly one event per message of the range, [n - b] in all, with
    strictly increasing identifiers, raises the counter once per event, does
    not sleep, keeps the session, and leaves the baseline at [n]. *)
Theorem handleNewMessages_emits_range (env : HandleEnv) (n b : Z) (idling : bool)
    (w : World) :
  b < n ->
  (idling = true -> ctx_done_on_entry env = false ∧ idle_done env = None) ->
  fetchError env (client w) = None ->
  map SeqNum (fetch_msgs env) = seqZ (b + 1) (n - b) ->
  StronglySorted Z.lt (map Uid (fetch_msgs env)) ->
  (∀ i, send_proceeds env i = true) ->
  0 <= activeFetches (client w) ->
  activeFetches (client w) + (n - b) <= maxInt ->
  ∃ evs w' h,
    handleNewMessages env n b idling w = ((true, n), w')
    ∧ c (client w) = Some h
    ∧ wire w' = wire w ++ [OpFetchUid h (wrapU32 (b + 1)) n]
    ∧ (0 <= b -> n < 2 ^ 32 -> wire w' = wire w ++ [OpFetchUid h (b + 1) n])
    ∧ emitted w' = emitted w ++ evs
    ∧ uids evs = map Uid (fetch_msgs env)
    ∧ Z.of_nat (length evs) = n - b
    ∧ StronglySorted Z.lt (uids evs)
    ∧ activeFetches (client w') = activeFetches (client w) + (n - b)
    ∧ c (client w') = Some h
    ∧ slept w' = slept w.
Proof.
  intros Hlt Hidle Herr Hseq Hsorted Hsel Hlo Hhi.
  assert (Z.of_nat (length (fetch_msgs env)) = n - b) as Hlen.
  { rewrite <- (length_map SeqNum), Hseq, length_seqZ. lia. }
  destruct (handleNewMessages_reaches_fetch env n b idling w Hlt Hidle) as [lines ->].
  destruct (fetch_and_emit_success env n b
              (mkWorld (client w) (now w) (wire w) (logs w ++ lines) (slept w)
                 (emitted w)))
    as (w' & h & Hrun & Hev & Hact & Hc & Hc' & Hwire & Hsl);
    cbn [client]; try assumption; [lia |].
  cbn [client emitted wire slept] in *.
  assert (uids (map (λ m, mkEvent (Uid m)) (fetch_msgs env)) = map Uid (fetch_msgs env))
    as Huids.
  { unfold uids. rewrite map_map. reflexivity. }
  exists (map (λ m, mkEvent (Uid m)) (fetch_msgs env)), w', h.
  split; [exact Hrun |]. split; [exact Hc |]. split; [exact Hwire |].
  split.
  { intros Hb Hn. rewrite Hwire, wrapU32_id by lia. reflexivity. }
  split; [exact Hev |]. split; [exact Huids |].
  split; [rewrite length_map; exact Hlen |].
  split; [rewrite Huids; exact Hsorted |].
  split; [lia |]. split; [exact Hc' | exact Hsl].
Qed.

(** Baseline 42, growth to 43: the engine asks for 43:43 and nothing else,
    pushes one event, for the UID the server reports, and the baseline
    becomes 43. *)
Lemma handleNewMessages_emits_range_witness :
  ∃ w', handleNewMessages grows42to43 43 42 false liveWorld = ((true, 43), w')
      ∧ wire w' = [OpFetchUid 7%nat 43 43]
      ∧ emitted w' = [mkEvent 1234]
      ∧ activeFetches (client w') = 1.
Proof.
  destruct (handleNewMessages_emits_range grows42to43 43 42 false liveWorld)
    as (evs & w' & h & Hrun & Hc & _ & Hwire & Hev & Huids & Hlen & _ & Hact & _).
  - lia.
  - discriminate.
  - reflexivity.
  - reflexivity.
  - repeat constructor.
  - reflexivity.
  - vm_compute. discriminate.
  - vm_compute. discriminate.
  - exists w'. split; [exact Hrun |].
    split.
    { rewrite Hwire by lia. injection Hc as <-. reflexivity. }
    split; [| exact Hact].
    rewrite Hev. destruct evs as [| [u] [| ? ?]]; try discriminate.
    cbn in Huids. injection Huids as ->. reflexivity.
Defined.

(** C1 as stated fails: with baseline 42 and growth to 43, a UID fetch that
    fails leaves no event at all, and the baseline still becomes 43. *)
Lemma handleNewMessages_failed_fetch_emits_nothing :
  let run := handleNewMessages fetchFails 43 42 false liveWorld in
  run.1 = (true, 43) ∧ emitted run.2 = [] ∧ length (emitted run.2) ≠ 1%nat.
Proof. vm_compute. repeat split; congruence. Qed.

(** C2 (as amended). When the UID fetch of a cycle fails (no session, an
    error of the command, or a timeout), the failure is logged and nothing
    else happens: no event, no reset of the session, no sleep, the counter
    untouched. The baseline is advanced to the observed count all the same,
    so a next cycle that observes the same count does nothing. *)
Theorem fetch_failure_logged_baseline_advanced (env : HandleEnv) (n b : Z)
    (idling : bool) (w : World) (e : string) :
  b < n ->
  (idling = true -> ctx_done_on_entry env = false ∧ idle_done env = None) ->
  fetchError env (client w) = Some e ->
  ∃ w',
    handleNewMessages env n b idling w = ((true, n), w')
    ∧ Printf "fetch uids error: %v" [AErr (Some e)] ∈ logs w'
    ∧ emitted w' = emitted w
    ∧ slept w' = slept w
    ∧ c (client w') = c (client w)
    ∧ activeFetches (client w') = activeFetches (client w)
    ∧ wire w' = wire w ++ match c (client w) with
                         | Some h => [OpFetchUid h (wrapU32 (b + 1)) n]
                         | None => []
                         end
    ∧ ∀ env' idling' w'', handleNewMessages env' n n idling' w'' = ((false, n), w'').
Proof.
  intros Hlt Hidle Herr.
  destruct (handleNewMessages_reaches_fetch env n b idling w Hlt Hidle) as [lines ->].
  destruct (fetch_and_emit_failure env n b
              (mkWorld (client w) (now w) (wire w) (logs w ++ lines) (slept w)
                 (emitted w)) e Herr)
    as (w' & Hrun & Hlog & Hev & Hsl & Hc & Hact & Hwire).
  cbn [client emitted slept wire] in *.
  exists w'. repeat (split; [assumption |]).
  intros env' idling' w''. unfold handleNewMessages.
  rewrite Z.leb_refl. reflexivity.
Qed.

Lemma fetch_failure_logged_baseline_advanced_witness :
  ∃ w', handleNewMessages fetchFails 43 42 false liveWorld = ((true, 43), w')
      ∧ Printf "fetch uids error: %v" [AErr (Some "short write")] ∈ logs w'
      ∧ emitted w' = []
      ∧ c (client w') = Some 7%nat.
Proof.
  destruct (fetch_failure_logged_baseline_advanced fetchFails 43 42 false liveWorld
              "short write")
    as (w' & Hrun & Hlog & Hev & _ & Hc & _).
  - lia.
  - discriminate.
  - reflexivity.
  - exists w'. split; [exact Hrun |]. split; [exact Hlog |].
    split; [exact Hev | exact Hc].
Defined.

(** C2 as stated fails: after a failed UID fetch for the growth from 42 to 43
    the baseline is 43, not 42; the cycle that next observes 43 returns at
    the guard without sending anything, so the range is not fetched again. *)
Lemma failed_fetch_advances_baseline :
  let run := handleNewMessages fetchFails 43 42 false liveWorld in
  run.1.2 = 43 ∧ run.1.2 ≠ 42
  ∧ handleNewMessages grows42to43 43 run.1.2 false run.2 = ((false, 43), run.2).
Proof. vm_compute. repeat split; congruence. Qed.

End imapclient_proofs.

Module webhook_proofs.
Import webhook.

(** C10. For every body limit (and whatever the clock and the library's
    trimming and lower-casing), [BuildPayload] of a nil message is the zero
    [Payload]: every field empty, nothing read from the message. *)
Theorem BuildPayload_nil_is_zero (TrimSpace ToLower : string -> string)
    (unixNow bodyLimit : Z) :
  BuildPayload TrimSpace ToLower unixNow None bodyLimit = zeroPayload
  ∧ zeroPayload = mkPayload 0 "" "" "" "" [] "" 0 "" 0 "" [] false [] 0.
Proof. split; reflexivity. Qed.

(** For contrast, a message that is there is normalised: preview, lines and
    word count are filled in and the body is cut at the limit. *)
Example BuildPayload_some :
  let msg := mkPayload 7 "Hi" "a@b" "Mon" "Hello world again" [] "" 0 "INBOX" 5 "" []
               false [] 0 in
  BuildPayload id id 9 (Some msg) 11
  = mkPayload 7 "Hi" "a@b" "Mon" "Hello world...<truncated>"
      ["Hello world...<truncated>"] "Hello world again" 3 "INBOX" 5 "" [] false [] 0.
Proof. vm_compute. reflexivity. Qed.

End webhook_proofs.

Module monitor_proofs.
Import config monitor.

(** ** The transient-error pattern *)

Lemma matchRune_spec (p r : Z) : matchRune p r = true ↔ r ∈ foldOrbit p.
Proof.
  unfold matchRune. rewrite existsb_exists, list_elem_of_In. split.
  - intros (x & Hin & Heq). apply Z.eqb_eq in Heq. subst. exact Hin.
  - intros Hin. exists r. split; [exact Hin | apply Z.eqb_refl].
Qed.

Lemma matchesAt_spec (pat : list Z) : ∀ text,
  matchesAt pat text = true
  ↔ ∃ w post, text = w ++ post ∧ Forall2 (λ p r, r ∈ foldOrbit p) pat w.
Proof.
  induction pat as [| p pat IH]; intros text.
  - cbn. split; [| done]. intros _. exists [], text. split; [reflexivity | constructor].
  - destruct text as [| r text]; cbn [matchesAt].
    + split; [discriminate |]. intros (w & post & Heq & HF).
      inversion HF; subst. discriminate.
    + rewrite andb_true_iff, matchRune_spec, IH. split.
      * intros (Hr & w & post & -> & HF). exists (r :: w), post.
        split; [reflexivity | by constructor].
      * intros (w & post & Heq & HF). inversion HF; subst. simplify_eq/=.
        split; [assumption |]. eauto.
Qed.

Lemma matchAnywhere_spec (pats : list (list Z)) : ∀ text,
  matchAnywhere pats text = true ↔ ∃ pat, pat ∈ pats ∧ contains_fold pat text.
Proof.
  induction text as [| r text IH]; cbn [matchAnywhere];
    rewrite orb_true_iff, existsb_exists.
  - split.
    + intros [(pat & Hin & Hm) | Hf]; [| discriminate].
      apply matchesAt_spec in Hm as (w & post & Heq & HF).
      exists pat. split; [by apply list_elem_of_In |]. exists [], w, post. done.
    + intros (pat & Hin & pre & w & post & Heq & HF). left.
      exists pat. split; [by apply list_elem_of_In |].
      destruct pre; [| discriminate]. apply matchesAt_spec.
      exists w, post. split; [exact Heq | exact HF].
  - rewrite IH. split.
    + intros [(pat & Hin & Hm) | (pat & Hin & pre & w & post & -> & HF)].
      * apply matchesAt_spec in Hm as (w & post & Heq & HF).
        exists pat. split; [by apply list_elem_of_In |]. exists [], w, post. done.
      * exists pat. split; [assumption |]. exists (r :: pre), w, post. done.
    + intros (pat & Hin & pre & w & post & Heq & HF).
      destruct pre as [| r' pre]; simplify_eq/=.
      * left. exists pat. split; [by apply list_elem_of_In |].
        apply matchesAt_spec. exists w, post. split; [assumption | exact HF].
      * right. exists pat. split; [assumption |]. exists pre, w, post. done.
Qed.

Lemma transientRe_spec (e : string) :
  transientRe_MatchString e = true
  ↔ ∃ word, word ∈ transientWords ∧ contains_fold (utf8.runes word) (utf8.runes e).
Proof.
  unfold transientRe_MatchString. rewrite matchAnywhere_spec. split.
  - intros (pat & Hin & Hc). apply list_elem_of_fmap in Hin as (word & -> & Hin). eauto.
  - intros (word & Hin & Hc). exists (utf8.runes word).
    split; [| assumption]. apply list_elem_of_fmap. eauto.
Qed.

Example transient_examples :
  transientRe_MatchString "write tcp 10.0.0.2:993: Short Write" = true
  ∧ transientRe_MatchString "i/o TIMEOUT" = true
  ∧ transientRe_MatchString "connection reſet by peer" = true
  ∧ transientRe_MatchString "message not found" = false
  ∧ transientRe_MatchString "" = false.
Proof. vm_compute. repeat split; reflexivity. Qed.

(** ** The retry loop *)

Lemma attempts_cons_fetch (uid : Z) (effs : list Effect) :
  attempts (EffFetchAndParse uid :: effs) = S (attempts effs).
Proof. reflexivity. Qed.

Lemma attempts_debug_sleep (debug : bool) (f : string) (a : list imapclient.Arg)
    (d : Z) (effs : list Effect) :
  attempts ((if debug then [EffLog f a] else []) ++ EffSleep d :: effs) = attempts effs.
Proof. destruct debug; reflexivity. Qed.

(** The loop stops at the first attempt that does not fail transiently. *)
Lemma fetchLoop_stops (debug : bool) (uid : Z) (fetch : nat -> FetchResult)
    (turns : nat) : ∀ (attempt : nat) (last : option parser.Message * error) (k : nat),
  (k < turns)%nat ->
  (∀ i, (i < k)%nat -> transient (fetch (attempt + i)%nat) = true) ->
  transient (fetch (attempt + k)%nat) = false ->
  (fetchLoop debug uid fetch turns attempt last).1 = outcome (fetch (attempt + k)%nat)
  ∧ attempts (fetchLoop debug uid fetch turns attempt last).2 = S k.
Proof.
  induction turns as [| turns IH]; intros attempt last k Hk Hpre Hstop; [lia |].
  cbn [fetchLoop]. destruct k as [| k].
  - rewrite Nat.add_0_r in Hstop.
    destruct (fetch attempt) as [m | e] eqn:Hf; cbn in Hstop |- *.
    + rewrite Nat.add_0_r, Hf. done.
    + rewrite Hstop. cbn. rewrite Nat.add_0_r, Hf. done.
  - pose proof (Hpre 0%nat ltac:(lia)) as H0. rewrite Nat.add_0_r in H0.
    destruct (fetch attempt) as [m | e] eqn:Hf; cbn in H0; [discriminate |].
    rewrite H0. cbn [negb].
    destruct (IH (S attempt) (None, Some e) k ltac:(lia)) as [Hres Hatt].
    + intros i Hi. replace (S attempt + i)%nat with (attempt + S i)%nat by lia.
      apply Hpre. lia.
    + replace (S attempt + k)%nat with (attempt + S k)%nat by lia. exact Hstop.
    + destruct (fetchLoop debug uid fetch turns (S attempt) (None, Some e)) as [r effs].
      cbn [fst snd] in *. rewrite attempts_cons_fetch, attempts_debug_sleep.
      replace (attempt + S k)%nat with (S attempt + k)%nat by lia. auto.
Qed.

(** If every attempt fails transiently the loop uses all its turns. *)
Lemma fetchLoop_exhausts (debug : bool) (uid : Z) (fetch : nat -> FetchResult)
    (turns : nat) : ∀ (attempt : nat) (last : option parser.Message * error),
  (∀ i, (i < turns)%nat -> transient (fetch (attempt + i)%nat) = true) ->
  (fetchLoop debug uid fetch turns attempt last).1
  = match turns with
    | O => last
    | S t => outcome (fetch (attempt + t)%nat)
    end
  ∧ attempts (fetchLoop debug uid fetch turns attempt last).2 = turns.
Proof.
  induction turns as [| turns IH]; intros attempt last Hall; [done |].
  cbn [fetchLoop].
  pose proof (Hall 0%nat ltac:(lia)) as H0. rewrite Nat.add_0_r in H0.
  destruct (fetch attempt) as [m | e] eqn:Hf; cbn in H0; [discriminate |].
  rewrite H0. cbn [negb].
  destruct (IH (S attempt) (None, Some e)) as [Hres Hatt].
  { intros i Hi. replace (S attempt + i)%nat with (attempt + S i)%nat by lia.
    apply Hall. lia. }
  destruct (fetchLoop debug uid fetch turns (S attempt) (None, Some e)) as [r effs].
  cbn [fst snd] in *. rewrite attempts_cons_fetch, attempts_debug_sleep.
  split; [| congruence]. rewrite Hres. destruct turns as [| t].
  - rewrite Nat.add_0_r, Hf. reflexivity.
  - replace (attempt + S t)%nat with (S attempt + t)%nat by lia. reflexivity.
Qed.

Lemma fetchLoop_attempts_le (debug : bool) (uid : Z) (fetch : nat -> FetchResult)
    (turns : nat) : ∀ (attempt : nat) (last : option parser.Message * error),
  (attempts (fetchLoop debug uid fetch turns attempt last).2 <= turns)%nat
  ∧ (0 < turns -> 0 < attempts (fetchLoop debug uid fetch turns attempt last).2)%nat.
Proof.
  induction turns as [| turns IH]; intros attempt last; [cbn; lia |].
  cbn [fetchLoop]. destruct (fetch attempt) as [m | e]; [cbn; lia |].
  destruct (transientRe_MatchString e); cbn [negb]; [| cbn; lia].
  specialize (IH (S attempt) (None, Some e)).
  destruct (fetchLoop debug uid fetch turns (S attempt) (None, Some e)) as [r effs].
  cbn [fst snd] in *. rewrite attempts_cons_fetch, attempts_debug_sleep. lia.
Qed.

(** C8. A fetch error is transient exactly when its text contains, up to
    case, one of "short write", "timeout", "temporarily", "reset", "closed".
    An event is fetched at least once and at most three times: the fetch is
    repeated only after a transient error, so the attempt [k] (from 0) that
    first succeeds or fails with another error is the last, and three
    transient errors in a row end the loop after the third attempt. An
    error left at the end is logged, the counter is released, and nothing is
    sent. *)
Theorem transient_fetch_errors_retried (TrimSpace ToLower : string -> string)
    (cf : Config) (env : ConsumerEnv) (ev : imapclient.Event)
    (cl : imapclient.Client) :
  let uid := imapclient.UID ev in
  let run := fetchWithRetry (Debug cf) uid (fetch_result env) in
  (∀ e, transientRe_MatchString e = true
        ↔ ∃ word, word ∈ transientWords
                  ∧ contains_fold (utf8.runes word) (utf8.runes e))
  ∧ (1 <= attempts run.2 <= 3)%nat
  ∧ (∀ k, (k < 3)%nat ->
          (∀ i, (i < k)%nat -> transient (fetch_result env i) = true) ->
          transient (fetch_result env k) = false ->
          run.1 = outcome (fetch_result env k) ∧ attempts run.2 = S k)
  ∧ ((∀ i, (i < 3)%nat -> transient (fetch_result env i) = true) ->
     run.1 = outcome (fetch_result env 2%nat) ∧ attempts run.2 = 3%nat)
  ∧ (∀ e, run.1.2 = Some e ->
          handleEvent TrimSpace ToLower cf env ev cl
          = (imapclient.EndProcess cl,
             run.2 ++ [EffLog "解析邮件失败 UID=%d: %v"
                         [imapclient.AInt uid; imapclient.AErr (Some e)];
                       EffEndProcess])).
Proof.
  intros uid run. subst run. unfold fetchWithRetry.
  change (Z.to_nat (maxFetchRetry + 1)) with 3%nat.
  split; [exact transientRe_spec |]. split.
  { pose proof (fetchLoop_attempts_le (Debug cf) uid (fetch_result env) 3 0
                  (None, None)).
    lia. }
  split.
  { intros k Hk Hpre Hstop.
    apply (fetchLoop_stops (Debug cf) uid (fetch_result env) 3 0 (None, None) k Hk);
      assumption. }
  split.
  { intros Hall.
    apply (fetchLoop_exhausts (Debug cf) uid (fetch_result env) 3 0 (None, None)).
    exact Hall. }
  intros e He. unfold handleEvent, fetchWithRetry.
  change (Z.to_nat (maxFetchRetry + 1)) with 3%nat. fold uid.
  destruct (fetchLoop (Debug cf) uid (fetch_result env) 3 0 (None, None))
    as [[msg perr] effs].
  cbn [fst snd] in *. subst perr. reflexivity.
Qed.

Lemma transient_fetch_errors_retried_witness :
  attempts (fetchWithRetry false 1234 (fetch_result resetThenGone)).2 = 2%nat
  ∧ attempts (fetchWithRetry false 1234 (fetch_result alwaysTimesOut)).2 = 3%nat
  ∧ (handleEvent id id imapclient.exampleConfig resetThenGone (imapclient.mkEvent 1234)
       (imapclient.BeginProcess (imapclient.New imapclient.exampleConfig))).2
    = [EffFetchAndParse 1234; EffSleep (150 * Millisecond); EffFetchAndParse 1234;
       EffLog "解析邮件失败 UID=%d: %v"
         [imapclient.AInt 1234; imapclient.AErr (Some "message not found")];
       EffEndProcess].
Proof.
  pose proof (transient_fetch_errors_retried id id imapclient.exampleConfig
                resetThenGone (imapclient.mkEvent 1234)
                (imapclient.BeginProcess (imapclient.New imapclient.exampleConfig)))
    as (_ & _ & Hstop & _ & Hlog).
  pose proof (transient_fetch_errors_retried id id imapclient.exampleConfig
                alwaysTimesOut (imapclient.mkEvent 1234)
                (imapclient.New imapclient.exampleConfig))
    as (_ & _ & _ & Hall & _).
  split; [| split].
  - apply (Hstop 1%nat); [lia | |].
    + intros i Hi. replace i with 0%nat by lia. vm_compute. reflexivity.
    + vm_compute. reflexivity.
  - apply Hall. intros i Hi. vm_compute. reflexivity.
  - rewrite (Hlog "message not found"); [reflexivity |]. vm_compute. reflexivity.
Defined.

End monitor_proofs.

Module imapclient_extra.
Import config imapclient imapclient_proofs.

(** ** The session, beyond the claims *)

Lemma delivered_length_le sel msgs : ∀ i, (length (delivered sel i msgs) <= length msgs)%nat.
Proof.
  induction msgs as [| m msgs IH]; intros i; cbn; [lia |].
  rewrite length_app. specialize (IH (S i)). destruct (sel i); cbn; lia.
Qed.

Lemma delivered_sublist sel msgs : ∀ i, sublist (uids (delivered sel i msgs)) (map Uid msgs).
Proof.
  induction msgs as [| m msgs IH]; intros i; cbn; [constructor |].
  destruct (sel i); cbn; [apply sublist_skip | apply sublist_cons]; apply IH.
Qed.

Lemma emit_all_counts (sel : nat -> bool) (msgs : list Message) : ∀ (i : nat) (w : World),
  0 <= activeFetches (client w) ->
  activeFetches (client w) + Z.of_nat (length msgs) <= maxInt ->
  ∃ lines,
    emit_all sel i msgs w
    = (tt, mkWorld
             (set_activeFetches
                (activeFetches (client w) + Z.of_nat (length (delivered sel i msgs)))
                (client w))
             (now w) (wire w) (logs w ++ lines) (slept w)
             (emitted w ++ delivered sel i msgs)).
Proof.
  induction msgs as [| m msgs IH]; intros i w Hlo Hhi.
  - exists []. cbn. rewrite Z.add_0_r, set_activeFetches_same, !app_nil_r.
    destruct w; reflexivity.
  - rewrite length_cons, Nat2Z.inj_succ in Hhi.
    assert (activeFetches (BeginProcess (client w)) = activeFetches (client w) + 1)
      as Hbegin by (apply activeFetches_BeginProcess; lia).
    assert (EndProcess (BeginProcess (client w)) = client w) as Hend.
    { unfold EndProcess. rewrite Hbegin.
      destruct (Z.ltb_spec 0 (activeFetches (client w) + 1)); [| lia].
      unfold BeginProcess, set_activeFetches.
      cbn [cfg c closed opStats activeFetches].
      replace (activeFetches (client w) + 1 - 1) with (activeFetches (client w)) by lia.
      rewrite wrapInt_id by (unfold minInt; lia). destruct (client w); reflexivity. }
    pose proof (delivered_length_le sel msgs (S i)) as Hdl.
    cbn [emit_all delivered]. unfold mbind, M_bind. rewrite debugf_eq.
    unfold modifyClient, push. simp_M.
    destruct (sel i); simp_M.
    + match goal with |- context [emit_all sel (S i) msgs ?w1] =>
        pose proof (IH (S i) w1) as IH'
      end.
      cbn [client now wire logs slept emitted] in IH'. rewrite Hbegin in IH'.
      destruct IH' as [lines ->]; [lia | lia |].
      exists (debugLines (cfg (client w)) "emit uid=%d" [AInt (Uid m)] ++ lines).
      rewrite length_app, Nat2Z.inj_add. cbn [length app].
      rewrite <- !app_assoc. cbn [app].
      do 2 f_equal. unfold set_activeFetches, BeginProcess.
      cbn [cfg c closed opStats activeFetches]. f_equal. lia.
    + rewrite Hend.
      match goal with |- context [emit_all sel (S i) msgs ?w1] =>
        pose proof (IH (S i) w1) as IH'
      end.
      cbn [client now wire logs slept emitted] in IH'.
      destruct IH' as [lines ->]; [lia | lia |].
      exists (debugLines (cfg (client w)) "emit uid=%d" [AInt (Uid m)] ++ lines).
      cbn [app]. rewrite <- !app_assoc. reflexivity.
Qed.

Lemma reset_world (tag : string) (err : error) (w : World) :
  reset tag err w
  = (tt, mkWorld (set_c None (client w)) (now w)
           (wire w ++ match c (client w) with Some h => [OpLogout h] | None => [] end)
           (logs w ++ [Printf "reset connection: %s: %v" [AStr tag; AErr err]])
           (slept w) (emitted w)).
Proof.
  unfold reset. run_M. destruct (c (client w)) as [h |] eqn:Hc; simp_M.
  - reflexivity.
  - rewrite app_nil_r. do 2 f_equal.
    destruct (client w); cbn in *; subst; reflexivity.
Qed.

Lemma fetch_and_emit_returns (env : HandleEnv) (n b : Z) (w : World) :
  (fetch_and_emit env n b w).1 = (true, n).
Proof.
  unfold fetch_and_emit, mbind, M_bind.
  destruct (Exec _ _ _ w) as [[e |] w1]; unfold logPrintf; simp_M.
  - rewrite debugf_eq. reflexivity.
  - destruct (emit_all _ _ _ w1) as [u w2]. rewrite debugf_eq. reflexivity.
Qed.

(** What [handleNewMessages] returns: [true] with the baseline at the observed
    count, or [false] with the baseline and the channel as they were. *)
Lemma handleNewMessages_result (env : HandleEnv) (n b : Z) (idling : bool) (w : World) :
  ((handleNewMessages env n b idling w).1 = (true, n) ∧ b < n)
  ∨ ((handleNewMessages env n b idling w).1 = (false, b)
     ∧ emitted (handleNewMessages env n b idling w).2 = emitted w).
Proof.
  unfold handleNewMessages.
  destruct (Z.leb_spec n b) as [Hle | Hlt]; [right; done |].
  unfold mbind, M_bind. rewrite debugf_eq.
  destruct idling; [| left; split; [apply fetch_and_emit_returns | lia]].
  destruct (ctx_done_on_entry env); [right; done |].
  destruct (idle_done env) as [e |];
    [| left; split; [apply fetch_and_emit_returns | lia]].
  right. rewrite reset_world. unfold timeSleep. simp_M. done.
Qed.

Lemma drain_then_cases (env : DrainEnv) (x : Next) (w : World) :
  (drain_then env (mret x) w).1 = x ∨ (drain_then env (mret x) w).1 = DrainOutOfFuel.
Proof.
  unfold drain_then, getClient, mbind, M_bind. simp_M.
  destruct (drain _ env w) as [[d |] w1]; cbn; auto.
Qed.

(** After [handleNewMessages], with or without the drain: the loop goes on
    with a baseline that is not lower, and not to the reconnect. *)
Lemma after_handle_cases (be : BranchEnv) (n b : Z) (idling : bool) (w : World)
    (stay : Z -> Next) :
  (∀ b', stay b' = GotoIdleStart b' ∨ ∃ d, stay b' = StaySelecting b' d) ->
  let nxt :=
    ((handleNewMessages (handle_env be) n b idling ≫= λ r : bool * Z,
      if r.1 then drain_then (drain_env be) (mret (GotoIdleStart r.2))
      else mret (stay r.2)) w).1 in
  not_lower b nxt ∧ not_reconnect nxt.
Proof.
  intros Hstay nxt. subst nxt. unfold mbind, M_bind.
  pose proof (handleNewMessages_result (handle_env be) n b idling w) as Hres.
  destruct (handleNewMessages (handle_env be) n b idling w) as [[ok b'] w1].
  cbn [fst snd] in *.
  assert (b <= b') as Hb by (destruct Hres as [[? ?] | [? ?]]; simplify_eq; lia).
  destruct ok; cbn iota.
  - destruct (drain_then_cases (drain_env be) (GotoIdleStart b') w1) as [-> | ->];
      split; cbn; done.
  - unfold mret, M_ret. cbn [fst].
    destruct (Hstay b') as [-> | [d ->]]; split; cbn; done.
Qed.

Lemma bind_run {A B : Type} (m : M A) (k : A -> M B) (w : World) :
  (m ≫= k) w = k (m w).1 (m w).2.
Proof. unfold mbind, M_bind. destruct (m w); reflexivity. Qed.

Lemma status_run (answer : string + Z) (w : World) :
  status answer w
  = match c (client w) with
    | None => (None, w)
    | Some h =>
        (Some answer,
         mkWorld (client w) (now w) (wire w ++ [OpSelect h (Mailbox (cfg (client w)))])
           (logs w) (slept w) (emitted w))
    end.
Proof. unfold status. run_M. destruct (c (client w)); reflexivity. Qed.

Lemma timeSleep_run (d : Z) (w : World) :
  timeSleep d w
  = (tt, mkWorld (client w) (now w + d) (wire w) (logs w) (slept w ++ [d]) (emitted w)).
Proof. reflexivity. Qed.

Ltac step_M :=
  repeat (rewrite ?bind_run, ?reset_world, ?debugf_eq, ?timeSleep_run;
          cbn [fst snd client now wire logs slept emitted mret M_ret]).

Lemma requery_cases (be : BranchEnv) (b : Z) (tag : string) (announce : bool)
    (w : World) :
  not_lower b (requery be b tag announce w).1
  ∧ ((requery be b tag announce w).1 = GotoReconnect ->
     c (client (requery be b tag announce w).2) = None
     ∧ ∃ pre, slept (requery be b tag announce w).2 = pre ++ [2 * Second]).
Proof.
  unfold requery. rewrite bind_run, status_run.
  destruct (c (client w)) as [h |]; cbn [fst snd];
    [| split; [exact I | discriminate]].
  destruct (status_answer be) as [e | n].
  - step_M. split; [exact I |]. intros _. split; [reflexivity | eauto].
  - destruct (Z.ltb_spec b n) as [Hlt | Hge];
      [| split; [cbn; lia | discriminate]].
    rewrite bind_run.
    match goal with |- context [(handleNewMessages ?e n b false ≫= ?k) ?w0] =>
      destruct (after_handle_cases be n b false w0 GotoIdleStart) as [Hnl Hnr];
        [intros; by left |]
    end.
    split; [assumption | intros Heq; contradiction].
Qed.

Lemma stop_idle_cases (be : BranchEnv) (dead : bool) (tag : string) (k : M Next)
    (b : Z) (w : World) :
  (∀ w0, pass_ok b (k w0)) -> pass_ok b (stop_idle be dead tag k w).
Proof.
  intros Hk. unfold stop_idle.
  destruct dead; [split; [exact I | discriminate] |].
  destruct (stopped_with be) as [e |]; [| apply Hk].
  step_M. split; [exact I |]. intros _. split; [reflexivity | eauto].
Qed.

Lemma select_pass_tick (be : BranchEnv) (b : Z) (dead : bool) (w : World) :
  select_pass CaseTick be b dead w
  = if tickerC (cfg (client w))
    then (debugf "poll tick baseline=%d" [AInt b];;
          stop_idle be dead "idle exit on poll" (requery be b "status poll" true)) w
    else (NeverReady, w).
Proof.
  cbn [select_pass]. rewrite bind_run. unfold getClient. cbn [fst snd].
  destruct (tickerC (cfg (client w))); reflexivity.
Qed.

Lemma select_pass_cases (sc : SelectCase) (be : BranchEnv) (b : Z) (dead : bool)
    (w : World) :
  pass_ok b (select_pass sc be b dead w).
Proof.
  destruct sc as [ctxerr | err | [[n |] | [seqnum |] |] |];
    [cbn [select_pass] .. |].
  - destruct dead; split; first [exact I | discriminate].
  - destruct dead; [split; [exact I | discriminate] |].
    destruct err as [e |]; step_M.
    + split; [exact I |]. intros _. split; [reflexivity | eauto].
    + split; [cbn; lia | discriminate].
  - destruct (Z.ltb_spec b n) as [Hlt | Hge];
      [| split; [cbn; lia | discriminate]].
    rewrite bind_run, debugf_eq. cbn [fst snd].
    destruct (dead && negb (ctx_done_on_entry (handle_env be))).
    + step_M. split; [exact I | discriminate].
    + match goal with |- context [(handleNewMessages ?e n b true ≫= ?k) ?w0] =>
        destruct (after_handle_cases be n b true w0
                    (λ b', StaySelecting b'
                             (dead || negb (ctx_done_on_entry (handle_env be)))))
          as [Hnl Hnr]; [intros; right; eauto |]
      end.
      split; [assumption | intros Heq; contradiction].
  - split; [cbn; lia | discriminate].
  - rewrite bind_run, debugf_eq. cbn [fst snd].
    apply stop_idle_cases. intros w0. apply requery_cases.
  - split; [cbn; lia | discriminate].
  - split; [cbn; lia | discriminate].
  - rewrite select_pass_tick.
    destruct (tickerC (cfg (client w))); [| split; [exact I | discriminate]].
    rewrite bind_run, debugf_eq. cbn [fst snd].
    apply stop_idle_cases. intros w0. apply requery_cases.
Qed.

(** X10. Within one session of [IdleLoop], whatever the server and the
    consumer do, the baseline the loop holds never goes down: wherever the
    loop stands after any number of turns, its baseline is at least the one
    it started from. *)
Theorem session_baseline_never_lowered (turns : list Turn) : ∀ (l l' : Loc) (w : World),
  (idle_run turns l w).1 = Pending l' -> baseline_at l <= baseline_at l'.
Proof.
  induction turns as [| t turns IH]; intros l l' w Hrun.
  - cbn in Hrun. injection Hrun as <-. lia.
  - destruct t as [[e |] | sc be], l as [b | b dead]; cbn [idle_run] in Hrun;
      try discriminate.
    + rewrite bind_run, debugf_eq in Hrun. cbn [fst snd] in Hrun.
      apply IH in Hrun. exact Hrun.
    + rewrite bind_run in Hrun.
      destruct (select_pass_cases sc be b dead w) as [Hnl _].
      destruct (select_pass sc be b dead w) as [nxt w1]. cbn [fst snd] in *.
      destruct nxt; cbn in Hnl; try discriminate.
      * apply IH in Hrun. cbn in *. lia.
      * apply IH in Hrun. cbn in *. lia.
Qed.

Lemma session_baseline_never_lowered_witness :
  (idle_run growthSession (AtIdleStart 42) liveWorld).1 = Pending (AtSelect 43 false)
  ∧ baseline_at (AtIdleStart 42) <= baseline_at (AtSelect 43 false).
Proof.
  split; [vm_compute; reflexivity |].
  apply (session_baseline_never_lowered growthSession (AtIdleStart 42)
           (AtSelect 43 false) liveWorld).
  vm_compute. reflexivity.
Defined.

(** X11. Every way from the long-poll of a session to the reconnect goes
    through [reset] and two sleeps of 2 s, the one of the failing branch and
    the one at the label [RECONNECT]: the session pointer is nil and the last
    two sleeps are 2 s each when the outer loop starts over. *)
Theorem session_reconnect_after_reset_and_four_seconds (turns : list Turn) :
  ∀ (l : Loc) (w : World),
  (idle_run turns l w).1 = Reconnect ->
  c (client (idle_run turns l w).2) = None
  ∧ ∃ pre, slept (idle_run turns l w).2 = pre ++ [2 * Second; 2 * Second].
Proof.
  induction turns as [| t turns IH]; intros l w Hrun.
  - discriminate.
  - destruct t as [[e |] | sc be], l as [b | b dead]; cbn [idle_run] in Hrun |- *;
      try discriminate.
    + rewrite bind_run, debugf_eq in Hrun |- *. cbn [fst snd] in Hrun |- *.
      apply IH. exact Hrun.
    + rewrite bind_run in Hrun |- *.
      destruct (select_pass_cases sc be b dead w) as [_ Hrec].
      destruct (select_pass sc be b dead w) as [nxt w1]. cbn [fst snd] in *.
      destruct nxt; try discriminate.
      * apply IH. exact Hrun.
      * apply IH. exact Hrun.
      * destruct (Hrec eq_refl) as [Hc [pre Hsl]].
        step_M. split; [exact Hc |]. exists pre. rewrite Hsl, <- app_assoc. reflexivity.
Qed.

Lemma session_reconnect_after_reset_and_four_seconds_witness :
  c (client (idle_run lostConnection (AtIdleStart 42) liveWorld).2) = None
  ∧ ∃ pre, slept (idle_run lostConnection (AtIdleStart 42) liveWorld).2
           = pre ++ [2 * Second; 2 * Second].
Proof.
  apply (session_reconnect_after_reset_and_four_seconds lostConnection
           (AtIdleStart 42) liveWorld).
  vm_compute. reflexivity.
Defined.

Lemma select_pass_dead (sc : SelectCase) (be : BranchEnv) (b : Z) (w : World) :
  c (client (select_pass sc be b true w).2) = c (client w)
  ∧ ((select_pass sc be b true w).1 = StaySelecting b true
     ∨ (select_pass sc be b true w).1 = Panicked closeOfClosed
     ∨ (select_pass sc be b true w).1 = NeverReady).
Proof.
  destruct sc as [ctxerr | err | [[n |] | [seqnum |] |] |];
    [cbn [select_pass] .. |].
  - cbn. auto.
  - cbn. auto.
  - destruct (Z.ltb_spec b n) as [Hlt | Hge]; [| cbn; auto].
    rewrite bind_run, debugf_eq. cbn [fst snd andb].
    destruct (ctx_done_on_entry (handle_env be)) eqn:Hctx; cbn [negb].
    + rewrite bind_run. unfold handleNewMessages.
      destruct (Z.leb_spec n b); [lia |].
      rewrite bind_run, debugf_eq, Hctx. cbn. auto.
    + step_M. auto.
  - cbn. auto.
  - rewrite bind_run, debugf_eq. cbn. auto.
  - cbn. auto.
  - cbn. auto.
  - rewrite select_pass_tick.
    destruct (tickerC (cfg (client w))); [| cbn; auto].
    rewrite bind_run, debugf_eq. cbn. auto.
Qed.

Lemma idle_run_dead (turns : list Turn) : ∀ (b : Z) (w : World),
  c (client (idle_run turns (AtSelect b true) w).2) = c (client w)
  ∧ ((idle_run turns (AtSelect b true) w).1 = Pending (AtSelect b true)
     ∨ (idle_run turns (AtSelect b true) w).1 = Panic closeOfClosed
     ∨ (idle_run turns (AtSelect b true) w).1 = Blocked
     ∨ (idle_run turns (AtSelect b true) w).1 = Mismatch).
Proof.
  induction turns as [| t turns IH]; intros b w; [cbn; auto |].
  destruct t as [ce | sc be]; [destruct ce; cbn; auto |].
  cbn [idle_run]. rewrite bind_run.
  destruct (select_pass_dead sc be b w) as [Hc Hcases].
  destruct (select_pass sc be b true w) as [nxt w1]. cbn [fst snd] in *.
  destruct Hcases as [-> | [-> | ->]].
  - destruct (IH b w1) as [Hc' Hcases']. rewrite Hc', Hc. auto.
  - cbn. auto 6.
  - cbn. auto 6.
Qed.

(** X12. When a mailbox update shows growth and the long-poll, stopped by
    [handleNewMessages], reports an error, the session is reset but the loop
    stays in its [select] with [stop] closed and [done] drained. From there
    it never reaches the reconnect and never returns: for every continuation
    it is still waiting in the [select] without a session, or it has panicked
    closing [stop] a second time, or it waits for a case that cannot fire. *)
Theorem long_poll_error_under_handle_wedges_session (be : BranchEnv) (n b : Z)
    (e : string) (turns : list Turn) (w : World) :
  b < n ->
  ctx_done_on_entry (handle_env be) = false ->
  idle_done (handle_env be) = Some e ->
  let first := select_pass (CaseUpdate (MailboxUpdate (Some n))) be b false w in
  let run :=
    idle_run (TurnSelect (CaseUpdate (MailboxUpdate (Some n))) be :: turns)
      (AtSelect b false) w in
  first.1 = StaySelecting b true
  ∧ c (client run.2) = None
  ∧ (run.1 = Pending (AtSelect b true) ∨ run.1 = Panic closeOfClosed
     ∨ run.1 = Blocked ∨ run.1 = Mismatch).
Proof.
  intros Hlt Hctx Hdone first run. subst first run.
  assert (select_pass (CaseUpdate (MailboxUpdate (Some n))) be b false w
          = (StaySelecting b true,
             (handleNewMessages (handle_env be) n b true
                (debugf "MailboxUpdate messages=%d baseline=%d" [AInt n; AInt b] w).2).2)
          ∧ c (client (handleNewMessages (handle_env be) n b true
                (debugf "MailboxUpdate messages=%d baseline=%d" [AInt n; AInt b] w).2).2)
            = None) as [Hpass Hc].
  { cbn [select_pass]. destruct (Z.ltb_spec b n); [| lia].
    rewrite bind_run. cbn [andb]. rewrite bind_run.
    unfold handleNewMessages. destruct (Z.leb_spec n b); [lia |].
    rewrite bind_run, !debugf_eq, Hctx, Hdone. step_M. cbn. done. }
  split; [rewrite Hpass; reflexivity |].
  cbn [idle_run]. rewrite bind_run, Hpass. cbn [fst snd].
  destruct (idle_run_dead turns b
              (handleNewMessages (handle_env be) n b true
                 (debugf "MailboxUpdate messages=%d baseline=%d" [AInt n; AInt b] w).2).2)
    as [Hc' Hcases].
  split; [rewrite Hc'; exact Hc | exact Hcases].
Qed.

Lemma long_poll_error_under_handle_wedges_session_witness :
  let run :=
    idle_run [TurnSelect (CaseUpdate (MailboxUpdate (Some 43))) brokenBranch;
              TurnSelect CaseTick growthBranch]
      (AtSelect 42 false) liveWorld in
  c (client run.2) = None
  ∧ (run.1 = Pending (AtSelect 42 true) ∨ run.1 = Panic closeOfClosed
     ∨ run.1 = Blocked ∨ run.1 = Mismatch).
Proof.
  apply (long_poll_error_under_handle_wedges_session brokenBranch 43 42 "EOF"
           [TurnSelect CaseTick growthBranch] liveWorld).
  - lia.
  - reflexivity.
  - reflexivity.
Defined.

(** ** handleNewMessages, beyond the claims *)

(** X1. [handleNewMessages] never lowers the baseline: it returns true with
    the baseline at the observed count, which was above it, or false with the
    baseline untouched and nothing pushed. *)
Theorem handleNewMessages_never_lowers_baseline (env : HandleEnv) (n b : Z)
    (idling : bool) (w : World) :
  let r := handleNewMessages env n b idling w in
  b <= r.1.2
  ∧ (r.1.1 = true -> r.1.2 = n ∧ b < n)
  ∧ (r.1.1 = false -> r.1.2 = b ∧ emitted r.2 = emitted w).
Proof.
  intros r. subst r.
  destruct (handleNewMessages_result env n b idling w) as [[Hr Hlt] | [Hr Hev]];
    rewrite Hr; cbn; repeat split; try lia; try discriminate; auto.
Qed.

(** X2. When the long-poll, stopped by [handleNewMessages], reports an error,
    the session is reset (logged out if it was there), the engine sleeps 2 s
    and the call returns false: nothing is fetched or pushed and the baseline
    stays. *)
Theorem handleNewMessages_idle_error_resets (env : HandleEnv) (n b : Z) (e : string)
    (w : World) :
  b < n ->
  ctx_done_on_entry env = false ->
  idle_done env = Some e ->
  let r := handleNewMessages env n b true w in
  r.1 = (false, b)
  ∧ c (client r.2) = None
  ∧ wire r.2 = wire w ++ match c (client w) with Some h => [OpLogout h] | None => [] end
  ∧ slept r.2 = slept w ++ [2 * Second]
  ∧ emitted r.2 = emitted w
  ∧ Printf "reset connection: %s: %v" [AStr "idle exit before fetch"; AErr (Some e)]
    ∈ logs r.2.
Proof.
  intros Hlt Hctx Hdone r. subst r. unfold handleNewMessages.
  destruct (Z.leb_spec n b); [lia |].
  rewrite bind_run, debugf_eq, Hctx, Hdone. step_M.
  repeat split; try reflexivity.
  rewrite !elem_of_app, !list_elem_of_singleton. auto.
Qed.

Lemma handleNewMessages_idle_error_resets_witness :
  let r := handleNewMessages idleBreaks 43 42 true liveWorld in
  r.1 = (false, 42)
  ∧ c (client r.2) = None
  ∧ wire r.2 = [OpLogout 7%nat]
  ∧ slept r.2 = [2 * Second]
  ∧ emitted r.2 = [].
Proof.
  destruct (handleNewMessages_idle_error_resets idleBreaks 43 42 "EOF" liveWorld)
    as (H1 & H2 & H3 & H4 & H5 & _).
  - lia.
  - reflexivity.
  - reflexivity.
  - split; [exact H1 |]. split; [exact H2 |]. split; [exact H3 |].
    split; [exact H4 | exact H5].
Defined.

Lemma fetch_and_emit_counts (env : HandleEnv) (n b : Z) (w : World) :
  fetchError env (client w) = None ->
  0 <= activeFetches (client w) ->
  activeFetches (client w) + Z.of_nat (length (fetch_msgs env)) <= maxInt ->
  ∃ w',
    fetch_and_emit env n b w = ((true, n), w')
    ∧ emitted w' = emitted w ++ delivered (send_proceeds env) 0 (fetch_msgs env)
    ∧ activeFetches (client w')
      = activeFetches (client w)
        + Z.of_nat (length (delivered (send_proceeds env) 0 (fetch_msgs env))).
Proof.
  unfold fetchError, fetch_and_emit. intros Herr Hlo Hhi.
  destruct (c (client w)) as [h |] eqn:Hc; [| discriminate].
  unfold mbind, M_bind.
  destruct (Exec_live (fetch_env env) "fetch-uids"
              (λ h, OpFetchUid h (wrapU32 (b + 1)) n) w h Hc) as [lines ->].
  rewrite Herr.
  match goal with |- context [emit_all _ 0 _ ?w1] =>
    pose proof (emit_all_counts (send_proceeds env) (fetch_msgs env) 0 w1) as Hemit
  end.
  cbn [client now wire logs slept emitted] in Hemit.
  destruct Hemit as [lines' ->]; [exact Hlo | exact Hhi |].
  rewrite debugf_eq. simp_M.
  eexists. split; [reflexivity |]. simp_M. split; reflexivity.
Qed.

(** X3. Whatever pushes a cancellation interrupts, after a successful UID
    fetch the counter has grown by exactly the number of events pushed, the
    events pushed are those of the messages whose send went through, in the
    order fetched, and the baseline is the observed count all the same. *)
Theorem handleNewMessages_counts_what_it_pushes (env : HandleEnv) (n b : Z)
    (idling : bool) (w : World) :
  b < n ->
  (idling = true -> ctx_done_on_entry env = false ∧ idle_done env = None) ->
  fetchError env (client w) = None ->
  0 <= activeFetches (client w) ->
  activeFetches (client w) + Z.of_nat (length (fetch_msgs env)) <= maxInt ->
  ∃ evs w',
    handleNewMessages env n b idling w = ((true, n), w')
    ∧ emitted w' = emitted w ++ evs
    ∧ evs = delivered (send_proceeds env) 0 (fetch_msgs env)
    ∧ sublist (uids evs) (map Uid (fetch_msgs env))
    ∧ activeFetches (client w') = activeFetches (client w) + Z.of_nat (length evs).
Proof.
  intros Hlt Hidle Herr Hlo Hhi.
  destruct (handleNewMessages_reaches_fetch env n b idling w Hlt Hidle) as [lines ->].
  destruct (fetch_and_emit_counts env n b
              (mkWorld (client w) (now w) (wire w) (logs w ++ lines) (slept w)
                 (emitted w)))
    as (w' & Hrun & Hev & Hact); cbn [client]; try assumption.
  cbn [client emitted] in *.
  exists (delivered (send_proceeds env) 0 (fetch_msgs env)), w'.
  repeat split; try assumption. apply delivered_sublist.
Qed.

Lemma handleNewMessages_counts_what_it_pushes_witness :
  ∃ evs w',
    handleNewMessages grows42to43 43 42 true liveWorld = ((true, 43), w')
    ∧ emitted w' = emitted liveWorld ++ evs
    ∧ evs = delivered (send_proceeds grows42to43) 0 (fetch_msgs grows42to43)
    ∧ sublist (uids evs) (map Uid (fetch_msgs grows42to43))
    ∧ activeFetches (client w')
      = activeFetches (client liveWorld) + Z.of_nat (length evs).
Proof.
  apply (handleNewMessages_counts_what_it_pushes grows42to43 43 42 true liveWorld).
  - lia.
  - intros _. split; reflexivity.
  - reflexivity.
  - vm_compute. discriminate.
  - vm_compute. discriminate.
Defined.

(** ** drain, beyond the claims *)

Lemma EndProcess_frame (cl : Client) :
  cfg (EndProcess cl) = cfg cl ∧ c (EndProcess cl) = c cl
  ∧ closed (EndProcess cl) = closed cl ∧ opStats (EndProcess cl) = opStats cl
  ∧ (minInt <= activeFetches cl <= maxInt ->
     minInt <= activeFetches (EndProcess cl) <= maxInt
     ∧ activeFetches (EndProcess cl) <= activeFetches cl).
Proof.
  unfold EndProcess. destruct (Z.ltb_spec 0 (activeFetches cl)); cbn.
  - repeat split; try reflexivity;
      rewrite wrapInt_id; unfold minInt, maxInt in *; lia.
  - repeat split; try reflexivity; lia.
Qed.

Lemma iter_EndProcess_frame (k : nat) (cl : Client) :
  cfg (Nat.iter k EndProcess cl) = cfg cl ∧ c (Nat.iter k EndProcess cl) = c cl
  ∧ closed (Nat.iter k EndProcess cl) = closed cl
  ∧ opStats (Nat.iter k EndProcess cl) = opStats cl
  ∧ (minInt <= activeFetches cl <= maxInt ->
     minInt <= activeFetches (Nat.iter k EndProcess cl) <= maxInt
     ∧ activeFetches (Nat.iter k EndProcess cl) <= activeFetches cl).
Proof.
  induction k as [| k IH].
  { cbn [Nat.iter nat_rect].
    do 4 (split; [reflexivity |]). intros Hr. split; [exact Hr | lia]. }
  change (Nat.iter (S k) EndProcess cl) with (EndProcess (Nat.iter k EndProcess cl)).
  destruct IH as (H1 & H2 & H3 & H4 & H5).
  destruct (EndProcess_frame (Nat.iter k EndProcess cl)) as (G1 & G2 & G3 & G4 & G5).
  split; [congruence |]. split; [congruence |]. split; [congruence |].
  split; [congruence |]. intros Hr. destruct (H5 Hr) as [Hr' Hle].
  destruct (G5 Hr') as [Hr'' Hle']. split; [exact Hr'' | lia].
Qed.

(** What a run of the loop leaves: everything but the clock, the log and the
    counter as it was, the counter not higher, and an exit that means what it
    says. *)
Lemma drain_loop_spec (env : DrainEnv) (deadline : Z) (fuel : nat) :
  ∀ (i : nat) (w : World),
  let r := drain_loop fuel env i deadline w in
  wire r.2 = wire w ∧ slept r.2 = slept w ∧ emitted r.2 = emitted w
  ∧ cfg (client r.2) = cfg (client w) ∧ c (client r.2) = c (client w)
  ∧ closed (client r.2) = closed (client w)
  ∧ opStats (client r.2) = opStats (client w)
  ∧ (minInt <= activeFetches (client w) <= maxInt ->
     minInt <= activeFetches (client r.2) <= maxInt
     ∧ activeFetches (client r.2) <= activeFetches (client w))
  ∧ match r.1 with
    | Some Drained => activeFetches (client r.2) = 0
    | Some TimedOut => activeFetches (client r.2) ≠ 0 ∧ deadline < now r.2
    | Some Cancelled => activeFetches (client r.2) ≠ 0
    | Some Skipped => False
    | None => True
    end.
Proof.
  induction fuel as [| fuel IH]; intros i w r; subst r.
  - cbn. do 7 (split; [reflexivity |]). split; [| exact I].
    intros Hr. split; [exact Hr | lia].
  - cbn [drain_loop]. unfold modifyClient, getClient, timeNow, elapse.
    rewrite !bind_run. cbn [fst snd client now wire logs slept emitted].
    destruct (iter_EndProcess_frame (consumer_ends env i) (client w))
      as (H1 & H2 & H3 & H4 & H5).
    set (cl1 := Nat.iter (consumer_ends env i) EndProcess (client w)) in *.
    destruct (Z.eqb_spec (activeFetches cl1) 0) as [Hz | Hnz].
    { cbn. repeat split; try assumption;
        match goal with Hr : minInt <= _ <= _ |- _ => destruct (H5 Hr); lia end. }
    rewrite bind_run. cbn [fst snd now].
    destruct (Z.ltb_spec deadline (now w)) as [Hlate | Hearly].
    { rewrite bind_run, debugf_eq. cbn. repeat split; try assumption;
        match goal with Hr : minInt <= _ <= _ |- _ => destruct (H5 Hr); lia end. }
    destruct (ctx_done env i) as [d |].
    { rewrite bind_run. cbn. repeat split; try assumption;
        match goal with Hr : minInt <= _ <= _ |- _ => destruct (H5 Hr); lia end. }
    rewrite bind_run. cbn [fst snd].
    match goal with |- context [drain_loop fuel env (S i) deadline ?w1] =>
      specialize (IH (S i) w1); cbn zeta in IH;
        destruct (drain_loop fuel env (S i) deadline w1) as [res w2]
    end.
    cbn [fst snd client now wire logs slept emitted] in *.
    destruct IH as (I1 & I2 & I3 & I4 & I5 & I6 & I7 & I8 & I9).
    do 7 (split; [congruence |]). split; [| exact I9].
    intros Hr. destruct (H5 Hr) as [Hr1 Hle1]. destruct (I8 Hr1).
    split; [assumption | lia].
Qed.

(** X4. [drain] only waits: it sends nothing, sleeps through no
    [time.Sleep], pushes nothing and leaves the session, the closed flag and
    the statistics alone; the counter, which only the consumer moves
    meanwhile, is not higher afterwards. *)
Theorem drain_only_waits (fuel : nat) (env : DrainEnv) (w : World) :
  let r := drain fuel env w in
  wire r.2 = wire w ∧ slept r.2 = slept w ∧ emitted r.2 = emitted w
  ∧ c (client r.2) = c (client w) ∧ closed (client r.2) = closed (client w)
  ∧ Stats (client r.2) = Stats (client w)
  ∧ (minInt <= activeFetches (client w) <= maxInt ->
     activeFetches (client r.2) <= activeFetches (client w)).
Proof.
  intros r. subst r. unfold drain, getClient, timeNow. rewrite bind_run.
  cbn [fst snd]. destruct (DrainTimeout (cfg (client w)) <=? 0).
  - cbn. do 6 (split; [reflexivity |]). lia.
  - rewrite bind_run. cbn [fst snd].
    destruct (drain_loop_spec env (now w + DrainTimeout (cfg (client w))) fuel 0 w)
      as (I1 & I2 & I3 & I4 & I5 & I6 & I7 & I8 & I9).
    unfold Stats. do 6 (split; [assumption |]). intros Hr. apply I8, Hr.
Qed.

(** X5. The exit of [drain] means what it says: it reports the drain done
    only with the counter at zero, and a timeout only with work still in
    flight and the clock strictly past the deadline; it skips only for a
    timeout that is not positive, leaving the world as it was. *)
Theorem drain_exit_meaning (fuel : nat) (env : DrainEnv) (w : World) (x : DrainExit) :
  (drain fuel env w).1 = Some x ->
  match x with
  | Skipped => DrainTimeout (cfg (client w)) <= 0 ∧ (drain fuel env w).2 = w
  | Drained =>
      0 < DrainTimeout (cfg (client w))
      ∧ activeFetches (client (drain fuel env w).2) = 0
  | TimedOut =>
      activeFetches (client (drain fuel env w).2) ≠ 0
      ∧ now w + DrainTimeout (cfg (client w)) < now (drain fuel env w).2
  | Cancelled =>
      0 < DrainTimeout (cfg (client w))
      ∧ activeFetches (client (drain fuel env w).2) ≠ 0
  end.
Proof.
  unfold drain, getClient, timeNow. rewrite bind_run. cbn [fst snd].
  destruct (Z.leb_spec (DrainTimeout (cfg (client w))) 0) as [Hskip | Hpos].
  - cbn. intros [= <-]. done.
  - rewrite bind_run. cbn [fst snd].
    destruct (drain_loop_spec env (now w + DrainTimeout (cfg (client w))) fuel 0 w)
      as (_ & _ & _ & _ & _ & _ & _ & _ & I9).
    intros Hx. rewrite Hx in I9. destruct x; try done.
Qed.

Lemma drain_exit_meaning_witness :
  activeFetches (client (drain (drain_fuel (250 * Millisecond)) stuckConsumer busy250).2)
    ≠ 0
  ∧ now busy250 + DrainTimeout (cfg (client busy250))
    < now (drain (drain_fuel (250 * Millisecond)) stuckConsumer busy250).2.
Proof.
  apply (drain_exit_meaning (drain_fuel (250 * Millisecond)) stuckConsumer busy250
           TimedOut).
  vm_compute. reflexivity.
Defined.

(** ** Close and reset *)

Lemma Close_run (logout_result : error) (w : World) :
  Close logout_result w
  = match c (client w) with
    | Some h =>
        (logout_result,
         mkWorld (set_closed true (client w)) (now w) (wire w ++ [OpLogout h])
           (logs w) (slept w) (emitted w))
    | None =>
        (None,
         mkWorld (set_closed true (client w)) (now w) (wire w) (logs w) (slept w)
           (emitted w))
    end.
Proof.
  unfold Close. run_M. cbn [c set_closed].
  destruct (c (client w)); reflexivity.
Qed.

Lemma Connect_closed (env : ConnectEnv) (w : World) :
  closed (client w) = true -> Connect env w = (Some "client closed", w).
Proof. intros Hcl. unfold Connect. run_M. rewrite Hcl. reflexivity. Qed.

Lemma IdleLoop_connecting_closed (envs : list ConnectEnv) : ∀ (w : World) (k : nat),
  closed (client w) = true ->
  ∃ w', IdleLoop_connecting (map Attempt envs) (retryDelay k) w
        = (Retrying (retryDelay (k + length envs)), w')
      ∧ wire w' = wire w ∧ client w' = client w
      ∧ slept w' = slept w ++ map retryDelay (seq k (length envs)).
Proof.
  induction envs as [| env envs IH]; intros w k Hcl.
  - exists w. cbn. rewrite Nat.add_0_r, app_nil_r. done.
  - cbn [map IdleLoop_connecting]. rewrite bind_run, (Connect_closed env w Hcl).
    cbn [fst snd]. rewrite retryDelay_next. unfold logPrintf.
    rewrite !bind_run, timeSleep_run. cbn [fst snd client now wire logs slept emitted].
    match goal with |- context [IdleLoop_connecting _ _ ?w1] =>
      destruct (IH w1 (S k) Hcl) as (w' & Hrun & Hwire & Hclient & Hsl)
    end.
    cbn [client wire slept] in *.
    exists w'. rewrite Hrun. split; [do 3 f_equal; cbn [length]; lia |].
    split; [exact Hwire |]. split; [exact Hclient |].
    rewrite Hsl, <- app_assoc. reflexivity.
Qed.

(** X6. After [Close], [Connect] always fails with "client closed" and
    touches nothing, so the reconnect loop of [IdleLoop] never dials again:
    it only sleeps, with the usual backoff, for as long as it is left
    running. *)
Theorem Close_stops_every_reconnect (logout_result : error) (envs : list ConnectEnv)
    (w : World) :
  let w1 := (Close logout_result w).2 in
  (∀ env, Connect env w1 = (Some "client closed", w1))
  ∧ ∃ w', IdleLoop_connect (map Attempt envs) w1
          = (Retrying (retryDelay (length envs)), w')
        ∧ wire w' = wire w1
        ∧ slept w' = slept w1 ++ map retryDelay (seq 0 (length envs)).
Proof.
  intros w1. assert (closed (client w1) = true) as Hcl.
  { subst w1. rewrite Close_run. destruct (c (client w)); reflexivity. }
  split; [intros env; apply Connect_closed, Hcl |].
  destruct (IdleLoop_connecting_closed envs w1 0 Hcl) as (w' & Hrun & Hw & _ & Hs).
  exists w'. unfold IdleLoop_connect. change Second with (retryDelay 0) at 1.
  rewrite Hrun. done.
Qed.

(** X7. [Close] logs out but keeps the session pointer: a second [Close]
    sends a second logout on the same connection, and [Exec] after [Close]
    still puts its command on that connection. *)
Theorem Close_keeps_the_session (r1 r2 : error) (env : ExecEnv) (op : string)
    (fn : Conn -> WireOp) (w : World) (h : Conn) :
  c (client w) = Some h ->
  let w1 := (Close r1 w).2 in
  (Close r1 w).1 = r1
  ∧ c (client w1) = Some h
  ∧ wire w1 = wire w ++ [OpLogout h]
  ∧ wire (Close r2 w1).2 = wire w ++ [OpLogout h; OpLogout h]
  ∧ (Exec env op fn w1).1 = raceError op (race env)
  ∧ wire (Exec env op fn w1).2 = wire w ++ [OpLogout h; fn h].
Proof.
  intros Hc w1. subst w1. rewrite Close_run, Hc. cbn [fst snd client wire].
  split; [reflexivity |]. split; [exact Hc |]. split; [reflexivity |].
  split.
  - rewrite Close_run. cbn [client set_closed c]. rewrite Hc. cbn.
    rewrite <- app_assoc. reflexivity.
  - match goal with |- context [Exec env op fn ?w1] =>
      destruct (Exec_live env op fn w1 h) as [lines ->]; [exact Hc |]
    end.
    cbn. rewrite <- app_assoc. done.
Qed.

Lemma Close_keeps_the_session_witness :
  let w1 := (Close None liveWorld).2 in
  (Close None liveWorld).1 = None
  ∧ c (client w1) = Some 7%nat
  ∧ wire w1 = wire liveWorld ++ [OpLogout 7%nat]
  ∧ wire (Close None w1).2 = wire liveWorld ++ [OpLogout 7%nat; OpLogout 7%nat]
  ∧ (Exec timesOut "fetch" fetchBody w1).1 = raceError "fetch" (race timesOut)
  ∧ wire (Exec timesOut "fetch" fetchBody w1).2
    = wire liveWorld ++ [OpLogout 7%nat; fetchBody 7%nat].
Proof.
  apply (Close_keeps_the_session None None timesOut "fetch" fetchBody liveWorld 7%nat).
  reflexivity.
Defined.

Lemma Connect_succeeds (env : ConnectEnv) (w : World) :
  closed (client w) = false -> c (client w) = None ->
  Forall (λ p, answer env p = None) (plan (cfg (client w))) ->
  (Connect env w).1 = None
  ∧ c (client (Connect env w).2) = Some (dialed env)
  ∧ wire (Connect env w).2
    = wire w ++ map (command (cfg (client w)) (dialed env)) (plan (cfg (client w))).
Proof.
  intros Hclosed Hc Hall. unfold plan, dialed in *.
  unfold Connect, Connect_login. run_M. rewrite Hclosed, Hc.
  destruct (UseTLS (cfg (client w))) eqn:Htls,
           (StartTLS (cfg (client w))) eqn:Hst;
    cbn in Hall |- *; rewrite ?Htls; split_Forall; cbn in *;
    split_M; rewrite <- ?app_assoc; done.
Qed.

(** X8. [reset] drops the session without closing the client, so the next
    [Connect] goes through all its phases again and, against a server that
    accepts them, sets a new session; a [reset] with no session sends
    nothing. *)
Theorem reset_allows_reconnect (tag : string) (err : error) (env : ConnectEnv)
    (w : World) :
  closed (client w) = false ->
  Forall (λ p, answer env p = None) (plan (cfg (client w))) ->
  let w1 := (reset tag err w).2 in
  c (client w1) = None
  ∧ wire w1 = wire w ++ match c (client w) with Some h => [OpLogout h] | None => [] end
  ∧ wire (reset tag err w1).2 = wire w1
  ∧ (Connect env w1).1 = None
  ∧ c (client (Connect env w1).2) = Some (dialed env)
  ∧ wire (Connect env w1).2
    = wire w1 ++ map (command (cfg (client w)) (dialed env)) (plan (cfg (client w))).
Proof.
  intros Hclosed Hall w1. subst w1. rewrite reset_world. cbn [snd client wire].
  split; [reflexivity |]. split; [reflexivity |]. split.
  { rewrite reset_world. cbn. rewrite app_nil_r. reflexivity. }
  match goal with |- context [Connect env ?w1] =>
    destruct (Connect_succeeds env w1) as (H1 & H2 & H3);
      [exact Hclosed | reflexivity | exact Hall |]
  end.
  cbn [client wire set_c cfg] in *. done.
Qed.

Lemma reset_allows_reconnect_witness :
  let w1 := (reset "idle error" (Some "EOF") liveWorld).2 in
  c (client w1) = None
  ∧ wire w1 = [OpLogout 7%nat]
  ∧ (Connect acceptsAll w1).1 = None
  ∧ c (client (Connect acceptsAll w1).2) = Some 7%nat.
Proof.
  destruct (reset_allows_reconnect "idle error" (Some "EOF") acceptsAll liveWorld)
    as (H1 & H2 & _ & H4 & H5 & _).
  - reflexivity.
  - repeat constructor.
  - split; [exact H1 |]. split; [exact H2 |]. split; [exact H4 | exact H5].
Defined.

(** ** The statistics over many calls *)

Lemma failures_le_calls (op : string) calls :
  (length (failures_of op calls) <= length (calls_of op calls))%nat.
Proof. unfold failures_of. apply List.filter_length_le. Qed.

Lemma calls_of_le (op : string) calls : (length (calls_of op calls) <= length calls)%nat.
Proof. unfold calls_of. apply List.filter_length_le. Qed.

Lemma updateStats_lookup (op op' : string) (d : Z) (err : error) (cl : Client) :
  opStats (updateStats op d err cl) !! op'
  = if String.eqb op op'
    then Some (mkOpStat
                 (wrapInt (count_in (opStats cl !! op) + 1))
                 (match err with
                  | Some _ => wrapInt (errors_in (opStats cl !! op) + 1)
                  | None => errors_in (opStats cl !! op)
                  end)
                 d
                 (wrapInt (TotalDuration (default zeroOpStat (opStats cl !! op)) + d))
                 (match err with Some e => e | None => "" end))
    else opStats cl !! op'.
Proof.
  unfold updateStats. cbn [opStats set_opStats].
  destruct (String.eqb_spec op op') as [<- | Hne].
  - rewrite lookup_insert_eq. destruct (opStats cl !! op); reflexivity.
  - rewrite lookup_insert_ne by exact Hne. reflexivity.
Qed.

Lemma updateStats_c (op : string) (d : Z) (err : error) (cl : Client) :
  c (updateStats op d err cl) = c cl.
Proof. destruct cl. reflexivity. Qed.

Lemma Exec_all_stats (calls : list (ExecEnv * string * (Conn -> WireOp))) :
  ∀ (w : World) (h : Conn) (op : string),
  c (client w) = Some h ->
  0 <= errors_in (Stats (client w) !! op) <= count_in (Stats (client w) !! op) ->
  count_in (Stats (client w) !! op) + Z.of_nat (length calls) <= maxInt ->
  let o' := Stats (client (Exec_all calls w).2) !! op in
  count_in o' = count_in (Stats (client w) !! op) + Z.of_nat (length (calls_of op calls))
  ∧ errors_in o'
    = errors_in (Stats (client w) !! op) + Z.of_nat (length (failures_of op calls))
  ∧ (o' = None ↔ Stats (client w) !! op = None ∧ calls_of op calls = []).
Proof.
  induction calls as [| [[env op1] fn] calls IH]; intros w h op Hc He Hn o'; subst o'.
  - cbn. split; [lia |]. split; [lia |]. tauto.
  - rewrite length_cons, Nat2Z.inj_succ in Hn.
    cbn [Exec_all]. rewrite bind_run.
    destruct (Exec_live env op1 fn w h Hc) as [lines HE]. rewrite HE.
    cbn [fst snd]. rewrite bind_run. cbn [fst snd mret M_ret].
    match goal with |- context [Exec_all calls ?w1] =>
      pose proof (IH w1 h op) as IH'; cbn zeta in IH'
    end.
    cbn [client] in IH'. unfold Stats in *.
    rewrite updateStats_c, updateStats_lookup in IH'.
    unfold calls_of, failures_of, calls_of in *. cbn [List.filter fst snd].
    destruct (String.eqb_spec op1 op) as [-> | Hne].
    + cbn [count_in errors_in from_option Count Errors] in IH'.
      fold (count_in (opStats (client w) !! op)) in IH'.
      fold (errors_in (opStats (client w) !! op)) in IH'.
      rewrite (wrapInt_id (count_in (opStats (client w) !! op) + 1)) in IH'
        by (unfold minInt; lia).
      cbn [List.filter].
      change (failed (env, op, fn))
        with (match raceError op (race env) with Some _ => true | None => false end).
      destruct (raceError op (race env)) as [e |].
      * rewrite (wrapInt_id (errors_in (opStats (client w) !! op) + 1)) in IH'
          by (unfold minInt; lia).
        destruct IH' as (I1 & I2 & I3); [exact Hc | lia | lia |].
        cbn [List.filter length]. rewrite !Nat2Z.inj_succ.
        split; [lia |]. split; [lia |].
        split; [intros Hnone; apply I3 in Hnone as [? ?]; discriminate
               | intros [_ ?]; discriminate].
      * destruct IH' as (I1 & I2 & I3); [exact Hc | lia | lia |].
        cbn [List.filter length]. rewrite !Nat2Z.inj_succ.
        split; [lia |]. split; [lia |].
        split; [intros Hnone; apply I3 in Hnone as [? ?]; discriminate
               | intros [_ ?]; discriminate].
    + destruct IH' as (I1 & I2 & I3); [exact Hc | exact He | lia |].
      split; [exact I1 |]. split; [exact I2 | exact I3].
Qed.

(** X9. On a connected client with no statistics yet, after any sequence of
    [Exec] calls the entry of an operation holds exactly the number of calls
    made under its name and the number of those that failed (so errors never
    exceed calls), and an operation never called has no entry. *)
Theorem stats_count_calls_and_failures
    (calls : list (ExecEnv * string * (Conn -> WireOp))) (w : World) (h : Conn)
    (op : string) :
  c (client w) = Some h ->
  Stats (client w) = ∅ ->
  Z.of_nat (length calls) <= maxInt ->
  let after := Stats (client (Exec_all calls w).2) !! op in
  (after = None ↔ calls_of op calls = [])
  ∧ ∀ st, after = Some st ->
      Count st = Z.of_nat (length (calls_of op calls))
      ∧ Errors st = Z.of_nat (length (failures_of op calls))
      ∧ 0 <= Errors st <= Count st.
Proof.
  intros Hc Hempty Hlen after. subst after.
  destruct (Exec_all_stats calls w h op Hc) as (I1 & I2 & I3).
  { rewrite Hempty, lookup_empty. cbn. lia. }
  { rewrite Hempty, lookup_empty. cbn. lia. }
  rewrite Hempty, lookup_empty in I1, I2, I3. cbn in I1, I2.
  split; [rewrite I3; tauto |].
  intros st Hst. rewrite Hst in I1, I2. cbn in I1, I2.
  pose proof (failures_le_calls op calls). lia.
Qed.

Lemma stats_count_calls_and_failures_witness :
  ∃ st, Stats (client (Exec_all threeCalls liveWorld).2) !! "fetch" = Some st
        ∧ Count st = 2 ∧ Errors st = 1.
Proof.
  destruct (stats_count_calls_and_failures threeCalls liveWorld 7%nat "fetch")
    as [Hnone H].
  - reflexivity.
  - reflexivity.
  - vm_compute. discriminate.
  - destruct (Stats (client (Exec_all threeCalls liveWorld).2) !! "fetch")
      as [st |] eqn:Hst.
    + exists st. destruct (H st eq_refl) as (HC & HE & _).
      split; [reflexivity |]. split; [exact HC | exact HE].
    + destruct Hnone as [Hnone _]. specialize (Hnone eq_refl). discriminate Hnone.
Defined.

End imapclient_extra.

Module utf8_extra.
Import utf8.

(** ** UTF-8 decoding *)

Lemma bytes_app (a b : string) : bytes (a +:+ b) = bytes a ++ bytes b.
Proof.
  unfold bytes. induction a as [| ch a IH]; [reflexivity |].
  change (String ch a +:+ b) with (String ch (a +:+ b)).
  cbn [String.list_ascii_of_string map app]. f_equal. exact IH.
Qed.

Lemma bytes_length (s : string) : length (bytes s) = String.length s.
Proof.
  unfold bytes. rewrite length_map.
  induction s as [| ch s IH]; [reflexivity | cbn; f_equal; exact IH].
Qed.

Lemma bytes_range (s : string) : Forall (λ b, 0 <= b < 256) (bytes s).
Proof.
  unfold bytes. apply Forall_map, Forall_forall. intros a _. cbn.
  pose proof (Ascii.N_ascii_bounded a). lia.
Qed.

(** A rune takes at least one byte and no more than there are. *)
Lemma DecodeRune_width (b0 : Z) (t : list Z) :
  (1 <= (DecodeRune (b0 :: t)).2 <= S (length t))%nat.
Proof.
  unfold DecodeRune.
  repeat case_match; cbn [snd length]; lia.
Qed.

Lemma decode_fuel (fuel : nat) : ∀ p,
  (length p <= fuel)%nat -> decode fuel p = decode (length p) p.
Proof.
  induction fuel as [fuel IH] using lt_wf_ind. intros p Hlen.
  destruct p as [| b0 t]; [destruct fuel; reflexivity |].
  destruct fuel as [| fuel]; [cbn in Hlen; lia |].
  cbn [decode length].
  pose proof (DecodeRune_width b0 t) as Hw.
  destruct (DecodeRune (b0 :: t)) as [r n]. cbn [snd] in Hw.
  f_equal.
  assert (length (drop n (b0 :: t)) <= length t)%nat as Hd
    by (rewrite length_drop; cbn; lia).
  cbn [length] in Hlen.
  rewrite (IH fuel) by lia.
  rewrite (IH (length t)) by lia. reflexivity.
Qed.

Lemma decode_length (fuel : nat) : ∀ p, (length (decode fuel p) <= length p)%nat.
Proof.
  induction fuel as [fuel IH] using lt_wf_ind. intros p.
  destruct fuel as [| fuel]; [cbn; lia |].
  destruct p as [| b0 t]; [cbn; lia |].
  cbn [decode].
  pose proof (DecodeRune_width b0 t) as Hw.
  destruct (DecodeRune (b0 :: t)) as [r n]. cbn [snd] in Hw.
  cbn [length]. specialize (IH fuel ltac:(lia) (drop n (b0 :: t))).
  rewrite length_drop in IH. cbn [length] in IH. lia.
Qed.

Lemma runes_length (s : string) : (length (runes s) <= String.length s)%nat.
Proof.
  unfold runes. rewrite <- bytes_length. apply decode_length.
Qed.

(** In front of an ASCII byte a rune decodes as at the end of the text. *)
Lemma DecodeRune_before_ascii (a : list Z) (x : Z) (rest : list Z) :
  a ≠ [] -> x < 0x80 ->
  DecodeRune (a ++ x :: rest) = DecodeRune a.
Proof.
  intros Ha Hx.
  assert (cont x = false) as Hcont by (unfold cont, between; lia).
  assert (∀ lo hi, 0x80 <= lo -> between lo hi x = false) as Hbtw
    by (intros lo hi Hlo; unfold between; lia).
  destruct a as [| b0 [| b1 [| b2 [| b3 t]]]]; [done | ..];
    unfold DecodeRune; cbn [app];
    repeat (case_match; try reflexivity; simplify_eq);
    repeat match goal with
    | H : context [between _ _ x] |- _ => rewrite Hbtw in H by (repeat case_match; lia)
    | H : context [cont x] |- _ => rewrite Hcont in H
    | H : context [_ && false] |- _ => rewrite andb_false_r in H
    end; try discriminate; try reflexivity.
Qed.

Lemma decode_before_ascii (x : Z) (rest : list Z) (n : nat) : ∀ a,
  length a = n -> x < 0x80 ->
  decode (length (a ++ x :: rest)) (a ++ x :: rest)
  = decode (length a) a ++ decode (length (x :: rest)) (x :: rest).
Proof.
  induction n as [n IH] using lt_wf_ind. intros a Hn Hx.
  destruct a as [| b0 t]; [reflexivity |].
  rewrite length_app. cbn [length app Nat.add decode].
  assert (DecodeRune (b0 :: t ++ x :: rest) = DecodeRune (b0 :: t)) as ->
    by (apply (DecodeRune_before_ascii (b0 :: t)); [done | exact Hx]).
  pose proof (DecodeRune_width b0 t) as Hw.
  destruct (DecodeRune (b0 :: t)) as [r k]. cbn [snd] in Hw.
  cbn [app]. f_equal.
  change (b0 :: t ++ x :: rest) with ((b0 :: t) ++ x :: rest).
  rewrite drop_app_le by (cbn; lia).
  rewrite (decode_fuel (length t + length (x :: rest))).
  2: { rewrite length_app, length_drop. cbn [length]. lia. }
  rewrite (decode_fuel (length t) (drop k (b0 :: t))).
  2: { rewrite length_drop. cbn [length]. lia. }
  apply (IH (length (drop k (b0 :: t)))).
  - rewrite length_drop. cbn [length] in *. lia.
  - reflexivity.
  - exact Hx.
Qed.

(** Text that goes on with an ASCII byte decodes piece by piece. *)
Lemma runes_app_ascii (a : string) (ch : Ascii.ascii) (b : string) :
  Z.of_N (Ascii.N_of_ascii ch) < 0x80 ->
  runes (a +:+ String ch b) = runes a ++ runes (String ch b).
Proof.
  intros Hch. unfold runes. rewrite bytes_app.
  change (bytes (String ch b)) with (Z.of_N (Ascii.N_of_ascii ch) :: bytes b).
  apply (decode_before_ascii _ _ (length (bytes a))); [reflexivity | exact Hch].
Qed.

(** An ASCII byte is a rune of its own. *)
Lemma runes_cons_ascii (ch : Ascii.ascii) (b : string) :
  Z.of_N (Ascii.N_of_ascii ch) < 0x80 ->
  runes (String ch b) = Z.of_N (Ascii.N_of_ascii ch) :: runes b.
Proof.
  intros Hch. unfold runes.
  change (bytes (String ch b)) with (Z.of_N (Ascii.N_of_ascii ch) :: bytes b).
  cbn [length decode]. unfold DecodeRune.
  destruct (Z.ltb_spec (Z.of_N (Ascii.N_of_ascii ch)) 0x80); [| lia].
  reflexivity.
Qed.

(** ASCII text in front decodes byte by byte. *)
Lemma runes_ascii_prefix (pre s : string) :
  Forall (λ b, b < 0x80) (bytes pre) ->
  runes (pre +:+ s) = bytes pre ++ runes s.
Proof.
  induction pre as [| ch pre IH]; intros Hpre; [reflexivity |].
  change (bytes (String ch pre)) with (Z.of_N (Ascii.N_of_ascii ch) :: bytes pre) in *.
  apply Forall_cons in Hpre as [Hch Hpre].
  change (String ch pre +:+ s) with (String ch (pre +:+ s)).
  rewrite runes_cons_ascii by exact Hch. rewrite IH by exact Hpre. reflexivity.
Qed.

(** ASCII text in the middle separates what is decoded before and after. *)
Lemma runes_around_ascii (a mid s : string) :
  mid ≠ "" -> Forall (λ b, b < 0x80) (bytes mid) ->
  runes (a +:+ mid +:+ s) = runes a ++ bytes mid ++ runes s.
Proof.
  intros Hne Hmid. destruct mid as [| ch mid]; [done |].
  change (String ch mid +:+ s) with (String ch (mid +:+ s)).
  rewrite runes_app_ascii.
  - change (String ch (mid +:+ s)) with (String ch mid +:+ s).
    rewrite runes_ascii_prefix by exact Hmid. reflexivity.
  - change (bytes (String ch mid)) with (Z.of_N (Ascii.N_of_ascii ch) :: bytes mid) in Hmid.
    apply Forall_cons in Hmid as [Hch _]. exact Hch.
Qed.

End utf8_extra.

Module config_extra.
Import config.

(** ** Load *)

Section Load_proofs.

Variable Sscanf_d : string -> option Z.
Variable ParseDuration : string -> option Z.


Lemma lastValue_cons (name n v : string) (rest : list (string * string)) :
  lastValue name ((n, v) :: rest)
  = match lastValue name rest with
    | Some x => Some x
    | None => if String.eqb n name then Some v else None
    end.
Proof.
  unfold lastValue. cbn [List.filter fst].
  destruct (String.eqb n name).
  - destruct (List.filter (λ a, String.eqb a.1 name) rest) as [| a l] eqn:Hf;
      [reflexivity |].
    rewrite last_cons. destruct (last (a :: l)) eqn:Hl; [reflexivity |].
    apply last_None in Hl. discriminate.
  - destruct (last _); reflexivity.
Qed.

Lemma Set_kind (v : string) (f f' : FlagValue) :
  Set_ Sscanf_d ParseDuration v f = Some f' -> kind f' = kind f.
Proof.
  destruct f; cbn; intros H; repeat case_match; simplify_eq; reflexivity.
Qed.

Lemma Set_by_kind (v : string) (f1 f2 : FlagValue) :
  kind f1 = kind f2 ->
  Set_ Sscanf_d ParseDuration v f1 = Set_ Sscanf_d ParseDuration v f2.
Proof. destruct f1, f2; cbn; intros H; try discriminate; reflexivity. Qed.

(** After a successful parse a flag holds what [Set] made of its last
    occurrence, and is untouched when it did not occur. *)
Lemma flag_Parse_lookup (args : list (string * string)) :
  ∀ (flags flags' : gmap string FlagValue) (name : string) (f : FlagValue),
  flag_Parse Sscanf_d ParseDuration args flags = Some flags' ->
  flags !! name = Some f ->
  ∃ f', flags' !! name = Some f'
        ∧ kind f' = kind f
        ∧ match lastValue name args with
          | None => f' = f
          | Some v => Set_ Sscanf_d ParseDuration v f = Some f'
          end.
Proof.
  induction args as [| [n v] rest IH]; intros flags flags' name f Hparse Hf.
  - cbn in Hparse. simplify_eq. exists f. done.
  - cbn [flag_Parse] in Hparse.
    destruct (flags !! n) as [g |] eqn:Hg; [| discriminate].
    destruct (Set_ Sscanf_d ParseDuration v g) as [g' |] eqn:Hset; [| discriminate].
    rewrite lastValue_cons.
    destruct (String.eqb_spec n name) as [-> | Hne].
    + assert (g = f) as -> by congruence.
      destruct (IH (<[name := g']> flags) flags' name g' Hparse
                  ltac:(apply lookup_insert_eq)) as (f' & Hf' & Hk & Hlast).
      exists f'. split; [exact Hf' |].
      split; [rewrite Hk; eapply Set_kind; exact Hset |].
      destruct (lastValue name rest) as [x |].
      * rewrite <- Hlast. apply Set_by_kind. symmetry. eapply Set_kind. exact Hset.
      * subst f'. exact Hset.
    + destruct (IH (<[n := g']> flags) flags' name f Hparse
                  ltac:(rewrite lookup_insert_ne by exact Hne; exact Hf))
        as (f' & Hf' & Hk & Hlast).
      exists f'. split; [exact Hf' |]. split; [exact Hk |].
      destruct (lastValue name rest); exact Hlast.
Qed.

Lemma validate_Loaded (c cfg : Config) :
  validate c = Loaded cfg ->
  cfg = c
  ∧ IMAPHost cfg ≠ "" ∧ Username cfg ≠ "" ∧ Password cfg ≠ "" ∧ WebhookURL cfg ≠ ""
  ∧ (UseTLS cfg = false ∨ StartTLS cfg = false)
  ∧ HTMLToTextMode cfg ∈ ["simple"; "preserve-line"; "none"].
Proof.
  unfold validate. intros H.
  destruct (String.eqb_spec (IMAPHost c) ""); [discriminate |].
  destruct (String.eqb_spec (Username c) ""); [discriminate |].
  destruct (String.eqb_spec (Password c) ""); [discriminate |].
  destruct (String.eqb_spec (WebhookURL c) ""); [discriminate |].
  cbn [orb] in H.
  destruct (UseTLS c) eqn:Htls, (StartTLS c) eqn:Hstart; cbn [andb] in H;
    try discriminate;
    (destruct (String.eqb_spec (HTMLToTextMode c) "simple") as [Hs | Hs];
     [| destruct (String.eqb_spec (HTMLToTextMode c) "preserve-line") as [Hp | Hp];
        [| destruct (String.eqb_spec (HTMLToTextMode c) "none") as [Hn | Hn];
           [| discriminate]]]);
    cbn in H; simplify_eq;
    repeat (split; [first [done | rewrite ?Htls, ?Hstart; auto] |]);
    first [rewrite Hs | rewrite Hp | rewrite Hn]; set_solver.
Qed.

(** What [Load] went through when it returned a configuration. *)
Lemma Load_Loaded (env : LoadEnv) (cfg : Config) :
  Load Sscanf_d ParseDuration env = Loaded cfg ->
  ∃ merged args flags,
    merged = match fileKeys env with
             | Some fc => mergeKeys fc (applyEnv Sscanf_d ParseDuration env defaults)
             | None => applyEnv Sscanf_d ParseDuration env defaults
             end
    ∧ flagArgs env = Some args
    ∧ flag_Parse Sscanf_d ParseDuration args (registered merged (configPath env))
      = Some flags
    ∧ validate (applyFlags flags merged) = Loaded cfg.
Proof.
  unfold Load, fileKeys, mergeFile. intros H.
  destruct (String.eqb (configPath env) "").
  - destruct (flagArgs env) as [args |]; [| discriminate].
    destruct (flag_Parse _ _ args _) as [flags |] eqn:Hp; [| discriminate].
    eauto 10.
  - destruct (ReadFile env (configPath env)) as [err | data]; [discriminate |].
    destruct (String.eqb data ""); [discriminate |].
    destruct (Unmarshal env data) as [err | fc]; [discriminate |].
    destruct (flagArgs env) as [args |]; [| discriminate].
    destruct (flag_Parse _ _ args _) as [flags |] eqn:Hp; [| discriminate].
    eauto 10.
Qed.

(** X20. A configuration [Load] returns has passed the checks: host, user
    name, password and webhook address are not empty, TLS and STARTTLS are
    not both on, and the HTML mode is one of simple, preserve-line and
    none. *)
Theorem Load_returns_only_checked_configurations (env : LoadEnv) (cfg : Config) :
  Load Sscanf_d ParseDuration env = Loaded cfg ->
  IMAPHost cfg ≠ "" ∧ Username cfg ≠ "" ∧ Password cfg ≠ "" ∧ WebhookURL cfg ≠ ""
  ∧ (UseTLS cfg = false ∨ StartTLS cfg = false)
  ∧ HTMLToTextMode cfg ∈ ["simple"; "preserve-line"; "none"].
Proof.
  intros H. destruct (Load_Loaded env cfg H) as (merged & args & flags & _ & _ & _ & Hv).
  apply validate_Loaded in Hv as [_ Hv]. exact Hv.
Qed.

Lemma flagString_after (args : list (string * string))
    (reg flags : gmap string FlagValue) (name old : string) :
  flag_Parse Sscanf_d ParseDuration args reg = Some flags ->
  reg !! name = Some (stringFlag old false) ->
  flagString flags name old = default old (lastValue name args).
Proof.
  intros Hp Hreg.
  destruct (flag_Parse_lookup args reg flags name _ Hp Hreg) as (f' & Hf' & _ & Hlast).
  unfold flagString. rewrite Hf'.
  destruct (lastValue name args) as [v |]; cbn in *; simplify_eq; reflexivity.
Qed.

Lemma flagInt_after (args : list (string * string))
    (reg flags : gmap string FlagValue) (name : string) (old : Z) :
  flag_Parse Sscanf_d ParseDuration args reg = Some flags ->
  reg !! name = Some (intFlag old false) ->
  flagInt flags name old = default old (lastValue name args ≫= Sscanf_d)
  ∧ (∀ v, lastValue name args = Some v -> ∃ n, Sscanf_d v = Some n).
Proof.
  intros Hp Hreg.
  destruct (flag_Parse_lookup args reg flags name _ Hp Hreg) as (f' & Hf' & _ & Hlast).
  unfold flagInt. rewrite Hf'.
  destruct (lastValue name args) as [v |]; cbn in *.
  - destruct (Sscanf_d v) as [n |] eqn:Hs; [| discriminate]. simplify_eq.
    split; [reflexivity |]. intros v' Hv'. simplify_eq. eauto.
  - simplify_eq. split; [reflexivity |]. intros v' Hv'. discriminate.
Qed.

Lemma flagBool_after (args : list (string * string))
    (reg flags : gmap string FlagValue) (name : string) (old : bool) :
  flag_Parse Sscanf_d ParseDuration args reg = Some flags ->
  reg !! name = Some (boolFlag old false) ->
  flagBool flags name old = default old (parseBool <$> lastValue name args).
Proof.
  intros Hp Hreg.
  destruct (flag_Parse_lookup args reg flags name _ Hp Hreg) as (f' & Hf' & _ & Hlast).
  unfold flagBool. rewrite Hf'.
  destruct (lastValue name args) as [v |]; cbn in *; simplify_eq; [| reflexivity].
  unfold parseBool. destruct (_ || _); reflexivity.
Qed.

Lemma flagDuration_after (args : list (string * string))
    (reg flags : gmap string FlagValue) (name : string) (old : Z) :
  flag_Parse Sscanf_d ParseDuration args reg = Some flags ->
  reg !! name = Some (durationFlag old false) ->
  flagDuration flags name old = default old (lastValue name args ≫= ParseDuration)
  ∧ (∀ v, lastValue name args = Some v -> ∃ d, ParseDuration v = Some d).
Proof.
  intros Hp Hreg.
  destruct (flag_Parse_lookup args reg flags name _ Hp Hreg) as (f' & Hf' & _ & Hlast).
  unfold flagDuration. rewrite Hf'.
  destruct (lastValue name args) as [v |]; cbn in *.
  - destruct (ParseDuration v) as [n |] eqn:Hs; [| discriminate]. simplify_eq.
    split; [reflexivity |]. intros v' Hv'. simplify_eq. eauto.
  - simplify_eq. split; [reflexivity |]. intros v' Hv'. discriminate.
Qed.

Ltac pick_row Hin :=
  repeat (apply elem_of_cons in Hin as [Hin | Hin]; [simplify_eq |]);
  [.. | apply elem_of_nil in Hin; destruct Hin].

Ltac layer_cases :=
  unfold layered, positiveOnly, envString, envInt, envBool, envDuration;
  repeat (cbn;
          match goal with
          | |- context [lastValue ?n ?a] => destruct (lastValue n a)
          | |- context [LookupEnv ?e ?k] => destruct (LookupEnv e k)
          | |- context [Sscanf_d ?v] => destruct (Sscanf_d v)
          | |- context [ParseDuration ?v] => destruct (ParseDuration v)
          | |- context [0 <? ?n] => destruct (0 <? n)
          end);
  try reflexivity.

Ltac enter_Load H Hargs :=
  let merged := fresh "merged" in
  let args' := fresh "args" in
  let flags := fresh "flags" in
  let Hm := fresh "Hm" in
  let Hargs' := fresh "Hargs" in
  let Hp := fresh "Hp" in
  let Hv := fresh "Hv" in
  destruct (Load_Loaded _ _ H) as (merged & args' & flags & Hm & Hargs' & Hp & Hv);
  rewrite Hargs in Hargs'; injection Hargs' as <-;
  apply validate_Loaded in Hv as [-> _]; subst merged.

Ltac open_file :=
  match goal with
  | |- context [fileKeys ?env] =>
      let fc := fresh "fc" in
      destruct (fileKeys env) as [fc |]; cbn;
      [match goal with |- context [?k fc] => destruct (k fc) end |]
  end.

(** The string settings, layer by layer. *)
Lemma Load_layers_string (env : LoadEnv) (cfg : Config) (args : list (string * string)) :
  Load Sscanf_d ParseDuration env = Loaded cfg ->
  flagArgs env = Some args ->
  ∀ flag key field fkey, (flag, key, field, fkey) ∈ stringSettings ->
    field cfg = layered (lastValue flag args) (fileKeys env ≫= fkey)
                  (LookupEnv env key) (field defaults).
Proof.
  intros H Hargs flag key field fkey Hin. enter_Load H Hargs.
  pick_row Hin; unfold applyFlags;
    match goal with
    | Hp : flag_Parse _ _ _ _ = Some ?flags |- context [flagString ?flags ?n ?old] =>
        cbn [IMAPHost Username Password Mailbox WebhookURL WebhookHeader HTMLToTextMode];
        rewrite (flagString_after args _ flags n old Hp eq_refl)
    end;
    open_file; layer_cases.
Qed.

(** The numbers: a flag counts when it scans (else [flag.Parse] exits), an
    environment variable only when it scans and is positive. *)
Lemma Load_layers_int (env : LoadEnv) (cfg : Config) (args : list (string * string)) :
  Load Sscanf_d ParseDuration env = Loaded cfg ->
  flagArgs env = Some args ->
  ∀ flag key field fkey, (flag, key, field, fkey) ∈ intSettings ->
    field cfg = layered (lastValue flag args ≫= Sscanf_d) (fileKeys env ≫= fkey)
                  (positiveOnly (LookupEnv env key ≫= Sscanf_d)) (field defaults)
    ∧ (∀ v, lastValue flag args = Some v -> ∃ n, Sscanf_d v = Some n).
Proof.
  intros H Hargs flag key field fkey Hin. enter_Load H Hargs.
  pick_row Hin; unfold applyFlags;
    match goal with
    | Hp : flag_Parse _ _ _ _ = Some ?flags |- context [flagInt ?flags ?n ?old] =>
        cbn [IMAPPort FetchBodySize RetryMax];
        destruct (flagInt_after args _ flags n old Hp eq_refl) as [-> Hscan]
    end;
    (split; [open_file; layer_cases | exact Hscan]).
Qed.

Lemma Load_layers_bool (env : LoadEnv) (cfg : Config) (args : list (string * string)) :
  Load Sscanf_d ParseDuration env = Loaded cfg ->
  flagArgs env = Some args ->
  ∀ flag key field fkey, (flag, key, field, fkey) ∈ boolSettings ->
    field cfg = layered (parseBool <$> lastValue flag args) (fileKeys env ≫= fkey)
                  (parseBool <$> LookupEnv env key) (field defaults).
Proof.
  intros H Hargs flag key field fkey Hin. enter_Load H Hargs.
  pick_row Hin; unfold applyFlags;
    match goal with
    | Hp : flag_Parse _ _ _ _ = Some ?flags |- context [flagBool ?flags ?n ?old] =>
        cbn [UseTLS StartTLS InsecureSkipVerify IncludeRawHTML EnableBlocks
             SkipInlineImages Debug];
        rewrite (flagBool_after args _ flags n old Hp eq_refl)
    end;
    open_file; layer_cases.
Qed.

Lemma Load_layers_duration (env : LoadEnv) (cfg : Config) (args : list (string * string)) :
  Load Sscanf_d ParseDuration env = Loaded cfg ->
  flagArgs env = Some args ->
  ∀ flag key field fkey, (flag, key, field, fkey) ∈ durationSettings ->
    field cfg = layered (lastValue flag args ≫= ParseDuration) (fileKeys env ≫= fkey)
                  (LookupEnv env key ≫= ParseDuration) (field defaults)
    ∧ (∀ v, lastValue flag args = Some v -> ∃ d, ParseDuration v = Some d).
Proof.
  intros H Hargs flag key field fkey Hin. enter_Load H Hargs.
  pick_row Hin; unfold applyFlags;
    match goal with
    | Hp : flag_Parse _ _ _ _ = Some ?flags |- context [flagDuration ?flags ?n ?old] =>
        cbn [CheckInterval DrainTimeout RetryBaseBackoff];
        destruct (flagDuration_after args _ flags n old Hp eq_refl) as [-> Hscan]
    end;
    (split; [open_file; layer_cases | exact Hscan]).
Qed.

(** X21. Every setting of a configuration [Load] returns has the value of
    the highest layer that gives one: the last occurrence of its flag, else
    the key of the configuration file, else the environment variable, else
    the built-in default. A number or duration given as a flag always scans
    (otherwise [flag.Parse] has exited); an environment variable that does
    not scan is skipped, and so is an environment number that is not
    positive. *)
Theorem Load_layers_flag_file_environment_default (env : LoadEnv) (cfg : Config)
    (args : list (string * string)) :
  Load Sscanf_d ParseDuration env = Loaded cfg ->
  flagArgs env = Some args ->
  (∀ flag key field fkey, (flag, key, field, fkey) ∈ stringSettings ->
     field cfg = layered (lastValue flag args) (fileKeys env ≫= fkey)
                   (LookupEnv env key) (field defaults))
  ∧ (∀ flag key field fkey, (flag, key, field, fkey) ∈ intSettings ->
     field cfg = layered (lastValue flag args ≫= Sscanf_d) (fileKeys env ≫= fkey)
                   (positiveOnly (LookupEnv env key ≫= Sscanf_d)) (field defaults)
     ∧ (∀ v, lastValue flag args = Some v -> ∃ n, Sscanf_d v = Some n))
  ∧ (∀ flag key field fkey, (flag, key, field, fkey) ∈ boolSettings ->
     field cfg = layered (parseBool <$> lastValue flag args) (fileKeys env ≫= fkey)
                   (parseBool <$> LookupEnv env key) (field defaults))
  ∧ (∀ flag key field fkey, (flag, key, field, fkey) ∈ durationSettings ->
     field cfg = layered (lastValue flag args ≫= ParseDuration) (fileKeys env ≫= fkey)
                   (LookupEnv env key ≫= ParseDuration) (field defaults)
     ∧ (∀ v, lastValue flag args = Some v -> ∃ d, ParseDuration v = Some d)).
Proof.
  intros H Hargs.
  split; [exact (Load_layers_string env cfg args H Hargs) |].
  split; [exact (Load_layers_int env cfg args H Hargs) |].
  split; [exact (Load_layers_bool env cfg args H Hargs) |].
  exact (Load_layers_duration env cfg args H Hargs).
Qed.

(** X22. STARTTLS cannot be switched on alone: TLS is on by default and the
    two exclude each other, so a configuration [Load] returns with STARTTLS
    on has TLS off, and some layer (flag, file or environment) has said so
    with a value that does not read as true. *)
Theorem Load_starttls_needs_tls_switched_off (env : LoadEnv) (cfg : Config)
    (args : list (string * string)) :
  Load Sscanf_d ParseDuration env = Loaded cfg ->
  flagArgs env = Some args ->
  StartTLS cfg = true ->
  UseTLS cfg = false
  ∧ (parseBool <$> lastValue "tls" args = Some false
     ∨ fileKeys env ≫= fcUseTLS = Some false
     ∨ parseBool <$> LookupEnv env "IMAP_TLS" = Some false).
Proof.
  intros H Hargs Hstart.
  pose proof (Load_layers_bool env cfg args H Hargs "tls" "IMAP_TLS" UseTLS fcUseTLS
                ltac:(repeat constructor)) as Htls.
  destruct (Load_Loaded env cfg H) as (merged & args' & flags & _ & _ & _ & Hv).
  apply validate_Loaded in Hv as (_ & _ & _ & _ & _ & [Hoff | Hoff] & _);
    [| congruence].
  split; [exact Hoff |].
  rewrite Hoff in Htls. unfold layered in Htls. cbn [UseTLS defaults] in Htls.
  destruct (parseBool <$> lastValue "tls" args) as [b |]; [left; congruence |].
  destruct (fileKeys env ≫= fcUseTLS) as [b |]; [right; left; congruence |].
  destruct (parseBool <$> LookupEnv env "IMAP_TLS") as [b |];
    [right; right; congruence | discriminate].
Qed.

End Load_proofs.

Lemma Load_returns_only_checked_configurations_witness :
  IMAPHost config.commandLineConfig ≠ ""
  ∧ Username config.commandLineConfig ≠ ""
  ∧ Password config.commandLineConfig ≠ ""
  ∧ WebhookURL config.commandLineConfig ≠ ""
  ∧ (UseTLS config.commandLineConfig = false
     ∨ StartTLS config.commandLineConfig = false)
  ∧ HTMLToTextMode config.commandLineConfig ∈ ["simple"; "preserve-line"; "none"].
Proof.
  apply (Load_returns_only_checked_configurations config.scanSmall
           config.parseSeconds config.commandLineOnly config.commandLineConfig).
  vm_compute. reflexivity.
Defined.

Lemma Load_layers_flag_file_environment_default_witness :
  RetryMax config.commandLineConfig = -1
  ∧ Mailbox config.commandLineConfig = "INBOX"
  ∧ UseTLS config.commandLineConfig = false.
Proof.
  destruct (Load_layers_flag_file_environment_default config.scanSmall
              config.parseSeconds config.commandLineOnly config.commandLineConfig
              [("imap-host", "imap.example.com"); ("username", "user@example.com");
               ("password", "app-password"); ("webhook", "http://127.0.0.1:8080/mail");
               ("tls", "0"); ("starttls", "1"); ("retry-max", "-1")])
    as (Hs & Hi & Hb & _).
  - vm_compute. reflexivity.
  - reflexivity.
  - split; [| split].
    + destruct (Hi "retry-max" "RETRY_MAX" RetryMax config.fcRetryMax
                  ltac:(repeat constructor)) as [-> _].
      reflexivity.
    + rewrite (Hs "mailbox" "IMAP_MAILBOX" Mailbox config.fcMailbox
                 ltac:(repeat constructor)).
      reflexivity.
    + rewrite (Hb "tls" "IMAP_TLS" UseTLS config.fcUseTLS
                 ltac:(repeat constructor)).
      reflexivity.
Defined.

Lemma Load_starttls_needs_tls_switched_off_witness :
  UseTLS config.commandLineConfig = false
  ∧ (config.parseBool
       <$> config.lastValue "tls"
             [("imap-host", "imap.example.com"); ("username", "user@example.com");
              ("password", "app-password"); ("webhook", "http://127.0.0.1:8080/mail");
              ("tls", "0"); ("starttls", "1"); ("retry-max", "-1")] = Some false
     ∨ config.fileKeys config.commandLineOnly ≫= config.fcUseTLS = Some false
     ∨ config.parseBool <$> config.LookupEnv config.commandLineOnly "IMAP_TLS"
       = Some false).
Proof.
  apply (Load_starttls_needs_tls_switched_off config.scanSmall
           config.parseSeconds config.commandLineOnly config.commandLineConfig).
  - vm_compute. reflexivity.
  - reflexivity.
  - reflexivity.
Defined.

End config_extra.

Module webhook_extra.
Import config webhook utf8_extra.

(** ** Strings by the byte *)

Lemma length_append (a b : string) :
  String.length (a +:+ b) = (String.length a + String.length b)%nat.
Proof.
  induction a as [| ch a IH]; [reflexivity |].
  change (String ch a +:+ b) with (String ch (a +:+ b)). cbn [String.length].
  rewrite IH. reflexivity.
Qed.

Lemma length_substring0 (n : nat) : ∀ s,
  String.length (String.substring 0 n s) = Nat.min n (String.length s).
Proof.
  induction n as [| n IH]; intros s.
  - destruct s; reflexivity.
  - destruct s as [| ch s]; [reflexivity |].
    cbn [String.substring String.length]. rewrite IH. reflexivity.
Qed.

Lemma len_append (a b : string) : len (a +:+ b) = len a + len b.
Proof. unfold len. rewrite length_append. lia. Qed.

Lemma len_take_bytes (n : Z) (s : string) :
  0 <= n -> len (take_bytes n s) = Z.min n (len s).
Proof.
  intros Hn. unfold len, take_bytes. rewrite length_substring0. lia.
Qed.

Lemma eqb_empty (s : string) : String.eqb s "" = true ↔ s = "".
Proof. apply String.eqb_eq. Qed.

(** ** mixedWordCount *)

(** The loop counts no more words than it reads runes, plus the word it is
    in. *)
Lemma countWords_bounds (rs : list Z) : ∀ (current : list Z) (count : Z),
  0 <= count ->
  count + Z.of_nat (length rs) + (match current with [] => 0 | _ => 1 end) <= maxInt ->
  count <= countWords rs current count
  <= count + Z.of_nat (length rs) + (match current with [] => 0 | _ => 1 end).
Proof.
  induction rs as [| r rs IH]; intros current count Hc Hmax.
  - cbn [countWords length]. destruct current.
    + lia.
    + rewrite wrapInt_id by (unfold minInt; lia). lia.
  - cbn [length] in *. rewrite Nat2Z.inj_succ in *.
    cbn [countWords].
    destruct (isASCIIWord r).
    + specialize (IH (current ++ [r]) count Hc).
      destruct (current ++ [r]) eqn:Happ; [destruct current; discriminate |].
      destruct current; lia.
    + assert (match current with [] => count | _ :: _ => wrapInt (count + 1) end
              = count + match current with [] => 0 | _ => 1 end) as ->.
      { destruct current; [lia |]. rewrite wrapInt_id by (unfold minInt; lia). lia. }
      destruct (isCJK r).
      * rewrite wrapInt_id by (unfold minInt; destruct current; lia).
        specialize (IH [] (count + match current with [] => 0 | _ => 1 end + 1)
                      ltac:(destruct current; lia) ltac:(destruct current; lia)).
        destruct current; lia.
      * specialize (IH [] (count + match current with [] => 0 | _ => 1 end)
                      ltac:(destruct current; lia) ltac:(destruct current; lia)).
        destruct current; lia.
Qed.

Lemma mixedWordCount_bounds (s : string) :
  len s <= maxInt -> 0 <= mixedWordCount s <= len s.
Proof.
  intros Hlen. unfold mixedWordCount.
  pose proof (runes_length s) as Hr. unfold len in *.
  pose proof (countWords_bounds (utf8.runes s) [] 0 ltac:(lia) ltac:(lia)). lia.
Qed.

(** A rune that is neither a word rune nor a CJK rune ends the word. *)
Lemma countWords_separator (r : Z) (rest : list Z) :
  isASCIIWord r = false -> isCJK r = false ->
  ∀ (rs current : list Z) (count : Z),
  countWords (rs ++ r :: rest) current count
  = countWords rest [] (countWords rs current count).
Proof.
  intros Hw Hc. induction rs as [| r0 rs IH]; intros current count.
  - cbn [app countWords]. rewrite Hw, Hc. reflexivity.
  - cbn [app countWords].
    destruct (isASCIIWord r0); [apply IH |].
    destruct (isCJK r0); apply IH.
Qed.

(** The marker [BuildPayload] appends counts as one word. *)
Lemma mixedWordCount_truncated (s : string) :
  len s + 1 <= maxInt ->
  mixedWordCount (s +:+ "...<truncated>") = mixedWordCount s + 1.
Proof.
  intros Hlen. pose proof (mixedWordCount_bounds s ltac:(lia)) as Hb.
  unfold mixedWordCount in *.
  rewrite runes_app_ascii by (vm_compute; reflexivity).
  replace (utf8.runes "...<truncated>")
    with (46 :: [46; 46; 60; 116; 114; 117; 110; 99; 97; 116; 101; 100; 62])
    by (vm_compute; reflexivity).
  rewrite countWords_separator by reflexivity.
  generalize dependent (countWords (utf8.runes s) [] 0). intros c Hc.
  cbn. rewrite wrapInt_id by (unfold minInt; lia). reflexivity.
Qed.

(** ** BuildPayload *)

Lemma cleanLines_nonempty (TrimSpace : string -> string) (lines : list string) :
  Forall (λ ln, ln ≠ "") (cleanLines TrimSpace lines)
  ∧ (length (cleanLines TrimSpace lines) <= length lines)%nat
  ∧ ∀ ln, ln ∈ cleanLines TrimSpace lines -> ∃ raw, raw ∈ lines ∧ ln = TrimSpace raw.
Proof.
  induction lines as [| ln lines (IH1 & IH2 & IH3)].
  - cbn. split; [constructor |]. split; [lia |]. intros ln H. inversion H.
  - cbn [cleanLines length].
    destruct (String.eqb (TrimSpace ln) "") eqn:He.
    + split; [exact IH1 |]. split; [lia |].
      intros l Hl. destruct (IH3 l Hl) as (raw & Hraw & ->).
      exists raw. split; [right; exact Hraw | reflexivity].
    + split.
      { constructor; [| exact IH1]. intros Heq. rewrite Heq in He. discriminate. }
      split; [cbn; lia |].
      intros l Hl. apply elem_of_cons in Hl as [-> | Hl].
      * exists ln. split; [left | reflexivity].
      * destruct (IH3 l Hl) as (raw & Hraw & ->).
        exists raw. split; [right; exact Hraw | reflexivity].
Qed.

(** X15. Whatever the message, the payload [BuildPayload] returns stays
    within its bounds: the preview has at most 143 bytes (140 and the
    ellipsis); with a positive limit the body has at most the limit plus the
    14 bytes of the truncation marker, and is the message's body untouched
    when that fits the limit or the limit is not positive; the body lines
    are trimmed lines of the body, none of them empty; and the word count of
    a non-empty body is between 0 and its length in bytes. *)
Theorem BuildPayload_stays_within_bounds (TrimSpace ToLower : string -> string)
    (unixNow : Z) (out : Payload) (bodyLimit : Z) :
  len (Body out) + 14 <= maxInt ->
  let p := BuildPayload TrimSpace ToLower unixNow (Some out) bodyLimit in
  len (Preview p) <= 143
  ∧ (0 < bodyLimit -> len (Body p) <= bodyLimit + 14)
  ∧ (bodyLimit <= 0 ∨ len (Body out) <= bodyLimit -> Body p = Body out)
  ∧ Forall (λ ln, ln ≠ "") (BodyLines p)
  ∧ (∀ ln, ln ∈ BodyLines p -> ∃ raw, raw ∈ splitLines (Body p) ∧ ln = TrimSpace raw)
  ∧ (Body p ≠ "" -> 0 <= WordCount p <= len (Body p)).
Proof.
  intros Hlen p. subst p. unfold BuildPayload.
  cbn [Preview Body BodyLines WordCount].
  split.
  { case_match.
    - rewrite len_append, len_take_bytes by lia.
      change (len "...") with 3. lia.
    - match goal with H : (_ <? _) = false |- _ => apply Z.ltb_ge in H end. lia. }
  split.
  { intros Hpos. case_match.
    - rewrite len_append, len_take_bytes by lia.
      change (len "...<truncated>") with 14. lia.
    - match goal with H : _ && _ = false |- _ =>
        apply andb_false_iff in H as [H | H]; [apply Z.ltb_ge in H | apply Z.ltb_ge in H]
      end; lia. }
  split.
  { intros Hfit. case_match; [| reflexivity].
    match goal with H : _ && _ = true |- _ =>
      apply andb_true_iff in H as [H1 H2]; apply Z.ltb_lt in H1, H2
    end. lia. }
  split; [apply cleanLines_nonempty |].
  split; [apply cleanLines_nonempty |].
  intros Hne. destruct (String.eqb _ "") eqn:He.
  { apply String.eqb_eq in He. contradiction. }
  apply mixedWordCount_bounds.
  case_match.
  - rewrite len_append, len_take_bytes by
      (match goal with H : _ && _ = true |- _ =>
         apply andb_true_iff in H as [H1 H2]; apply Z.ltb_lt in H1; lia end).
    change (len "...<truncated>") with 14. lia.
  - lia.
Qed.

(** X16. When the body is longer than a positive limit, [BuildPayload] cuts
    it at the limit and appends the marker, and the word count is taken
    after that: it is the count of the part kept plus one, the marker
    counting as the word "truncated". *)
Theorem BuildPayload_counts_the_truncation_marker (TrimSpace ToLower : string -> string)
    (unixNow : Z) (out : Payload) (bodyLimit : Z) :
  0 < bodyLimit < len (Body out) ->
  len (Body out) + 1 <= maxInt ->
  let p := BuildPayload TrimSpace ToLower unixNow (Some out) bodyLimit in
  Body p = take_bytes bodyLimit (Body out) +:+ "...<truncated>"
  ∧ len (Body p) = bodyLimit + 14
  ∧ WordCount p = mixedWordCount (take_bytes bodyLimit (Body out)) + 1.
Proof.
  intros [Hpos Hlt] Hlen p. subst p. unfold BuildPayload.
  cbn [Preview Body BodyLines WordCount].
  destruct (Z.ltb_spec 0 bodyLimit); [| lia].
  destruct (Z.ltb_spec bodyLimit (len (Body out))); [| lia].
  cbn [andb].
  split; [reflexivity |].
  split.
  { rewrite len_append, len_take_bytes by lia. change (len "...<truncated>") with 14. lia. }
  destruct (String.eqb _ "") eqn:He.
  { apply String.eqb_eq in He. apply (f_equal len) in He.
    rewrite len_append in He. change (len "...<truncated>") with 14 in He.
    change (len "") with 0 in He. unfold len in He. lia. }
  apply mixedWordCount_truncated.
  rewrite len_take_bytes by lia. lia.
Qed.

(** ** SendWithRetry *)

Section Sender_proofs.

Variable TrimSpace : string -> string.
Variable CanonicalMIMEHeaderKey : string -> string.

Lemma backoffAt_S (base : Z) (i : nat) :
  backoffAt (wrapInt (base * 2)) i = backoffAt base (S i).
Proof.
  unfold backoffAt. symmetry.
  exact (Nat.iter_succ_r i (λ b, wrapInt (b * 2)) base).
Qed.

Lemma backoffAt_pow (base : Z) (i : nat) :
  0 <= base -> base * 2 ^ Z.of_nat i <= maxInt -> backoffAt base i = base * 2 ^ Z.of_nat i.
Proof.
  intros Hb. induction i as [| i IH]; intros Hle.
  - cbn. lia.
  - rewrite Nat2Z.inj_succ, Z.pow_succ_r in Hle by lia.
    rewrite Nat2Z.inj_succ, Z.pow_succ_r by lia.
    pose proof (Z.pow_pos_nonneg 2 (Z.of_nat i) ltac:(lia) ltac:(lia)) as Hpow.
    change (backoffAt base (S i)) with (wrapInt (backoffAt base i * 2)).
    rewrite IH by nia. rewrite wrapInt_id by (unfold minInt; nia). lia.
Qed.

(** The loop, from an attempt [a] whose first accepted successor is [a + k]. *)
Lemma sendLoop_delivers (cf : Config) (respond : Z -> Response) (hs : Header)
    (p : Payload) (k : nat) :
  ∀ (fuel : nat) (a backoff : Z),
  (k < fuel)%nat ->
  0 <= a -> a + Z.of_nat k <= RetryMax cf -> RetryMax cf <= maxInt ->
  (∀ i, (i < k)%nat -> accepted (respond (a + Z.of_nat i)) = false) ->
  accepted (respond (a + Z.of_nat k)) = true ->
  ∃ effs, sendLoop fuel cf respond hs p a backoff
          = (Some None, effs ++ [EffPost (WebhookURL cf) hs p])
          ∧ posts effs = k
          ∧ sleeps effs = map (backoffAt backoff) (seq 0 k).
Proof.
  induction k as [| k IH]; intros fuel a backoff Hfuel Ha Hk Hmax Hrej Hacc.
  - destruct fuel as [| fuel]; [lia |]. cbn [sendLoop].
    rewrite Z.add_0_r in *.
    destruct (Z.leb_spec a (RetryMax cf)); [| lia].
    rewrite Hacc. exists []. done.
  - destruct fuel as [| fuel]; [lia |]. cbn [sendLoop].
    destruct (Z.leb_spec a (RetryMax cf)); [| lia].
    pose proof (Hrej 0%nat ltac:(lia)) as H0. rewrite Z.add_0_r in H0. rewrite H0.
    destruct (Z.eqb_spec a (RetryMax cf)); [lia |].
    rewrite (wrapInt_id (a + 1)) by (unfold minInt; lia).
    destruct (IH fuel (a + 1) (wrapInt (backoff * 2))) as (effs & Hrun & Hposts & Hsl).
    + lia.
    + lia.
    + lia.
    + exact Hmax.
    + intros i Hi. replace (a + 1 + Z.of_nat i) with (a + Z.of_nat (S i)) by lia.
      apply Hrej. lia.
    + replace (a + 1 + Z.of_nat k) with (a + Z.of_nat (S k)) by lia. exact Hacc.
    + rewrite Hrun.
      exists (EffPost (WebhookURL cf) hs p
              :: (if has_body (respond a) then [EffCloseBody] else [])
                 ++ EffSleep backoff :: effs).
      split; [rewrite <- app_comm_cons, <- app_assoc; reflexivity |].
      split.
      * unfold posts in *. cbn [List.filter is_post length].
        rewrite List.filter_app, length_app. cbn [List.filter is_post].
        rewrite Hposts. destruct (has_body (respond a)); reflexivity.
      * unfold sleeps in *. cbn [flat_map]. rewrite flat_map_app. cbn [flat_map].
        rewrite Hsl. cbn [seq map]. rewrite <- seq_shift, map_map.
        replace (flat_map (λ e, match e with EffSleep d => [d] | _ => [] end)
                   (if has_body (respond a) then [EffCloseBody] else []))
          with (@nil Z) by (destruct (has_body (respond a)); reflexivity).
        cbn [app]. f_equal.
        apply map_ext. intros i. apply backoffAt_S.
Qed.

(** The loop, from an attempt [a] with [k] attempts left, none accepted. *)
Lemma sendLoop_gives_up (cf : Config) (respond : Z -> Response) (hs : Header)
    (p : Payload) (k : nat) :
  ∀ (fuel : nat) (a backoff : Z),
  (k < fuel)%nat ->
  0 <= a -> a + Z.of_nat k = RetryMax cf + 1 -> RetryMax cf <= maxInt ->
  (∀ i, (i < k)%nat -> accepted (respond (a + Z.of_nat i)) = false) ->
  ∃ effs, sendLoop fuel cf respond hs p a backoff = (Some (Some failedAfterRetries), effs)
          ∧ posts effs = k
          ∧ sleeps effs = map (backoffAt backoff) (seq 0 (Nat.pred k))
          ∧ (∀ pre d, effs ≠ pre ++ [EffSleep d]).
Proof.
  induction k as [| k IH]; intros fuel a backoff Hfuel Ha Hk Hmax Hrej.
  - destruct fuel as [| fuel]; [lia |]. cbn [sendLoop].
    destruct (Z.leb_spec a (RetryMax cf)); [lia |].
    exists []. split; [reflexivity |]. split; [reflexivity |]. split; [reflexivity |].
    intros pre d Heq. destruct pre; discriminate.
  - destruct fuel as [| fuel]; [lia |]. cbn [sendLoop].
    destruct (Z.leb_spec a (RetryMax cf)); [| lia].
    pose proof (Hrej 0%nat ltac:(lia)) as H0. rewrite Z.add_0_r in H0. rewrite H0.
    destruct (Z.eqb_spec a (RetryMax cf)) as [Heq | Hne].
    + assert (k = 0%nat) as -> by lia.
      eexists. split; [reflexivity |]. split.
      { unfold posts. cbn [List.filter is_post length].
        destruct (has_body (respond a)); reflexivity. }
      split.
      { unfold sleeps. cbn [flat_map]. destruct (has_body (respond a)); reflexivity. }
      intros pre d Hpre.
      destruct (has_body (respond a));
        destruct pre as [| ? [| ? [| ? pre]]]; try discriminate;
        cbn in Hpre; simplify_eq.
    + rewrite (wrapInt_id (a + 1)) by (unfold minInt; lia).
      destruct (IH fuel (a + 1) (wrapInt (backoff * 2)))
        as (effs & Hrun & Hposts & Hsl & Hlast).
      * lia.
      * lia.
      * lia.
      * exact Hmax.
      * intros i Hi. replace (a + 1 + Z.of_nat i) with (a + Z.of_nat (S i)) by lia.
        apply Hrej. lia.
      * rewrite Hrun. eexists. split; [reflexivity |]. split.
        { unfold posts in *. cbn [List.filter is_post length].
          rewrite List.filter_app, length_app. cbn [List.filter is_post].
          rewrite Hposts. destruct (has_body (respond a)); reflexivity. }
        split.
        { unfold sleeps in *. cbn [flat_map]. rewrite flat_map_app. cbn [flat_map].
          rewrite Hsl.
          replace (flat_map (λ e, match e with EffSleep d => [d] | _ => [] end)
                     (if has_body (respond a) then [EffCloseBody] else []))
            with (@nil Z) by (destruct (has_body (respond a)); reflexivity).
          cbn [app]. destruct k as [| k]; [lia |].
          cbn [Nat.pred seq map]. rewrite <- seq_shift, map_map.
          f_equal. apply map_ext. intros i. apply backoffAt_S. }
        intros pre d Hpre.
        assert (k ≠ 0%nat) as Hk0 by lia.
        assert (effs ≠ []) as Hne'.
        { intros ->. unfold posts in Hposts. cbn in Hposts. lia. }
        destruct (exists_last Hne') as (effs0 & x & ->).
        replace (EffPost (WebhookURL cf) hs p
                 :: (if has_body (respond a) then [EffCloseBody] else [])
                    ++ EffSleep backoff :: effs0 ++ [x])
          with ((EffPost (WebhookURL cf) hs p
                 :: (if has_body (respond a) then [EffCloseBody] else [])
                    ++ EffSleep backoff :: effs0) ++ [x]) in Hpre
          by (rewrite <- app_comm_cons, <- app_assoc; reflexivity).
        apply app_inj_tail in Hpre as [_ ->].
        apply (Hlast effs0 d). reflexivity.
Qed.

(** X13. [SendWithRetry] delivers at the first accepted attempt: when the
    requests of the attempts before [k] are rejected (a transport error or a
    status outside 200..299) and the one of attempt [k <= RetryMax] is
    accepted, it returns nil after exactly [k + 1] requests, having slept
    [k] times, the base backoff doubled each time, and the accepted request
    is the last thing it does. *)
Theorem SendWithRetry_delivers_at_first_accepted (cf : Config) (respond : Z -> Response)
    (p : Payload) (k : nat) :
  Z.of_nat k <= RetryMax cf -> RetryMax cf <= maxInt ->
  (∀ i, (i < k)%nat -> accepted (respond (Z.of_nat i)) = false) ->
  accepted (respond (Z.of_nat k)) = true ->
  let post :=
    EffPost (WebhookURL cf)
      (parseHeaders TrimSpace CanonicalMIMEHeaderKey (WebhookHeader cf)) p in
  ∃ effs,
    SendWithRetry TrimSpace CanonicalMIMEHeaderKey cf respond p
    = (Some None, effs ++ [post])
    ∧ posts (effs ++ [post]) = S k
    ∧ sleeps (effs ++ [post]) = map (backoffAt (RetryBaseBackoff cf)) (seq 0 k).
Proof.
  intros Hk Hmax Hrej Hacc post. subst post. unfold SendWithRetry.
  destruct (sendLoop_delivers cf respond
              (parseHeaders TrimSpace CanonicalMIMEHeaderKey (WebhookHeader cf)) p k
              (S (Z.to_nat (RetryMax cf + 1))) 0
              (RetryBaseBackoff cf)) as (effs & Hrun & Hposts & Hsl).
  - lia.
  - lia.
  - lia.
  - exact Hmax.
  - intros i Hi. rewrite Z.add_0_l. apply Hrej. exact Hi.
  - rewrite Z.add_0_l. exact Hacc.
  - exists effs. split; [exact Hrun |]. split.
    + unfold posts in *. rewrite List.filter_app, length_app, Hposts. cbn. lia.
    + unfold sleeps in *. rewrite flat_map_app, Hsl. cbn. apply app_nil_r.
Qed.

(** X14. [SendWithRetry] gives up after [RetryMax + 1] requests: when none of
    the attempts [0..RetryMax] is accepted it returns the error
    "webhook send failed after retries" after exactly [RetryMax + 1] requests
    and [RetryMax] sleeps, the base backoff doubled each time, and it does
    not sleep after the last request. With a negative [RetryMax] that is no
    request at all. *)
Theorem SendWithRetry_gives_up_after_RetryMax (cf : Config) (respond : Z -> Response)
    (p : Payload) :
  RetryMax cf <= maxInt ->
  (∀ i, 0 <= i <= RetryMax cf -> accepted (respond i) = false) ->
  ∃ effs, SendWithRetry TrimSpace CanonicalMIMEHeaderKey cf respond p = (Some (Some failedAfterRetries), effs)
          ∧ Z.of_nat (posts effs) = Z.max 0 (RetryMax cf + 1)
          ∧ sleeps effs
            = map (backoffAt (RetryBaseBackoff cf)) (seq 0 (Z.to_nat (RetryMax cf)))
          ∧ (∀ pre d, effs ≠ pre ++ [EffSleep d])
          ∧ (RetryMax cf < 0 -> effs = []).
Proof.
  intros Hmax Hrej. unfold SendWithRetry.
  destruct (Z.lt_ge_cases (RetryMax cf) 0) as [Hneg | Hpos].
  - cbn [sendLoop]. destruct (Z.leb_spec 0 (RetryMax cf)); [lia |].
    exists []. split; [reflexivity |]. split; [cbn; lia |]. split.
    + replace (Z.to_nat (RetryMax cf)) with 0%nat by lia. reflexivity.
    + split; [intros pre d Heq; destruct pre; discriminate | reflexivity].
  - destruct (sendLoop_gives_up cf respond
                (parseHeaders TrimSpace CanonicalMIMEHeaderKey (WebhookHeader cf)) p (Z.to_nat (RetryMax cf + 1))
                (S (Z.to_nat (RetryMax cf + 1))) 0 (RetryBaseBackoff cf))
      as (effs & Hrun & Hposts & Hsl & Hlast).
    + lia.
    + lia.
    + lia.
    + exact Hmax.
    + intros i Hi. rewrite Z.add_0_l. apply Hrej. lia.
    + exists effs. split; [exact Hrun |]. split; [lia |]. split.
      * rewrite Hsl. f_equal. f_equal. lia.
      * split; [exact Hlast | lia].
Qed.
(** ** parseHeaders *)

Lemma splitOn_no_sep (sep : Ascii.ascii) (s : string) :
  ∀ seg, seg ∈ splitOn sep s -> sep ∉ chars seg.
Proof.
  unfold chars. induction s as [| ch s IH]; intros seg Hin.
  - cbn in Hin. apply list_elem_of_singleton in Hin. subst seg. apply not_elem_of_nil.
  - cbn [splitOn] in Hin. destruct (Ascii.eqb_spec ch sep) as [-> | Hne].
    + apply elem_of_cons in Hin as [-> | Hin]; [apply not_elem_of_nil | apply IH, Hin].
    + destruct (splitOn sep s) as [| hd tl] eqn:Hs.
      * apply list_elem_of_singleton in Hin. subst seg. cbn.
        intros H. apply elem_of_cons in H as [H | H]; [congruence | inversion H].
      * apply elem_of_cons in Hin as [-> | Hin].
        -- cbn. intros H. apply elem_of_cons in H as [H | H]; [congruence |].
           revert H. apply IH. left.
        -- apply IH. right. exact Hin.
Qed.

Lemma cutAt_Some (sep : Ascii.ascii) (s : string) : ∀ k v,
  cutAt sep s = Some (k, v) ->
  s = k +:+ String sep v ∧ (sep ∉ chars k) ∧ ∀ c, c ∈ chars v -> c ∈ chars s.
Proof.
  unfold chars. induction s as [| ch s IH]; intros k v Hcut; [discriminate |].
  cbn [cutAt] in Hcut. destruct (Ascii.eqb_spec ch sep) as [-> | Hne].
  - simplify_eq. split; [reflexivity |]. split; [apply not_elem_of_nil |].
    intros c Hc. cbn. right. exact Hc.
  - destruct (cutAt sep s) as [[k' v'] |] eqn:Hs; [| discriminate]. simplify_eq.
    destruct (IH k' v eq_refl) as (-> & Hk & Hv).
    split; [reflexivity |]. split.
    + cbn. intros H. apply elem_of_cons in H as [H | H]; [congruence | contradiction].
    + intros c Hc. cbn [String.list_ascii_of_string]. right. apply Hv, Hc.
Qed.

Lemma Header_Add_lookup (key value : string) (h : Header) (k : string)
    (vals : list string) (v : string) :
  Header_Add CanonicalMIMEHeaderKey key value h !! k = Some vals ->
  v ∈ vals ->
  (k = CanonicalMIMEHeaderKey key ∧ v = value)
  ∨ ∃ vals', h !! k = Some vals' ∧ v ∈ vals'.
Proof.
  intros Hl Hv. unfold Header_Add in Hl. cbn zeta in Hl.
  destruct (decide (k = CanonicalMIMEHeaderKey key)) as [-> | Hne].
  - rewrite lookup_insert_eq in Hl. simplify_eq.
    apply elem_of_app in Hv as [Hv | Hv].
    + right. destruct (h !! CanonicalMIMEHeaderKey key) as [vals' |]; [eauto |].
      cbn in Hv. inversion Hv.
    + left. apply list_elem_of_singleton in Hv. auto.
  - rewrite lookup_insert_ne in Hl by congruence. right. eauto.
Qed.

Lemma addPairs_values (pairs : list string) : ∀ (h : Header) k vals v,
  addPairs TrimSpace CanonicalMIMEHeaderKey pairs h !! k = Some vals ->
  v ∈ vals ->
  (∃ seg, seg ∈ pairs ∧ TrimSpace seg ≠ ""
          ∧ from_pair TrimSpace CanonicalMIMEHeaderKey seg k v)
  ∨ ∃ vals', h !! k = Some vals' ∧ v ∈ vals'.
Proof.
  induction pairs as [| p rest IH]; intros h k vals v Hl Hv.
  - right. eauto.
  - cbn [addPairs] in Hl. cbn zeta in Hl.
    destruct (String.eqb_spec (TrimSpace p) "") as [Hemp | Hne].
    { destruct (IH h k vals v Hl Hv) as [(seg & Hin & Hs) | Hold]; [| auto].
      left. exists seg. split; [right; exact Hin | exact Hs]. }
    destruct (cutAt equals_sign (TrimSpace p)) as [[key val] |] eqn:Hcut.
    + destruct (IH _ k vals v Hl Hv) as [(seg & Hin & Hs) | (vals' & Hl' & Hv')].
      * left. exists seg. split; [right; exact Hin | exact Hs].
      * destruct (Header_Add_lookup _ _ _ _ _ _ Hl' Hv') as [[-> ->] | Hold]; [| auto].
        left. exists p. split; [left |]. split; [exact Hne |].
        exists key, val. auto.
    + destruct (IH h k vals v Hl Hv) as [(seg & Hin & Hs) | Hold]; [| auto].
      left. exists seg. split; [right; exact Hin | exact Hs].
Qed.

(** X27. Every header [parseHeaders] records comes from one of the pairs
    the text splits into at its semicolons: the pair, trimmed, is not empty
    and is cut at its first '=' into the key, canonicalized, and the value,
    both trimmed. So the key holds no '=' before trimming, a pair without
    '=' leaves no header, and, trimming only taking bytes away, no value
    holds a semicolon: what follows a semicolon inside a value is read as
    the next pair. *)
Theorem parseHeaders_reads_pairs (raw key : string) (vals : list string) (v : string) :
  (∀ s c, c ∈ chars (TrimSpace s) -> c ∈ chars s) ->
  parseHeaders TrimSpace CanonicalMIMEHeaderKey raw !! key = Some vals ->
  v ∈ vals ->
  (∃ seg k val,
     seg ∈ splitOn semicolon raw
     ∧ TrimSpace seg = k +:+ String equals_sign val
     ∧ (equals_sign ∉ chars k)
     ∧ key = CanonicalMIMEHeaderKey (TrimSpace k)
     ∧ v = TrimSpace val)
  ∧ (semicolon ∉ chars v).
Proof.
  intros Htrim Hl Hv. unfold parseHeaders in Hl.
  destruct (String.eqb raw ""); [rewrite lookup_empty in Hl; discriminate |].
  destruct (addPairs_values _ _ _ _ _ Hl Hv)
    as [(seg & Hin & Hne & k & val & Hcut & -> & ->) | (vals' & Hl' & _)];
    [| rewrite lookup_empty in Hl'; discriminate].
  destruct (cutAt_Some _ _ _ _ Hcut) as (Heq & Hk & Hval).
  split; [exists seg, k, val; auto |].
  intros Hsemi. apply (splitOn_no_sep semicolon raw seg Hin).
  apply Htrim, Hval, Htrim, Hsemi.
Qed.

End Sender_proofs.

(** ** The retry bound, from the command line to the delivery *)

(** X28. [Load] does not check the retry bound: a negative [--retry-max]
    that scans is returned as it is, and with it [SendWithRetry] fails at
    once, without a single request and without a sleep, whatever the
    receiver would answer. *)
Theorem negative_retry_flag_sends_nothing (Sscanf_d ParseDuration : string -> option Z)
    (TrimSpace CanonicalMIMEHeaderKey : string -> string)
    (env : LoadEnv) (cfg : Config) (args : list (string * string)) (v : string) (n : Z)
    (respond : Z -> Response) (p : Payload) :
  Load Sscanf_d ParseDuration env = Loaded cfg ->
  flagArgs env = Some args ->
  lastValue "retry-max" args = Some v ->
  Sscanf_d v = Some n ->
  n < 0 ->
  RetryMax cfg = n
  ∧ SendWithRetry TrimSpace CanonicalMIMEHeaderKey cfg respond p
    = (Some (Some failedAfterRetries), []).
Proof.
  intros HLoad Hargs Hlast Hscan Hneg.
  destruct (config_extra.Load_layers_int Sscanf_d ParseDuration env cfg args HLoad Hargs
              "retry-max" "RETRY_MAX" RetryMax fcRetryMax ltac:(repeat constructor))
    as [Hval _].
  rewrite Hlast in Hval. cbn in Hval. rewrite Hscan in Hval. cbn in Hval.
  split; [exact Hval |].
  unfold SendWithRetry. cbn [sendLoop].
  destruct (Z.leb_spec 0 (RetryMax cfg)); [lia | reflexivity].
Qed.

Lemma SendWithRetry_delivers_at_first_accepted_witness :
  let post :=
    webhook.EffPost (WebhookURL webhook.senderConfig)
      (webhook.parseHeaders id id (WebhookHeader webhook.senderConfig))
      webhook.samplePayload in
  ∃ effs,
    webhook.SendWithRetry id id webhook.senderConfig webhook.flakyReceiver
      webhook.samplePayload
    = (Some None, effs ++ [post])
    ∧ webhook.posts (effs ++ [post]) = 3%nat
    ∧ webhook.sleeps (effs ++ [post])
      = map (webhook.backoffAt (RetryBaseBackoff webhook.senderConfig)) (seq 0 2).
Proof.
  apply (SendWithRetry_delivers_at_first_accepted id id
           webhook.senderConfig webhook.flakyReceiver webhook.samplePayload 2).
  - vm_compute. discriminate.
  - vm_compute. discriminate.
  - intros i Hi. destruct i as [| [| i]]; [reflexivity | reflexivity | lia].
  - reflexivity.
Defined.

Lemma SendWithRetry_gives_up_after_RetryMax_witness :
  ∃ effs,
    webhook.SendWithRetry id id webhook.senderConfig webhook.deadReceiver
      webhook.samplePayload
    = (Some (Some webhook.failedAfterRetries), effs)
    ∧ Z.of_nat (webhook.posts effs) = 6
    ∧ webhook.sleeps effs
      = map (webhook.backoffAt (RetryBaseBackoff webhook.senderConfig)) (seq 0 5).
Proof.
  destruct (SendWithRetry_gives_up_after_RetryMax id id
              webhook.senderConfig webhook.deadReceiver webhook.samplePayload)
    as (effs & Hrun & Hposts & Hsl & _).
  - vm_compute. discriminate.
  - intros i Hi. reflexivity.
  - exists effs. split; [exact Hrun |]. split; [exact Hposts | exact Hsl].
Defined.

Lemma parseHeaders_reads_pairs_witness :
  webhook.parseHeaders id id "X-Token=abc123;X-Env=prod" !! "X-Env" = Some ["prod"]
  ∧ (webhook.semicolon ∉ webhook.chars "prod").
Proof.
  split; [vm_compute; reflexivity |].
  apply (parseHeaders_reads_pairs id id "X-Token=abc123;X-Env=prod"
           "X-Env" ["prod"] "prod").
  - intros s c Hc. exact Hc.
  - vm_compute. reflexivity.
  - left.
Defined.

Lemma BuildPayload_stays_within_bounds_witness :
  let p := webhook.BuildPayload id id 1727500000 (Some webhook.samplePayload) 11 in
  webhook.len (webhook.Preview p) <= 143
  ∧ webhook.len (webhook.Body p) <= 11 + 14
  ∧ Forall (λ ln, ln ≠ "") (webhook.BodyLines p).
Proof.
  destruct (BuildPayload_stays_within_bounds id id 1727500000
              webhook.samplePayload 11) as (H1 & H2 & _ & H4 & _).
  - vm_compute. discriminate.
  - split; [exact H1 |]. split; [apply H2; lia | exact H4].
Defined.

Lemma BuildPayload_counts_the_truncation_marker_witness :
  let p := webhook.BuildPayload id id 1727500000 (Some webhook.samplePayload) 11 in
  webhook.Body p
  = webhook.take_bytes 11 (webhook.Body webhook.samplePayload) +:+ "...<truncated>"
  ∧ webhook.len (webhook.Body p) = 11 + 14
  ∧ webhook.WordCount p
    = webhook.mixedWordCount (webhook.take_bytes 11 (webhook.Body webhook.samplePayload))
      + 1.
Proof.
  apply (BuildPayload_counts_the_truncation_marker id id 1727500000
           webhook.samplePayload 11).
  - vm_compute. split; reflexivity.
  - vm_compute. discriminate.
Defined.

Lemma negative_retry_flag_sends_nothing_witness :
  RetryMax config.commandLineConfig = -1
  ∧ webhook.SendWithRetry id id config.commandLineConfig webhook.flakyReceiver
      webhook.samplePayload
    = (Some (Some webhook.failedAfterRetries), []).
Proof.
  apply (negative_retry_flag_sends_nothing config.scanSmall
           config.parseSeconds id id config.commandLineOnly
           config.commandLineConfig
           [("imap-host", "imap.example.com"); ("username", "user@example.com");
            ("password", "app-password"); ("webhook", "http://127.0.0.1:8080/mail");
            ("tls", "0"); ("starttls", "1"); ("retry-max", "-1")]
           "-1" (-1)).
  - vm_compute. reflexivity.
  - reflexivity.
  - reflexivity.
  - reflexivity.
  - lia.
Defined.

End webhook_extra.

Module parser_extra.
Import config parser webhook_extra.

(** ** The text helpers of the parser *)

Lemma stripFrom_clean (s : string) : ∀ inTag,
  (lt_sign ∉ chars (stripFrom inTag s)) ∧ (gt_sign ∉ chars (stripFrom inTag s)).
Proof.
  induction s as [| ch s IH]; intros inTag.
  - cbn. split; apply not_elem_of_nil.
  - cbn [stripFrom].
    destruct (Ascii.eqb_spec ch lt_sign) as [-> | Hlt]; [apply IH |].
    destruct (Ascii.eqb_spec ch gt_sign) as [-> | Hgt]; [apply IH |].
    destruct inTag; cbn [negb]; [apply IH |].
    destruct (IH false) as [H1 H2].
    unfold chars in *. cbn [String.list_ascii_of_string].
    split; intros Hin; apply elem_of_cons in Hin as [Heq | Hin]; congruence.
Qed.

Lemma stripFrom_id (s : string) :
  lt_sign ∉ chars s -> gt_sign ∉ chars s -> stripFrom false s = s.
Proof.
  unfold chars. induction s as [| ch s IH]; intros Hlt Hgt; [reflexivity |].
  cbn [String.list_ascii_of_string] in *.
  apply not_elem_of_cons in Hlt as [Hlt1 Hlt], Hgt as [Hgt1 Hgt].
  cbn [stripFrom].
  destruct (Ascii.eqb_spec ch lt_sign); [congruence |].
  destruct (Ascii.eqb_spec ch gt_sign); [congruence |].
  cbn [negb]. rewrite IH by assumption. reflexivity.
Qed.

Lemma stripFrom_length (s : string) : ∀ inTag,
  (String.length (stripFrom inTag s) <= String.length s)%nat.
Proof.
  induction s as [| ch s IH]; intros inTag; [cbn; lia |].
  cbn [stripFrom String.length].
  destruct (Ascii.eqb ch lt_sign); [specialize (IH true); lia |].
  destruct (Ascii.eqb ch gt_sign); [specialize (IH false); lia |].
  destruct inTag; cbn [negb String.length]; [specialize (IH true) | specialize (IH false)];
    lia.
Qed.

(** Inside a tag that is never closed everything is dropped. *)
Lemma stripFrom_unclosed (s : string) :
  gt_sign ∉ chars s -> stripFrom true s = "".
Proof.
  unfold chars. induction s as [| ch s IH]; intros Hgt; [reflexivity |].
  cbn [String.list_ascii_of_string] in Hgt.
  apply not_elem_of_cons in Hgt as [Hgt1 Hgt].
  cbn [stripFrom].
  destruct (Ascii.eqb ch lt_sign); [apply IH; exact Hgt |].
  destruct (Ascii.eqb_spec ch gt_sign); [congruence |].
  cbn [negb]. apply IH. exact Hgt.
Qed.

Lemma stripFrom_cut (a rest : string) : ∀ inTag,
  gt_sign ∉ chars rest ->
  stripFrom inTag (a +:+ String lt_sign rest) = stripFrom inTag a.
Proof.
  induction a as [| ch a IH]; intros inTag Hgt.
  - change ("" +:+ String lt_sign rest) with (String lt_sign rest).
    cbn [stripFrom]. rewrite Ascii.eqb_refl.
    apply stripFrom_unclosed. exact Hgt.
  - change (String ch a +:+ String lt_sign rest)
      with (String ch (a +:+ String lt_sign rest)).
    cbn [stripFrom].
    destruct (Ascii.eqb ch lt_sign); [apply IH; exact Hgt |].
    destruct (Ascii.eqb ch gt_sign); [apply IH; exact Hgt |].
    destruct inTag; cbn [negb]; [apply IH; exact Hgt |].
    rewrite IH by exact Hgt. reflexivity.
Qed.

(** X23. [htmlStripTags] leaves no angle bracket: its result contains
    neither '<' nor '>', is never longer than the text, and stripping it
    again changes nothing. A '<' that is never closed takes the rest of the
    text with it: everything from the last unclosed '<' on is dropped. *)
Theorem htmlStripTags_leaves_no_angle_bracket (s : string) :
  let t := htmlStripTags s in
  (lt_sign ∉ chars t) ∧ (gt_sign ∉ chars t)
  ∧ htmlStripTags t = t
  ∧ (String.length t <= String.length s)%nat
  ∧ (∀ a rest, s = a +:+ String lt_sign rest -> gt_sign ∉ chars rest ->
       t = htmlStripTags a).
Proof.
  intros t. subst t. unfold htmlStripTags.
  destruct (stripFrom_clean s false) as [Hlt Hgt].
  split; [exact Hlt |]. split; [exact Hgt |].
  split; [apply stripFrom_id; assumption |].
  split; [apply stripFrom_length |].
  intros a rest -> Hrest. apply stripFrom_cut. exact Hrest.
Qed.

Lemma limitText_len (s : string) :
  webhook.len (limitText s) <= 20014 ∧ (webhook.len s <= 20000 -> limitText s = s).
Proof.
  unfold limitText. destruct (Z.ltb_spec 20000 (webhook.len s)).
  - rewrite len_append, len_take_bytes by lia.
    change (webhook.len "...<truncated>") with 14. lia.
  - split; [lia | reflexivity].
Qed.

(** ** extractBody *)

Section extractBody_proofs.

Variable decodeTransferIfNeeded : string -> string -> string.
Variable removeStyleTags : string -> string.
Variable htmlToText : string -> string -> string.

Lemma extractBody_len (m : Mail) (cfg : Config) :
  webhook.len (extractBody decodeTransferIfNeeded removeStyleTags htmlToText m cfg).1.1
  <= 20014.
Proof.
  unfold extractBody.
  repeat case_match; cbn [fst];
    first [apply (proj1 (limitText_len _)) | (vm_compute; discriminate)].
Qed.

(** What the loop over the parts leaves in [plain] and [html]. *)
Lemma readParts_result (mode : string) (parts : list Part) (last : error) :
  ∀ (plain0 html0 plain html : string),
  readParts decodeTransferIfNeeded removeStyleTags htmlToText mode parts last plain0 html0
  = inr (plain, html) ->
  (plain = plain0
   ∨ ∃ p, p ∈ parts ∧ String.prefix "text/plain" (part_ct p) = true
          ∧ plain = decodeTransferIfNeeded (part_data p) (part_cte p))
  ∧ (html = html0
     ∨ ∃ p, p ∈ parts ∧ String.prefix "text/html" (part_ct p) = true
            ∧ html = htmlToText
                       (removeStyleTags (decodeTransferIfNeeded (part_data p) (part_cte p)))
                       mode).
Proof.
  induction parts as [| p rest IH]; intros plain0 html0 plain html Hrun.
  - cbn in Hrun. destruct last; [discriminate |]. simplify_eq. auto.
  - cbn [readParts] in Hrun. cbn zeta in Hrun.
    set (plain1 := if String.prefix "text/plain" (part_ct p) && String.eqb plain0 ""
                   then decodeTransferIfNeeded (part_data p) (part_cte p)
                   else plain0) in *.
    set (html1 := if String.prefix "text/html" (part_ct p) && String.eqb html0 ""
                  then htmlToText
                         (removeStyleTags
                            (decodeTransferIfNeeded (part_data p) (part_cte p))) mode
                  else html0) in *.
    assert (plain1 = plain0
            ∨ (String.prefix "text/plain" (part_ct p) = true
               ∧ plain1 = decodeTransferIfNeeded (part_data p) (part_cte p))) as Hp1.
    { subst plain1. destruct (String.prefix "text/plain" (part_ct p)); cbn [andb]; auto.
      destruct (String.eqb plain0 ""); auto. }
    assert (html1 = html0
            ∨ (String.prefix "text/html" (part_ct p) = true
               ∧ html1 = htmlToText
                           (removeStyleTags
                              (decodeTransferIfNeeded (part_data p) (part_cte p)))
                           mode)) as Hh1.
    { subst html1. destruct (String.prefix "text/html" (part_ct p)); cbn [andb]; auto.
      destruct (String.eqb html0 ""); auto. }
    clearbody plain1 html1.
    assert ((plain = plain1
             ∨ ∃ q, q ∈ rest ∧ String.prefix "text/plain" (part_ct q) = true
                    ∧ plain = decodeTransferIfNeeded (part_data q) (part_cte q))
            ∧ (html = html1
               ∨ ∃ q, q ∈ rest ∧ String.prefix "text/html" (part_ct q) = true
                      ∧ html = htmlToText
                                 (removeStyleTags
                                    (decodeTransferIfNeeded (part_data q) (part_cte q)))
                                 mode)) as [Hp Hh].
    { destruct (negb (String.eqb plain1 "") && negb (String.eqb html1 "")).
      - simplify_eq. auto.
      - apply IH. exact Hrun. }
    split.
    + destruct Hp as [-> | (q & Hq & Hct & ->)].
      * destruct Hp1 as [-> | [Hct ->]]; [auto |].
        right. exists p. split; [left | auto].
      * right. exists q. split; [right; exact Hq | auto].
    + destruct Hh as [-> | (q & Hq & Hct & ->)].
      * destruct Hh1 as [-> | [Hct ->]]; [auto |].
        right. exists p. split; [left | auto].
      * right. exists q. split; [right; exact Hq | auto].
Qed.

Lemma readParts_error (mode : string) (parts : list Part) (last : error) :
  ∀ (plain0 html0 err : string),
  readParts decodeTransferIfNeeded removeStyleTags htmlToText mode parts last plain0 html0
  = inl err ->
  last = Some err.
Proof.
  induction parts as [| p rest IH]; intros plain0 html0 err Hrun.
  - cbn in Hrun. destruct last; simplify_eq. reflexivity.
  - cbn [readParts] in Hrun. cbn zeta in Hrun.
    destruct (negb _ && negb _); [discriminate |]. eapply IH. exact Hrun.
Qed.

(** X24. Whatever the message, the text [extractBody] returns has at most
    20014 bytes (20000 and the truncation marker), and an error of the
    multipart reader leaves both results empty. *)
Theorem extractBody_text_is_limited (m : Mail) (cfg : Config) :
  let r := extractBody decodeTransferIfNeeded removeStyleTags htmlToText m cfg in
  webhook.len r.1.1 <= 20014
  ∧ (∀ err, r.2 = Some err -> r.1 = ("", ""))
  ∧ (∀ err, r.2 = Some err ->
       ∃ mt, mediaType m = Some mt ∧ String.prefix "multipart/" mt = true
             ∧ parts_error m = Some err).
Proof.
  intros r. subst r. split; [apply extractBody_len |].
  unfold extractBody.
  destruct (mediaType m) as [mt |]; [| split; intros err H; discriminate].
  destruct (String.prefix "multipart/" mt) eqn:Hmp.
  - destruct (readParts _ _ _ _ _ _ _ _) as [e | [plain html]] eqn:Hrun.
    + split; [reflexivity |]. intros err H. cbn in H. simplify_eq.
      exists mt. split; [reflexivity |]. split; [exact Hmp |].
      eapply readParts_error. exact Hrun.
    + split; intros err H; repeat case_match; discriminate.
  - split; intros err H; repeat case_match; discriminate.
Qed.

(** X25. For a multipart message the second result of [extractBody], which
    [parseRaw] stores as the raw HTML and builds the blocks from, is not the
    HTML of the message but the text [htmlToText] made of the first HTML
    part (or empty); the text returned is the first plain part if there is
    a non-empty one, else that same converted text, cut by [limitText]. *)
Theorem extractBody_multipart_returns_converted_html (m : Mail) (cfg : Config)
    (mt : string) :
  mediaType m = Some mt ->
  String.prefix "multipart/" mt = true ->
  parts_error m = None ->
  let r := extractBody decodeTransferIfNeeded removeStyleTags htmlToText m cfg in
  r.2 = None
  ∧ (r.1.2 = ""
     ∨ ∃ p, p ∈ mail_parts m ∧ String.prefix "text/html" (part_ct p) = true
            ∧ r.1.2 = htmlToText
                        (removeStyleTags
                           (decodeTransferIfNeeded (part_data p) (part_cte p)))
                        (HTMLToTextMode cfg))
  ∧ (r.1.1 = limitText r.1.2
     ∨ ∃ p, p ∈ mail_parts m ∧ String.prefix "text/plain" (part_ct p) = true
            ∧ decodeTransferIfNeeded (part_data p) (part_cte p) ≠ ""
            ∧ r.1.1 = limitText (decodeTransferIfNeeded (part_data p) (part_cte p))).
Proof.
  intros Hmt Hmp Hend r. subst r. unfold extractBody. rewrite Hmt, Hmp.
  destruct (readParts _ _ _ _ _ _ _ _) as [e | [plain html]] eqn:Hrun.
  - apply readParts_error in Hrun. congruence.
  - destruct (readParts_result _ _ _ _ _ _ _ Hrun) as [Hp Hh].
    destruct (String.eqb_spec plain "") as [-> | Hplain]; cbn [negb].
    + destruct (String.eqb_spec html "") as [-> | Hhtml]; cbn [negb fst snd].
      * split; [reflexivity |]. split; [left; reflexivity |]. left. reflexivity.
      * split; [reflexivity |]. split.
        { destruct Hh as [-> | Hh]; [left; reflexivity | right; exact Hh]. }
        left. reflexivity.
    + cbn [fst snd]. split; [reflexivity |]. split.
      { destruct Hh as [-> | Hh]; [left; reflexivity | right; exact Hh]. }
      right. destruct Hp as [-> | (p & Hin & Hct & ->)]; [done |].
      exists p. auto.
Qed.

End extractBody_proofs.

(** ** The attachments *)

Lemma BodyStructure_induction (P : BodyStructure -> Prop) :
  (∀ parts d mt ps dps, Forall P parts -> P (mkBodyStructure parts d mt ps dps)) ->
  ∀ bs, P bs.
Proof.
  intros H. fix IH 1. intros [parts d mt ps dps]. apply H.
  induction parts as [| p rest IHrest]; constructor; [apply IH | exact IHrest].
Qed.

Section attachments_proofs.

Variable ToLower : string -> string.
Variable EqualFold : string -> string -> bool.
Variable TrimSpace : string -> string.
Variable decodeHeader : string -> string.

Lemma leaf_in_step (cfg : Config) (bs : BodyStructure) (st : Walk) :
  in_step st -> in_step (leaf ToLower EqualFold TrimSpace decodeHeader cfg bs st).
Proof.
  intros (Hnd & Hne & Hseen). unfold leaf.
  destruct (_ || _); [| done].
  destruct (_ && _ && _); [done |].
  match goal with |- in_step (if String.eqb ?f "" then _ else _) =>
    set (filename := f)
  end.
  destruct (String.eqb_spec filename "") as [| Hfile]; [done |].
  match goal with |- in_step (if decide (?c ∈ _) then _ else _) =>
    assert (c ≠ "") as Hcand
      by (destruct (String.eqb_spec (TrimSpace (decodeHeader filename)) "");
          assumption);
    generalize dependent c
  end.
  intros cand Hcand. destruct (decide (cand ∈ st.1)) as [Hin | Hnin]; [done |].
  unfold in_step. cbn [fst snd]. split; [| split].
  - apply NoDup_app. split; [exact Hnd |]. split.
    + intros x Hx Hx'. apply list_elem_of_singleton in Hx'. subst x.
      apply Hnin, Hseen, Hx.
    + apply NoDup_singleton.
  - apply Forall_app. split; [exact Hne | repeat constructor; exact Hcand].
  - intros name. rewrite elem_of_union, elem_of_singleton, elem_of_app,
      list_elem_of_singleton, Hseen. tauto.
Qed.

Lemma walk_in_step (cfg : Config) (bs : BodyStructure) : ∀ st,
  in_step st -> in_step (walk ToLower EqualFold TrimSpace decodeHeader cfg bs st).
Proof.
  induction bs as [parts d mt ps dps IH] using BodyStructure_induction.
  intros st Hst. destruct parts as [| p rest].
  - apply leaf_in_step. exact Hst.
  - change (walk ToLower EqualFold TrimSpace decodeHeader cfg
              (mkBodyStructure (p :: rest) d mt ps dps) st)
      with (fold_left (λ st q, walk ToLower EqualFold TrimSpace decodeHeader cfg q st)
              (p :: rest) st).
    revert st Hst. induction IH as [| q qs Hq _ IHqs]; intros st Hst; [exact Hst |].
    cbn [fold_left]. apply IHqs, Hq, Hst.
Qed.

(** X26. The attachment names [parseRaw] collects from the body structure,
    however deep it nests, are never empty and never repeat, and the message
    is flagged as having attachments exactly when there is a name. *)
Theorem attachments_are_named_once (cfg : Config) (structure : option BodyStructure) :
  let r := attachments ToLower EqualFold TrimSpace decodeHeader cfg structure in
  NoDup r.2 ∧ Forall (λ name, name ≠ "") r.2 ∧ (r.1 = true ↔ r.2 ≠ []).
Proof.
  intros r. subst r. unfold attachments.
  destruct structure as [bs |].
  - pose proof (walk_in_step cfg bs (∅, [])) as Hw.
    destruct Hw as (Hnd & Hne & _).
    { split; [constructor |]. split; [constructor |]. intros name. cbn.
      rewrite elem_of_empty. split; [done | intros H; inversion H]. }
    destruct (walk _ _ _ _ cfg bs (∅, [])).2 as [| n names] eqn:Hnames.
    + cbn. split; [constructor |]. split; [constructor |]. split; [discriminate | done].
    + cbn [length]. destruct (Z.ltb_spec 0 (Z.of_nat (S (length names)))); [| lia].
      cbn [fst snd]. split; [exact Hnd |]. split; [exact Hne |]. split; [done | done].
  - cbn. split; [constructor |]. split; [constructor |]. split; [discriminate | done].
Qed.

End attachments_proofs.

Lemma extractBody_multipart_returns_converted_html_witness :
  let r :=
    parser.extractBody (λ d _, d) id (λ s _, parser.htmlStripTags s)
      parser.htmlOnlyMail imapclient.exampleConfig in
  r.2 = None ∧ r.1.2 = "Hello World" ∧ r.1.1 = "Hello World".
Proof.
  destruct (extractBody_multipart_returns_converted_html (λ d _, d) id
              (λ s _, parser.htmlStripTags s) parser.htmlOnlyMail
              imapclient.exampleConfig "multipart/alternative")
    as (Herr & _ & _).
  - reflexivity.
  - reflexivity.
  - reflexivity.
  - split; [exact Herr |]. split; reflexivity.
Defined.

End parser_extra.

Module monitor_extra.
Import config monitor monitor_proofs utf8_extra.

(** ** The consumer, beyond the claims *)

Lemma fetchLoop_shape (debug : bool) (uid : Z) (fetch : nat -> FetchResult)
    (turns : nat) : ∀ (attempt : nat) (last : option parser.Message * error),
  let r := fetchLoop debug uid fetch turns attempt last in
  Forall (λ e, fetching e = true) r.2
  ∧ slept_for r.2 = repeat (150 * Millisecond) (length (slept_for r.2))
  ∧ (length (slept_for r.2) <= turns)%nat
  ∧ (length (slept_for r.2) <= attempts r.2)%nat
  ∧ ((0 < turns)%nat ∨ (∃ e, last = (None, Some e)) ->
     (∃ m, r.1 = (Some m, None)) ∨ (∃ e, r.1 = (None, Some e))).
Proof.
  induction turns as [| turns IH]; intros attempt last r; subst r.
  - cbn. split; [constructor |]. split; [reflexivity |]. split; [lia |].
    split; [lia |]. intros [H | H]; [lia | right; exact H].
  - cbn [fetchLoop]. destruct (fetch attempt) as [m | e].
    + cbn. split; [repeat constructor |]. split; [reflexivity |]. split; [lia |].
      split; [lia |]. intros _. left. eauto.
    + destruct (negb (transientRe_MatchString e)).
      * cbn. split; [repeat constructor |]. split; [reflexivity |]. split; [lia |].
        split; [lia |]. intros _. right. eauto.
      * specialize (IH (S attempt) (None, Some e)). cbn zeta in IH.
        destruct (fetchLoop debug uid fetch turns (S attempt) (None, Some e))
          as [r effs]. cbn [fst snd] in *.
        destruct IH as (Hf & Hs & Hl & Ha & Hshape).
        assert (attempts
                  (EffFetchAndParse uid
                   :: (if debug
                       then [EffLog "fetch transient error uid=%d attempt=%d err=%v"
                               [imapclient.AInt uid; imapclient.AInt (Z.of_nat attempt);
                                imapclient.AErr (Some e)]]
                       else []) ++ EffSleep (150 * Millisecond) :: effs)
                = S (attempts effs)) as Hat
          by (destruct debug; reflexivity).
        assert (slept_for
                  (EffFetchAndParse uid
                   :: (if debug
                       then [EffLog "fetch transient error uid=%d attempt=%d err=%v"
                               [imapclient.AInt uid; imapclient.AInt (Z.of_nat attempt);
                                imapclient.AErr (Some e)]]
                       else []) ++ EffSleep (150 * Millisecond) :: effs)
                = 150 * Millisecond :: slept_for effs) as Hsl
          by (destruct debug; reflexivity).
        split.
        { constructor; [reflexivity |]. apply Forall_app. split.
          - destruct debug; repeat constructor.
          - constructor; [reflexivity | exact Hf]. }
        rewrite Hsl. cbn [length repeat].
        split; [f_equal; exact Hs |]. split; [lia |].
        split; [rewrite Hat; lia |].
        intros _. apply Hshape. right. eauto.
Qed.

Lemma slept_for_app (a b : list Effect) : slept_for (a ++ b) = slept_for a ++ slept_for b.
Proof. apply flat_map_app. Qed.

Lemma deliveries_app (a b : list Effect) :
  deliveries (a ++ b) = deliveries a ++ deliveries b.
Proof. apply flat_map_app. Qed.

Lemma fetching_quiet (effs : list Effect) :
  Forall (λ e, fetching e = true) effs ->
  deliveries effs = [] ∧ releases effs = 0%nat ∧ EffNilDereference ∉ effs.
Proof.
  induction 1 as [| e effs He _ (IH1 & IH2 & IH3)].
  - split; [reflexivity |]. split; [reflexivity |]. intros H. inversion H.
  - destruct e; try discriminate He.
    + split; [exact IH1 |]. split; [exact IH2 |].
      intros H. apply elem_of_cons in H as [H | H]; [discriminate | contradiction].
    + split; [exact IH1 |]. split; [exact IH2 |].
      intros H. apply elem_of_cons in H as [H | H]; [discriminate | contradiction].
    + split; [exact IH1 |]. split; [exact IH2 |].
      intros H. apply elem_of_cons in H as [H | H]; [discriminate | contradiction].
Qed.

(** X17. For every event, whatever the fetches and the delivery do, the
    consumer calls [EndProcess] exactly once, as the last thing it does for
    the event; it never dereferences a nil message; it hands at most one
    payload to [SendWithRetry], and none exactly when the fetching ended in
    an error; and it sleeps 150 ms after every transient failure, the last
    one included, so at most three times. *)
Theorem handleEvent_releases_exactly_once (TrimSpace ToLower : string -> string)
    (cf : Config) (env : ConsumerEnv) (ev : imapclient.Event) (cl : imapclient.Client) :
  let r := handleEvent TrimSpace ToLower cf env ev cl in
  let fetched := fetchWithRetry (Debug cf) (imapclient.UID ev) (fetch_result env) in
  r.1 = imapclient.EndProcess cl
  ∧ (∃ effs, r.2 = effs ++ [EffEndProcess] ∧ releases effs = 0%nat)
  ∧ ¬ (EffNilDereference ∈ r.2)
  ∧ (length (deliveries r.2) <= 1)%nat
  ∧ (deliveries r.2 = [] ↔ ∃ e, fetched.1.2 = Some e)
  ∧ slept_for r.2 = repeat (150 * Millisecond) (length (slept_for r.2))
  ∧ (length (slept_for r.2) <= 3)%nat
  ∧ (length (slept_for r.2) <= attempts r.2)%nat.
Proof.
  intros r fetched. subst r fetched. unfold handleEvent, fetchWithRetry.
  pose proof (fetchLoop_shape (Debug cf) (imapclient.UID ev) (fetch_result env)
                (Z.to_nat (maxFetchRetry + 1)) 0 (None, None)) as Hshape.
  cbn zeta in Hshape.
  destruct (fetchLoop (Debug cf) (imapclient.UID ev) (fetch_result env)
              (Z.to_nat (maxFetchRetry + 1)) 0 (None, None)) as [[msg perr] effs].
  cbn [fst snd] in *.
  destruct Hshape as (Hf & Hs & Hl & Hatt & Hres).
  destruct (fetching_quiet effs Hf) as (Hd & Hr & Hnil).
  change (Z.to_nat (maxFetchRetry + 1)) with 3%nat in Hl.
  destruct Hres as [[m Hm] | [e He]]; [left; vm_compute; lia | |]; simplify_eq;
    cbn [fst snd].
  - (* parsed *)
    split; [reflexivity |].
    split.
    { eexists (effs ++ [_; _]). rewrite <- app_assoc. split; [reflexivity |].
      unfold releases in *. rewrite List.filter_app, length_app, Hr.
      destruct (send_result env); reflexivity. }
    split.
    { intros H. apply elem_of_app in H as [H | H]; [contradiction |].
      destruct (send_result env);
        repeat (apply elem_of_cons in H as [H | H]; [discriminate |]);
        inversion H. }
    rewrite deliveries_app, Hd, slept_for_app.
    replace (slept_for _ ++ slept_for _) with (slept_for effs)
      by (destruct (send_result env); cbn; rewrite app_nil_r; reflexivity).
    split; [destruct (send_result env); cbn; lia |].
    split.
    { split; [destruct (send_result env); discriminate | intros [e He]; discriminate]. }
    split; [exact Hs |]. split; [exact Hl |].
    unfold attempts in *. rewrite List.filter_app, length_app. lia.
  - (* failed *)
    split; [reflexivity |].
    split.
    { eexists (effs ++ [_]). rewrite <- app_assoc. split; [reflexivity |].
      unfold releases in *. rewrite List.filter_app, length_app, Hr. reflexivity. }
    split.
    { intros H. apply elem_of_app in H as [H | H]; [contradiction |].
      repeat (apply elem_of_cons in H as [H | H]; [discriminate |]).
      inversion H. }
    rewrite deliveries_app, Hd, slept_for_app. cbn [app]. 
    replace (slept_for effs ++ slept_for _) with (slept_for effs)
      by (cbn; rewrite app_nil_r; reflexivity).
    split; [cbn; lia |].
    split; [split; [eauto | reflexivity] |].
    split; [exact Hs |]. split; [exact Hl |].
    unfold attempts in *. rewrite List.filter_app, length_app. lia.
Qed.

(** ** The consumer over [Exec] *)

Lemma FetchAndParse_no_session (env : imapclient.ExecEnv) (m : parser.Message) (uid : Z)
    (w : imapclient.World) :
  imapclient.c (imapclient.client w) = None ->
  FetchAndParse env m uid w = (Failed "no connection", w).
Proof.
  intros Hc. unfold FetchAndParse.
  rewrite imapclient_extra.bind_run, (imapclient_proofs.Exec_no_session _ _ _ _ Hc).
  reflexivity.
Qed.

Lemma FetchAndParse_timeout (env : imapclient.ExecEnv) (m : parser.Message) (uid : Z)
    (w : imapclient.World) (h : imapclient.Conn) (cause : string) :
  imapclient.c (imapclient.client w) = Some h ->
  imapclient.race env = imapclient.CtxDone cause ->
  (FetchAndParse env m uid w).1
  = Failed ("op " +:+ "fetch" +:+ " timeout or canceled: " +:+ cause).
Proof.
  intros Hc Hrace. unfold FetchAndParse. rewrite imapclient_extra.bind_run.
  destruct (imapclient_proofs.Exec_live env "fetch"
              (λ h, imapclient.OpFetchUid h uid uid) w h Hc) as [lines ->].
  rewrite Hrace. reflexivity.
Qed.

(** The text of a timeout of [Exec] always matches the pattern. *)
Lemma timeout_text_is_transient (op cause : string) :
  transientRe_MatchString ("op " +:+ op +:+ " timeout or canceled: " +:+ cause) = true.
Proof.
  apply transientRe_spec. exists "timeout". split; [repeat constructor |].
  exists (utf8.bytes "op " ++ utf8.runes op ++ [32]), (utf8.bytes "timeout"),
         (utf8.bytes " or canceled: " ++ utf8.runes cause).
  split.
  - rewrite runes_ascii_prefix by (vm_compute; repeat constructor).
    rewrite runes_around_ascii by (first [done | vm_compute; repeat constructor]).
    change (utf8.bytes " timeout or canceled: ")
      with ([32] ++ utf8.bytes "timeout" ++ utf8.bytes " or canceled: ").
    rewrite <- !app_assoc. reflexivity.
  - replace (utf8.runes "timeout") with (utf8.bytes "timeout")
      by (vm_compute; reflexivity).
    change (utf8.bytes "timeout") with [116; 105; 109; 101; 111; 117; 116].
    repeat constructor; apply matchRune_spec; reflexivity.
Qed.

(** X18. An event whose fetch finds the engine without a session (between a
    reset and the next successful connect) is dropped: [Exec] answers
    "no connection", which is not a transient error, so the consumer makes
    that one attempt, does not sleep, sends no webhook, logs the failure and
    releases the counter. *)
Theorem event_without_session_is_dropped (TrimSpace ToLower : string -> string)
    (cf : Config) (env : ConsumerEnv) (ev : imapclient.Event) (cl : imapclient.Client)
    (eenv : imapclient.ExecEnv) (m : parser.Message) (w : imapclient.World) :
  imapclient.c (imapclient.client w) = None ->
  fetch_result env 0%nat = (FetchAndParse eenv m (imapclient.UID ev) w).1 ->
  handleEvent TrimSpace ToLower cf env ev cl
  = (imapclient.EndProcess cl,
     [EffFetchAndParse (imapclient.UID ev);
      EffLog "解析邮件失败 UID=%d: %v"
        [imapclient.AInt (imapclient.UID ev); imapclient.AErr (Some "no connection")];
      EffEndProcess]).
Proof.
  intros Hc Hfetch. rewrite (FetchAndParse_no_session _ _ _ _ Hc) in Hfetch.
  cbn [fst] in Hfetch.
  unfold handleEvent, fetchWithRetry.
  change (Z.to_nat (maxFetchRetry + 1)) with 3%nat.
  cbn [fetchLoop]. rewrite Hfetch.
  replace (transientRe_MatchString "no connection") with false
    by (vm_compute; reflexivity).
  reflexivity.
Qed.

(** X19. A timeout or cancellation of [Exec] is always a transient error for
    the consumer, whatever the operation and the cause: when every fetch of
    an event runs into it, the consumer fetches three times, sleeps 150 ms
    three times, sends no webhook, logs the failure and releases the
    counter. *)
Theorem event_with_timeouts_is_fetched_three_times (TrimSpace ToLower : string -> string)
    (cf : Config) (env : ConsumerEnv) (ev : imapclient.Event) (cl : imapclient.Client) :
  (∀ i, (i < 3)%nat ->
        ∃ eenv m w h cause,
          imapclient.c (imapclient.client w) = Some h
          ∧ imapclient.race eenv = imapclient.CtxDone cause
          ∧ fetch_result env i = (FetchAndParse eenv m (imapclient.UID ev) w).1) ->
  let r := handleEvent TrimSpace ToLower cf env ev cl in
  (∀ op cause,
     transientRe_MatchString
       (default "" (imapclient.raceError op (imapclient.CtxDone cause))) = true)
  ∧ r.1 = imapclient.EndProcess cl
  ∧ attempts r.2 = 3%nat
  ∧ slept_for r.2 = repeat (150 * Millisecond) 3
  ∧ deliveries r.2 = []
  ∧ ∃ effs e, r.2 = effs ++ [EffLog "解析邮件失败 UID=%d: %v"
                              [imapclient.AInt (imapclient.UID ev);
                               imapclient.AErr (Some e)];
                            EffEndProcess]
              ∧ transientRe_MatchString e = true.
Proof.
  intros Hall r. subst r.
  split; [intros op cause; apply timeout_text_is_transient |].
  assert (∀ i, (i < 3)%nat ->
            ∃ e, fetch_result env i = Failed e ∧ transientRe_MatchString e = true)
    as Hfail.
  { intros i Hi. destruct (Hall i Hi) as (eenv & m & w & h & cause & Hc & Hrace & Hf).
    rewrite (FetchAndParse_timeout _ _ _ _ _ _ Hc Hrace) in Hf.
    eexists. split; [exact Hf | apply timeout_text_is_transient]. }
  destruct (Hfail 0%nat ltac:(lia)) as (e0 & H0 & T0).
  destruct (Hfail 1%nat ltac:(lia)) as (e1 & H1 & T1).
  destruct (Hfail 2%nat ltac:(lia)) as (e2 & H2 & T2).
  unfold handleEvent, fetchWithRetry.
  change (Z.to_nat (maxFetchRetry + 1)) with 3%nat.
  cbn [fetchLoop]. rewrite H0, H1, H2, T0, T1, T2. cbn [negb fst snd].
  split; [reflexivity |].
  split; [destruct (Debug cf); reflexivity |].
  split; [destruct (Debug cf); reflexivity |].
  split; [destruct (Debug cf); reflexivity |].
  eexists _, e2. split; [| exact T2].
  rewrite !app_comm_cons. reflexivity.
Qed.

(** ** The body, from the parser to the payload *)

Lemma BuildPayload_body_fits (TrimSpace ToLower : string -> string) (unixNow : Z)
    (out : webhook.Payload) (bodyLimit : Z) :
  webhook.len (webhook.Body out) <= bodyLimit ->
  webhook.Body (webhook.BuildPayload TrimSpace ToLower unixNow (Some out) bodyLimit)
  = webhook.Body out.
Proof.
  intros Hfit. unfold webhook.BuildPayload. cbn [webhook.Body].
  destruct (Z.ltb_spec bodyLimit (webhook.len (webhook.Body out))); [lia |].
  rewrite andb_false_r. reflexivity.
Qed.

(** X29. The limit of [BuildPayload] only matters below 20014 bytes: the
    body of a parsed message is what [extractBody] returned, which
    [limitText] has cut already, so with a body limit of 20014 bytes or more
    (the default is 204800) the consumer hands the body to [SendWithRetry] as
    the parser left it. *)
Theorem body_limit_above_20014_never_cuts (TrimSpace ToLower : string -> string)
    (decodeTransferIfNeeded : string -> string -> string)
    (removeStyleTags : string -> string) (htmlToText : string -> string -> string)
    (cf : Config) (env : ConsumerEnv) (ev : imapclient.Event) (cl : imapclient.Client)
    (mail : parser.Mail) (msg : parser.Message) :
  parser.Body msg
  = (parser.extractBody decodeTransferIfNeeded removeStyleTags htmlToText mail cf).1.1 ->
  (fetchWithRetry (Debug cf) (imapclient.UID ev) (fetch_result env)).1 = (Some msg, None) ->
  20014 <= FetchBodySize cf ->
  ∃ p, deliveries (handleEvent TrimSpace ToLower cf env ev cl).2 = [p]
       ∧ webhook.Body p = parser.Body msg
       ∧ webhook.len (webhook.Body p) <= 20014.
Proof.
  intros Hbody Hfetch Hlimit.
  pose proof (parser_extra.extractBody_len decodeTransferIfNeeded removeStyleTags htmlToText mail cf)
    as Hlen.
  rewrite <- Hbody in Hlen.
  pose proof (fetchLoop_shape (Debug cf) (imapclient.UID ev)
                (fetch_result env) (Z.to_nat (maxFetchRetry + 1)) 0 (None, None))
    as Hshape.
  cbn zeta in Hshape.
  unfold handleEvent. unfold fetchWithRetry in *.
  destruct (fetchLoop (Debug cf) (imapclient.UID ev) (fetch_result env)
              (Z.to_nat (maxFetchRetry + 1)) 0 (None, None)) as [[m perr] effs].
  cbn [fst snd] in *. simplify_eq. cbn [fst snd].
  destruct Hshape as (Hf & _).
  destruct (fetching_quiet effs Hf) as (Hd & _).
  eexists. split.
  - rewrite deliveries_app, Hd.
    destruct (send_result env); reflexivity.
  - rewrite BuildPayload_body_fits by (cbn [basePayload webhook.Body]; lia).
    cbn [basePayload webhook.Body]. split; [reflexivity | exact Hlen].
Qed.

Lemma event_without_session_is_dropped_witness :
  monitor.handleEvent id id imapclient.exampleConfig monitor.duringReconnect
    (imapclient.mkEvent 1234)
    (imapclient.BeginProcess (imapclient.New imapclient.exampleConfig))
  = (imapclient.EndProcess
       (imapclient.BeginProcess (imapclient.New imapclient.exampleConfig)),
     [monitor.EffFetchAndParse 1234;
      monitor.EffLog "解析邮件失败 UID=%d: %v"
        [imapclient.AInt 1234; imapclient.AErr (Some "no connection")];
      monitor.EffEndProcess]).
Proof.
  apply (event_without_session_is_dropped id id imapclient.exampleConfig
           monitor.duringReconnect (imapclient.mkEvent 1234)
           (imapclient.BeginProcess (imapclient.New imapclient.exampleConfig))
           imapclient.timesOut monitor.plainMessage
           (imapclient.world_of (imapclient.New imapclient.exampleConfig) 0)).
  - reflexivity.
  - reflexivity.
Defined.

Lemma event_with_timeouts_is_fetched_three_times_witness :
  let r :=
    monitor.handleEvent id id imapclient.exampleConfig monitor.serverHangs
      (imapclient.mkEvent 1234)
      (imapclient.BeginProcess (imapclient.New imapclient.exampleConfig)) in
  monitor.attempts r.2 = 3%nat
  ∧ monitor.slept_for r.2 = repeat (150 * Millisecond) 3
  ∧ monitor.deliveries r.2 = [].
Proof.
  destruct (event_with_timeouts_is_fetched_three_times id id
              imapclient.exampleConfig monitor.serverHangs (imapclient.mkEvent 1234)
              (imapclient.BeginProcess (imapclient.New imapclient.exampleConfig)))
    as (_ & _ & Hatt & Hsl & Hdel & _).
  - intros i Hi.
    exists imapclient.timesOut, monitor.plainMessage, imapclient.liveWorld,
           7%nat, "context deadline exceeded".
    split; [reflexivity |]. split; reflexivity.
  - split; [exact Hatt |]. split; [exact Hsl | exact Hdel].
Defined.

Lemma body_limit_above_20014_never_cuts_witness :
  ∃ p, monitor.deliveries
         (monitor.handleEvent id id imapclient.exampleConfig monitor.arrives
            (imapclient.mkEvent 1234)
            (imapclient.BeginProcess (imapclient.New imapclient.exampleConfig))).2
       = [p]
       ∧ webhook.Body p = parser.Body monitor.plainMessage
       ∧ webhook.len (webhook.Body p) <= 20014.
Proof.
  apply (body_limit_above_20014_never_cuts id id (λ d _, d) id (λ s _, s)
           imapclient.exampleConfig monitor.arrives (imapclient.mkEvent 1234)
           (imapclient.BeginProcess (imapclient.New imapclient.exampleConfig))
           parser.plainMail monitor.plainMessage).
  - reflexivity.
  - reflexivity.
  - vm_compute. discriminate.
Defined.

End monitor_extra.
